(** * Staging-to-published synchronisation of the question workflow

    A shallow embedding of the workflow endpoints of [main.py] over the
    tables of [database.py], and the properties of the synchronisation
    pass [sync_to_actual].

    Conventions of the embedding.
    - A table is the list of its rows in rowid order; a query without
      ORDER BY returns rows in that order and [.first()] is the first
      match.  Primary keys are SQLite rowids: an insert without an id
      receives the largest id of the table plus one ([next_rowid]).
    - An ORM object is identified by its primary key (the session's
      identity map): mutating an object rewrites the row with that key,
      and rows loaded again by a later query of the same request show
      the pending mutation.
    - The session is created with [autoflush=False]: objects added with
      [db.add] are not visible to queries before [db.flush] or
      [db.commit].  On flush the unit of work inserts before it deletes.
    - [datetime.utcnow()] is the parameter [now] of each request.
    - Columns [created_at] are written once at insert and never read;
      they are not represented.  [updated_at] is. *)

From stdpp Require Import gmap strings list fin_maps.
From Stdlib Require Import ZArith Ascii.

Open Scope Z_scope.

Set Warnings "-clear-no-such-hyp".

(** ** Tables ([database.py]) *)

Record Run := mkRun {
  r_id : string;
  r_summary : string;
  r_updated_at : Z;
  r_last_sync_at : option Z;
  r_last_staging_change_at : option Z }.

(** [is_approved]: [None] pending, [Some true] approved, [Some false]
    rejected.  [qs_tags] is the set of [tag_id]s related through the
    association table [question_tags]. *)
Record QuestionStaging := mkQuestionStaging {
  qs_id : Z;
  qs_run_id : string;
  qs_question_text : string;
  qs_is_approved : option bool;
  qs_updated_at : Z;
  qs_tags : gset Z }.

Record AnswerStaging := mkAnswerStaging {
  as_id : Z;
  as_run_id : string;
  as_question_id : Z;
  as_answer_text : string;
  as_is_approved : option bool;
  as_updated_at : Z }.

(** Table [questions]; [q_is_approved] is the column the specification
    calls [has_approved_answer]. *)
Record Question := mkQuestion {
  q_id : Z;
  q_run_id : string;
  q_staging_id : option Z;
  q_question_text : string;
  q_is_approved : bool;
  q_updated_at : Z;
  q_tags : gset Z }.

Record Answer := mkAnswer {
  a_id : Z;
  a_run_id : string;
  a_question_id : Z;
  a_staging_id : option Z;
  a_answer_text : string;
  a_updated_at : Z }.

Record Tag := mkTag {
  tag_id : Z;
  tag_name : string }.

Record Store := mkStore {
  runs : list Run;
  question_staging : list QuestionStaging;
  answer_staging : list AnswerStaging;
  questions : list Question;
  answers : list Answer;
  tags : list Tag }.

#[global] Instance QuestionStaging_eq_dec : EqDecision QuestionStaging.
Proof. solve_decision. Defined.
#[global] Instance AnswerStaging_eq_dec : EqDecision AnswerStaging.
Proof. solve_decision. Defined.
#[global] Instance Question_eq_dec : EqDecision Question.
Proof. solve_decision. Defined.
#[global] Instance Answer_eq_dec : EqDecision Answer.
Proof. solve_decision. Defined.

(** ** The record store *)

(** The rowid SQLite gives to an insert: one more than the largest
    rowid of the table, and 1 in an empty table. *)
Definition next_rowid (ids : list Z) : Z :=
  match ids with
  | [] => 1
  | i :: rest => foldl Z.max i rest + 1
  end.

(** Python truth value of an integer column: [None] and [0] are false. *)
Definition truthy (x : option Z) : bool :=
  match x with
  | Some n => negb (n =? 0)
  | None => false
  end.

(** [db.query(Run).filter(Run.id == run_id).first()] *)
Definition find_run (run_id : string) (st : Store) : option Run :=
  snd <$> list_find (λ r, r_id r = run_id) (runs st).

(** The object with primary key [i] in table [questions]. *)
Definition find_question (i : Z) (qs : list Question) : option Question :=
  snd <$> list_find (λ q, q_id q = i) qs.

Definition update_run (run_id : string) (f : Run → Run) (rs : list Run) : list Run :=
  (λ r, if decide (r_id r = run_id) then f r else r) <$> rs.

Definition update_question (i : Z) (f : Question → Question)
    (qs : list Question) : list Question :=
  (λ q, if decide (q_id q = i) then f q else q) <$> qs.

Definition update_answer (i : Z) (f : Answer → Answer)
    (l : list Answer) : list Answer :=
  (λ a, if decide (a_id a = i) then f a else a) <$> l.

(** Responses: the value of a successful request, or the status code of
    the [HTTPException] raised. *)
Inductive Response (A : Type) : Type :=
  | Ok (a : A)
  | HTTPException (status_code : Z).
Arguments Ok {A} a.
Arguments HTTPException {A} status_code.

(** ** Synchronisation ([sync_to_actual]) *)

(** The places of the pass at which the store can raise. *)
Inductive SyncStep : Type :=
  | Classify | UpsertQuestions | UpsertAnswers | DemoteStale | DeleteStale | Commit.

#[global] Instance SyncStep_eq_dec : EqDecision SyncStep.
Proof. solve_decision. Defined.

(** [attempt fault s] is the store operation of step [s]: it raises
    (here: [None]) when the fault oracle names that step. *)
Definition attempt (fault : option SyncStep) (s : SyncStep) : option unit :=
  if decide (fault = Some s) then None else Some ().

Record SyncResult := mkSyncResult {
  sr_last_sync_at : Z;
  sr_questions_synced : nat }.

Section sync.
Context (now : Z) (run_id : string).

Definition approved_questions (st : Store) : list QuestionStaging :=
  filter (λ q, qs_run_id q = run_id ∧ qs_is_approved q = Some true)
         (question_staging st).

Definition approved_answers (st : Store) : list AnswerStaging :=
  filter (λ a, as_run_id a = run_id ∧ as_is_approved a = Some true)
         (answer_staging st).

Definition approved_staging_question_ids (st : Store) : gset Z :=
  list_to_set (qs_id <$> approved_questions st).

Definition approved_staging_answer_ids (st : Store) : gset Z :=
  list_to_set (as_id <$> approved_answers st).

(** The loop filling [approved_questions_with_answers]. *)
Definition approved_questions_with_answers (st : Store) : gset Z :=
  foldl (λ acc staging_a,
           if decide (as_question_id staging_a ∈ approved_staging_question_ids st)
           then acc ∪ {[as_question_id staging_a]} else acc)
        ∅ (approved_answers st).

(** The dictionary [staging_to_actual_question], holding primary keys
    for the objects. *)
Definition staging_to_actual_question (qs : list Question) : gmap Z Z :=
  foldl (λ m aq, match q_staging_id aq with
                 | Some s => <[s := q_id aq]> m
                 | None => m
                 end)
        ∅ (filter (λ aq, q_run_id aq = run_id ∧ q_staging_id aq ≠ None) qs).

(** One iteration of the loop over the approved staging questions. *)
Definition upsert_question (Wq : gset Z) (staging_q : QuestionStaging)
    (acc : gmap Z Z * list Question * nat) : gmap Z Z * list Question * nat :=
  let '(m, qs, questions_synced) := acc in
  let new_approved_state := bool_decide (qs_id staging_q ∈ Wq) in
  match m !! qs_id staging_q ≫= λ i, find_question i qs with
  | Some actual_q =>
      let tags_changed := bool_decide (q_tags actual_q ≠ qs_tags staging_q) in
      let counted :=
        bool_decide (q_is_approved actual_q ≠ new_approved_state) || tags_changed in
      (m,
       update_question (q_id actual_q)
         (λ q, mkQuestion (q_id q) (q_run_id q) (q_staging_id q)
                 (qs_question_text staging_q) new_approved_state now
                 (qs_tags staging_q)) qs,
       if counted then S questions_synced else questions_synced)
  | None =>
      let actual_q :=
        mkQuestion (next_rowid (q_id <$> qs)) run_id (Some (qs_id staging_q))
          (qs_question_text staging_q) new_approved_state now
          (qs_tags staging_q) in
      (<[qs_id staging_q := q_id actual_q]> m,
       qs ++ [actual_q],
       if new_approved_state then S questions_synced else questions_synced)
  end.

(** A published answer added to the session and not yet inserted. *)
Record NewAnswer := mkNewAnswer {
  na_question_id : Z;
  na_staging_id : Z;
  na_answer_text : string }.

(** One iteration of the loop over the approved staging answers.  The
    query for [existing_answer] sees the table, not the answers added
    in earlier iterations. *)
Definition upsert_answer (Aq : gset Z) (m : gmap Z Z) (qs : list Question)
    (staging_a : AnswerStaging)
    (acc : list Answer * list NewAnswer) : list Answer * list NewAnswer :=
  let '(ans, added) := acc in
  if decide (as_question_id staging_a ∈ Aq) then
    match m !! as_question_id staging_a ≫= λ i, find_question i qs with
    | Some actual_q =>
        if truthy (Some (q_id actual_q)) then
          match list_find (λ a, a_run_id a = run_id
                                ∧ a_question_id a = q_id actual_q
                                ∧ a_staging_id a = Some (as_id staging_a)) ans with
          | Some (_, existing_answer) =>
              (update_answer (a_id existing_answer)
                 (λ a, mkAnswer (a_id a) (a_run_id a) (a_question_id a)
                         (a_staging_id a) (as_answer_text staging_a) now) ans,
               added)
          | None =>
              (ans,
               added ++ [mkNewAnswer (q_id actual_q) (as_id staging_a)
                           (as_answer_text staging_a)])
          end
        else (ans, added)
    | None => (ans, added)
    end
  else (ans, added).

(** The loop over [all_actual_questions]: the rows of this run. *)
Definition demote_question (Aq Wq : gset Z) (actual_q : Question)
    (questions_synced : nat) : Question * nat :=
  if decide (q_run_id actual_q = run_id) then
    if truthy (q_staging_id actual_q) then
      let previous_state := q_is_approved actual_q in
      let demoted :=
        mkQuestion (q_id actual_q) (q_run_id actual_q) (q_staging_id actual_q)
          (q_question_text actual_q) false now (q_tags actual_q) in
      let counted := if previous_state then S questions_synced else questions_synced in
      match q_staging_id actual_q with
      | Some s =>
          if decide (s ∉ Aq) then (demoted, counted)
          else if decide (s ∉ Wq) then (demoted, counted)
          else (actual_q, questions_synced)
      | None => (actual_q, questions_synced)
      end
    else (actual_q, questions_synced)
  else (actual_q, questions_synced).

Fixpoint demote_stale (Aq Wq : gset Z) (qs : list Question)
    (questions_synced : nat) : list Question * nat :=
  match qs with
  | [] => ([], questions_synced)
  | actual_q :: rest =>
      let '(q', n') := demote_question Aq Wq actual_q questions_synced in
      let '(rest', n'') := demote_stale Aq Wq rest n' in
      (q' :: rest', n'')
  end.

(** The flag [should_delete] of the loop over [all_actual_answers]. *)
Definition should_delete (Aq Aa : gset Z) (qs : list Question)
    (actual_a : Answer) : bool :=
  (truthy (a_staging_id actual_a)
   && match a_staging_id actual_a with
      | Some s => bool_decide (s ∉ Aa)
      | None => false
      end)
  || (truthy (Some (a_question_id actual_a))
      && match find_question (a_question_id actual_a) qs with
         | Some actual_q =>
             truthy (q_staging_id actual_q)
             && match q_staging_id actual_q with
                | Some s => bool_decide (s ∉ Aq)
                | None => false
                end
         | None => false
         end).

(** The loop over [all_actual_answers], the rows of this run the query
    returns: the primary keys of the objects passed to [db.delete]. *)
Definition delete_stale (Aq Aa : gset Z) (qs : list Question)
    (ans : list Answer) : list Z :=
  a_id <$> filter (λ a, a_run_id a = run_id ∧ should_delete Aq Aa qs a = true) ans.

(** The inserts of the final flush, one rowid after the other. *)
Definition insert_answer (ans : list Answer) (na : NewAnswer) : list Answer :=
  ans ++ [mkAnswer (next_rowid (a_id <$> ans)) run_id (na_question_id na)
            (Some (na_staging_id na)) (na_answer_text na) now].

(** The flush of [db.commit()]: the answers added to the session are
    inserted, then the objects marked for deletion are deleted.  The
    added answers were in no query result, so none of them is marked. *)
Definition flush_answers (ans : list Answer) (added : list NewAnswer)
    (deleted : list Z) : list Answer :=
  filter (λ a, a_id a ∉ deleted) (foldl insert_answer ans added).

(** The body of the [try] block: [None] when the store raises. *)
Definition sync_pass (fault : option SyncStep) (st : Store) : option (Store * nat) :=
  _ ← attempt fault Classify;
  let Aq := approved_staging_question_ids st in
  let Aa := approved_staging_answer_ids st in
  let Wq := approved_questions_with_answers st in
  let m0 := staging_to_actual_question (questions st) in
  _ ← attempt fault UpsertQuestions;
  let '(m, qs2, n2) :=
    foldl (λ acc staging_q, upsert_question Wq staging_q acc)
          (m0, questions st, 0%nat) (approved_questions st) in
  _ ← attempt fault UpsertAnswers;
  let '(ans3, added) :=
    foldl (λ acc staging_a, upsert_answer Aq m qs2 staging_a acc)
          (answers st, []) (approved_answers st) in
  _ ← attempt fault DemoteStale;
  let '(qs4, n4) := demote_stale Aq Wq qs2 n2 in
  _ ← attempt fault DeleteStale;
  let deleted := delete_stale Aq Aa qs4 ans3 in
  _ ← attempt fault Commit;
  Some (mkStore
          (update_run run_id
             (λ r, mkRun (r_id r) (r_summary r) now (Some now)
                     (r_last_staging_change_at r)) (runs st))
          (question_staging st) (answer_staging st)
          qs4
          (flush_answers ans3 added deleted)
          (tags st),
        n4).

(** The endpoint: 404 before the transaction starts, 500 and
    [db.rollback()] when the body raises. *)
Definition sync_to_actual (fault : option SyncStep) (st : Store)
    : Store * Response SyncResult :=
  match find_run run_id st with
  | None => (st, HTTPException 404)
  | Some run =>
      match sync_pass fault st with
      | Some (st', questions_synced) => (st', Ok (mkSyncResult now questions_synced))
      | None => (st, HTTPException 500)
      end
  end.

End sync.

(** ** Staging mutations *)

(** The generation collaborator of [llm_service.py]; a call that raises
    returns [None].  The global [llm_service] is [None] when its
    construction failed at start-up. *)
Record LLMService := mkLLMService {
  llm_generate_questions : string → Z → option (list string);
  llm_generate_answer : string → string → option string }.

(** Python's [str.isspace] on the code points below 256. *)
Definition py_isspace (c : ascii) : bool :=
  let n := nat_of_ascii c in
  ((9 <=? n)%nat && (n <=? 13)%nat) || ((28 <=? n)%nat && (n <=? 32)%nat)
  || (n =? 133)%nat || (n =? 160)%nat.

Fixpoint lstrip (s : string) : string :=
  match s with
  | EmptyString => EmptyString
  | String c s' => if py_isspace c then lstrip s' else s
  end.

(** [str.strip()] *)
Definition strip (s : string) : string :=
  String.rev (lstrip (String.rev (lstrip s))).

Definition find_staging_question (i : Z) (st : Store) : option QuestionStaging :=
  snd <$> list_find (λ q, qs_id q = i) (question_staging st).

Definition find_staging_answer (i : Z) (st : Store) : option AnswerStaging :=
  snd <$> list_find (λ a, as_id a = i) (answer_staging st).

Definition find_tag (name : string) (ts : list Tag) : option Tag :=
  snd <$> list_find (λ t, tag_name t = name) ts.

Definition update_staging_question (i : Z) (f : QuestionStaging → QuestionStaging)
    (l : list QuestionStaging) : list QuestionStaging :=
  (λ q, if decide (qs_id q = i) then f q else q) <$> l.

Definition update_staging_answer (i : Z) (f : AnswerStaging → AnswerStaging)
    (l : list AnswerStaging) : list AnswerStaging :=
  (λ a, if decide (as_id a = i) then f a else a) <$> l.

(** The block shared by the three review endpoints:
    [run.last_staging_change_at = utcnow(); run.updated_at = utcnow()]. *)
Definition touch_staging (now : Z) (run_id : string) (rs : list Run) : list Run :=
  update_run run_id
    (λ r, mkRun (r_id r) (r_summary r) now (r_last_sync_at r) (Some now)) rs.

Section staging.
Context (now : Z).

(** [generate_questions] *)
Definition add_staging_question (run_id : string)
    (acc : list QuestionStaging) (question_text : string) : list QuestionStaging :=
  acc ++ [mkQuestionStaging (next_rowid (qs_id <$> acc)) run_id question_text
            None now ∅].

Definition generate_questions (llm_service : option LLMService)
    (run_id : string) (num_questions : Z) (st : Store)
    : Store * Response (list QuestionStaging) :=
  match llm_service with
  | None => (st, HTTPException 500)
  | Some llm =>
      match find_run run_id st with
      | None => (st, HTTPException 404)
      | Some run =>
          match llm_generate_questions llm (r_summary run) num_questions with
          | None => (st, HTTPException 500)
          | Some questions_text =>
              let table :=
                foldl (add_staging_question run_id) (question_staging st)
                      questions_text in
              (mkStore (runs st) table (answer_staging st) (questions st)
                       (answers st) (tags st),
               Ok (drop (length (question_staging st)) table))
          end
      end
  end.

(** [update_question_approval] *)
Definition update_question_approval (question_id : Z) (is_approved : bool)
    (st : Store) : Store * Response QuestionStaging :=
  match find_staging_question question_id st with
  | None => (st, HTTPException 404)
  | Some question =>
      let question' :=
        mkQuestionStaging (qs_id question) (qs_run_id question)
          (qs_question_text question) (Some is_approved) now (qs_tags question) in
      (mkStore
         (touch_staging now (qs_run_id question) (runs st))
         (update_staging_question (qs_id question) (λ _, question')
            (question_staging st))
         (if is_approved then answer_staging st
          else filter (λ a, as_question_id a ≠ question_id) (answer_staging st))
         (questions st) (answers st) (tags st),
       Ok question')
  end.

(** One iteration of the loop of [generate_answers] over the approved
    questions: the primary keys marked for deletion and the answers
    added to the session so far. *)
Definition generate_answer_for (llm : LLMService) (run : Run) (st : Store)
    (question : QuestionStaging) (acc : list Z * list AnswerStaging)
    : option (list Z * list AnswerStaging) :=
  let '(deleted, added) := acc in
  let existing_answers :=
    filter (λ a, as_question_id a = qs_id question) (answer_staging st) in
  let has_non_rejected_answer :=
    existsb (λ ans, bool_decide (as_is_approved ans ≠ Some false)) existing_answers in
  if has_non_rejected_answer then Some acc
  else
    answer_text ← llm_generate_answer llm (qs_question_text question) (r_summary run);
    Some (deleted ++ (as_id <$> existing_answers),
          added ++ [mkAnswerStaging 0 (r_id run) (qs_id question) answer_text
                      None now]).

Fixpoint generate_answers_loop (llm : LLMService) (run : Run) (st : Store)
    (approved : list QuestionStaging) (acc : list Z * list AnswerStaging)
    : option (list Z * list AnswerStaging) :=
  match approved with
  | [] => Some acc
  | question :: rest =>
      acc' ← generate_answer_for llm run st question acc;
      generate_answers_loop llm run st rest acc'
  end.

(** The insert of a pending staging answer at commit. *)
Definition insert_staging_answer (acc : list AnswerStaging) (a : AnswerStaging)
    : list AnswerStaging :=
  acc ++ [mkAnswerStaging (next_rowid (as_id <$> acc)) (as_run_id a)
            (as_question_id a) (as_answer_text a) (as_is_approved a)
            (as_updated_at a)].

(** [generate_answers] *)
Definition generate_answers (llm_service : option LLMService)
    (run_id : string) (st : Store) : Store * Response (list AnswerStaging) :=
  match llm_service with
  | None => (st, HTTPException 500)
  | Some llm =>
      match find_run run_id st with
      | None => (st, HTTPException 404)
      | Some run =>
          let approved := approved_questions run_id st in
          match approved with
          | [] => (st, HTTPException 400)
          | _ =>
              match generate_answers_loop llm run st approved ([], []) with
              | None => (st, HTTPException 500)
              | Some (deleted, added) =>
                  let inserted :=
                    foldl insert_staging_answer (answer_staging st) added in
                  (mkStore (runs st) (question_staging st)
                     (filter (λ a, as_id a ∉ deleted) inserted)
                     (questions st) (answers st) (tags st),
                   Ok (drop (length (answer_staging st)) inserted))
              end
          end
      end
  end.

(** [update_answer_approval] *)
Definition update_answer_approval (answer_id : Z) (is_approved : bool)
    (st : Store) : Store * Response AnswerStaging :=
  match find_staging_answer answer_id st with
  | None => (st, HTTPException 404)
  | Some answer =>
      let answer' :=
        mkAnswerStaging (as_id answer) (as_run_id answer) (as_question_id answer)
          (as_answer_text answer) (Some is_approved) now in
      (mkStore
         (touch_staging now (as_run_id answer) (runs st))
         (question_staging st)
         (update_staging_answer (as_id answer) (λ _, answer') (answer_staging st))
         (questions st) (answers st) (tags st),
       Ok answer')
  end.

(** One iteration of the loop of [update_question_tags] over the tag
    names: the tag table, whether [db.flush()] ran, and [tag_objects]
    as primary keys. *)
Definition resolve_tag (acc : list Tag * bool * list Z) (tag_name0 : string)
    : list Tag * bool * list Z :=
  let '(ts, flushed, tag_objects) := acc in
  let name := strip tag_name0 in
  if decide (name = EmptyString) then acc
  else
    match find_tag name ts with
    | Some tag => (ts, flushed, tag_objects ++ [tag_id tag])
    | None =>
        let tag := mkTag (next_rowid (tag_id <$> ts)) name in
        (ts ++ [tag], true, tag_objects ++ [tag_id tag])
    end.

(** [update_question_tags].  The association rows written at commit
    are the members of [tag_objects] that are not in the collection as
    last flushed (the loaded collection, or the empty one once
    [question.tags = []] was flushed); a row written twice violates
    the primary key of [question_tags] and the request is rolled
    back. *)
Definition update_question_tags (question_id : Z) (tag_names : list string)
    (st : Store) : Store * Response (gset Z) :=
  match find_staging_question question_id st with
  | None => (st, HTTPException 404)
  | Some question =>
      let '(ts, flushed, tag_objects) :=
        foldl resolve_tag (tags st, false, []) tag_names in
      let persisted : gset Z := if flushed then ∅ else qs_tags question in
      let inserted := filter (λ t, t ∉ persisted) tag_objects in
      if decide (NoDup inserted) then
        let question' :=
          mkQuestionStaging (qs_id question) (qs_run_id question)
            (qs_question_text question) (qs_is_approved question) now
            (list_to_set tag_objects) in
        (mkStore
           (touch_staging now (qs_run_id question) (runs st))
           (update_staging_question (qs_id question) (λ _, question')
              (question_staging st))
           (answer_staging st) (questions st) (answers st) ts,
         Ok (list_to_set tag_objects))
      else (st, HTTPException 500)
  end.

End staging.

(** ** Runs ([create_run], [get_run]) *)

(** [create_run].  [new_id] is the value [uuid.uuid4()] gives the
    column [id].  A key that is already in the table violates the
    primary key at commit; the endpoint has no handler for it, the
    request is answered with status 500 and nothing is stored. *)
Definition create_run (now : Z) (new_id summary : string) (st : Store)
    : Store * Response Run :=
  if decide (new_id ∈ r_id <$> runs st) then (st, HTTPException 500)
  else
    let db_run := mkRun new_id summary now None (Some now) in
    (mkStore (runs st ++ [db_run]) (question_staging st) (answer_staging st)
       (questions st) (answers st) (tags st),
     Ok db_run).

Definition get_run (run_id : string) (st : Store) : Response Run :=
  match find_run run_id st with
  | None => HTTPException 404
  | Some run => Ok run
  end.

(** ** Reading the staging tables *)

Definition get_questions (run_id : string) (st : Store)
    : Response (list QuestionStaging) :=
  match find_run run_id st with
  | None => HTTPException 404
  | Some run => Ok (filter (λ q, qs_run_id q = run_id) (question_staging st))
  end.

Definition get_answers (run_id : string) (st : Store)
    : Response (list AnswerStaging) :=
  match find_run run_id st with
  | None => HTTPException 404
  | Some run => Ok (filter (λ a, as_run_id a = run_id) (answer_staging st))
  end.

(** [get_question_tags]: the collection [question.tags], as the set of
    its [tag_id]s. *)
Definition get_question_tags (question_id : Z) (st : Store) : Response (gset Z) :=
  match find_staging_question question_id st with
  | None => HTTPException 404
  | Some question => Ok (qs_tags question)
  end.

(** ** The published view ([get_actual_questions]) *)

(** [if run_id:] on the optional query parameter: no filter for [None]
    and for the empty string. *)
Definition in_requested_run (run_id : option string) (q : Question) : Prop :=
  match run_id with
  | Some r => if decide (r = EmptyString) then True else q_run_id q = r
  | None => True
  end.

#[global] Instance in_requested_run_dec run_id q : Decision (in_requested_run run_id q).
Proof. unfold in_requested_run. destruct run_id; [case_decide|]; apply _. Defined.

(** The entries of the response, each flagged question with the first
    answer under it.  The response orders the entries by [created_at];
    here they stand in table order. *)
Definition get_actual_questions (run_id : option string) (st : Store)
    : list (Question * option Answer) :=
  (λ q, (q, snd <$> list_find (λ a, a_question_id a = q_id q) (answers st)))
    <$> filter (λ q, q_is_approved q = true ∧ in_requested_run run_id q)
          (questions st).

(** ** The generation service ([llm_service.py]) *)

(** Python's [str.isdigit] on the code points below 256: the decimal
    digits and the superscripts two, three and one. *)
Definition py_isdigit (c : ascii) : bool :=
  let n := nat_of_ascii c in
  ((48 <=? n)%nat && (n <=? 57)%nat) || (n =? 178)%nat || (n =? 179)%nat
  || (n =? 185)%nat.

(** [s.split(sep)] for a separator of one character. *)
Fixpoint split (sep : ascii) (s : string) : list string :=
  match s with
  | EmptyString => [EmptyString]
  | String c s' =>
      if Ascii.eqb c sep then EmptyString :: split sep s'
      else match split sep s' with
           | [] => [String c EmptyString]
           | piece :: pieces => String c piece :: pieces
           end
  end.

Fixpoint string_mem (c : ascii) (chars : string) : bool :=
  match chars with
  | EmptyString => false
  | String c' chars' => Ascii.eqb c c' || string_mem c chars'
  end.

(** [s.lstrip(chars)] *)
Fixpoint lstrip_chars (chars : string) (s : string) : string :=
  match s with
  | EmptyString => EmptyString
  | String c s' => if string_mem c chars then lstrip_chars chars s' else s
  end.

(** [seq[:n]] *)
Definition slice_to {A} (n : Z) (l : list A) : list A :=
  if 0 <=? n then take (Z.to_nat n) l
  else take (length l - Z.to_nat (- n)) l.

(** [line and (line[0].isdigit() or line.startswith('-'))] *)
Definition numbered (line : string) : bool :=
  match line with
  | EmptyString => false
  | String c _ => py_isdigit c || Ascii.eqb c "-"
  end.

(** One iteration of the loop over the lines of the reply. *)
Definition parse_line (line0 : string) : option string :=
  let line := strip line0 in
  if numbered line then
    let question := strip (lstrip_chars "0123456789.- " line) in
    if decide (question = EmptyString) then None else Some question
  else None.

(** What [LLMService.generate_questions] makes of the reply
    [response.choices[0].message.content]. *)
Definition parse_questions (content : string) (num_questions : Z) : list string :=
  let questions_text := strip content in
  let lines := split "010" questions_text in
  let questions := omap parse_line lines in
  let questions :=
    match questions with
    | [] => filter (λ q, q ≠ EmptyString) (strip <$> lines)
    | _ => questions
    end in
  slice_to num_questions questions.

(** The service over a chat model: [chat_questions summary n] and
    [chat_answer question summary] are the contents of the replies to
    the two prompts, [None] when the call raises. *)
Definition chat_service (chat_questions : string → Z → option string)
    (chat_answer : string → string → option string) : LLMService :=
  mkLLMService
    (λ summary num_questions,
       content ← chat_questions summary num_questions;
       Some (parse_questions content num_questions))
    (λ question summary, strip <$> chat_answer question summary).

(** ** Representation invariants *)

(** The primary-key constraint of a table whose rowids the store
    allocated: keys are distinct and positive. *)
Definition pk_ok (ids : list Z) : Prop :=
  NoDup ids ∧ Forall (λ i, 0 < i) ids.

Record store_wf (st : Store) : Prop := mk_store_wf {
  wf_question_staging : pk_ok (qs_id <$> question_staging st);
  wf_answer_staging : pk_ok (as_id <$> answer_staging st);
  wf_questions : pk_ok (q_id <$> questions st);
  wf_answers : pk_ok (a_id <$> answers st) }.

(** A published row without the time of its last write. *)
Definition q_content (q : Question) : Question :=
  mkQuestion (q_id q) (q_run_id q) (q_staging_id q) (q_question_text q)
    (q_is_approved q) 0 (q_tags q).


(** The store and the count a successful pass returns. *)
Definition synced (now : Z) (run_id : string) (st : Store) : Store :=
  (sync_to_actual now run_id None st).1.

Definition questions_synced (now : Z) (run_id : string) (st : Store) : option nat :=
  match (sync_to_actual now run_id None st).2 with
  | Ok r => Some (sr_questions_synced r)
  | HTTPException _ => None
  end.

(** ** A store for the examples *)

Definition example_llm : LLMService :=
  mkLLMService (λ _ _, Some ["q1"; "q2"; "q3"]%string)
               (λ question _, Some ("answer to " +:+ question)%string).

Definition example_store : Store :=
  mkStore [mkRun "r" "Photosynthesis" 0 None (Some 0)] [] [] [] [] [].

(** ** Closed forms of the loops of the pass *)

Definition q_key (q : Question) : Z * string * option Z :=
  (q_id q, q_run_id q, q_staging_id q).

Definition a_key (a : Answer) : Z * string * Z * option Z :=
  (a_id a, a_run_id a, a_question_id a, a_staging_id a).

(** The published question the dictionary holds for staging id [s]: the
    last row of the run with that [staging_id]. *)
Definition mapped (run_id : string) (qs : list Question) (s : Z) : option Question :=
  last (filter (λ q, q_run_id q = run_id ∧ q_staging_id q = Some s) qs).

Section closed_forms.
Context (now : Z) (run_id : string).

Definition set_from (Wq : gset Z) (sq : QuestionStaging) (q : Question) : Question :=
  mkQuestion (q_id q) (q_run_id q) (q_staging_id q) (qs_question_text sq)
    (bool_decide (qs_id sq ∈ Wq)) now (qs_tags sq).

Definition new_question (Wq : gset Z) (i : Z) (sq : QuestionStaging) : Question :=
  mkQuestion i run_id (Some (qs_id sq)) (qs_question_text sq)
    (bool_decide (qs_id sq ∈ Wq)) now (qs_tags sq).

(** The upsert loop. *)
Definition upsert_all (Wq : gset Z) (AQ : list QuestionStaging)
    (acc : gmap Z Z * list Question * nat) : gmap Z Z * list Question * nat :=
  foldl (λ acc staging_q, upsert_question now run_id Wq staging_q acc) acc AQ.

(** What the upsert loop over [AQ] makes of row [q]. *)
Fixpoint upserted (Wq : gset Z) (m : gmap Z Z) (AQ : list QuestionStaging)
    (q : Question) : Question :=
  match AQ with
  | [] => q
  | sq :: rest =>
      if decide (m !! qs_id sq = Some (q_id q)) then set_from Wq sq q
      else upserted Wq m rest q
  end.

(** The rows the upsert loop creates. *)
Fixpoint created (Wq : gset Z) (m : gmap Z Z) (ids : list Z)
    (AQ : list QuestionStaging) : list Question :=
  match AQ with
  | [] => []
  | sq :: rest =>
      match m !! qs_id sq with
      | Some _ => created Wq m ids rest
      | None =>
          let i := next_rowid ids in
          new_question Wq i sq :: created Wq m (ids ++ [i]) rest
      end
  end.

(** What one approved staging question adds to [questions_synced]. *)
Definition upsert_counts (Wq : gset Z) (m : gmap Z Z) (qs : list Question)
    (sq : QuestionStaging) : bool :=
  match m !! qs_id sq ≫= λ i, find_question i qs with
  | Some q =>
      bool_decide (q_is_approved q ≠ bool_decide (qs_id sq ∈ Wq))
      || bool_decide (q_tags q ≠ qs_tags sq)
  | None => bool_decide (qs_id sq ∈ Wq)
  end.

Definition upsert_count (Wq : gset Z) (m : gmap Z Z) (qs : list Question)
    (AQ : list QuestionStaging) : nat :=
  length (filter (λ sq, upsert_counts Wq m qs sq = true) AQ).

(** The demotion loop, row by row: a row of the run is stale when its
    [staging_id] is truthy and not the id of an approved staging
    question with an approved answer. *)
Definition stale (Aq Wq : gset Z) (q : Question) : Prop :=
  q_run_id q = run_id
  ∧ ∃ s, q_staging_id q = Some s ∧ s ≠ 0 ∧ (s ∉ Aq ∨ s ∉ Wq).

#[global] Instance stale_dec Aq Wq q : Decision (stale Aq Wq q).
Proof.
  unfold stale. destruct (q_staging_id q) as [s|].
  - destruct (decide (q_run_id q = run_id ∧ s ≠ 0 ∧ (s ∉ Aq ∨ s ∉ Wq))) as [H|H].
    + left. destruct H as (? & ? & ?). eauto.
    + right. intros (? & s' & [= <-] & ? & ?). tauto.
  - right. intros (_ & s & ? & _). done.
Defined.

Definition demoted (Aq Wq : gset Z) (q : Question) : Question :=
  (demote_question now run_id Aq Wq q 0%nat).1.

Definition demote_count (Aq Wq : gset Z) (qs : list Question) : nat :=
  length (filter (λ q, (demote_question now run_id Aq Wq q 0%nat).2 ≠ 0%nat) qs).

(** The loop over the approved staging answers.  [target sa] is the key
    of the published question the answer [sa] is published under. *)
Definition matches (i s : Z) (a : Answer) : Prop :=
  a_run_id a = run_id ∧ a_question_id a = i ∧ a_staging_id a = Some s.

Definition find_answer (i s : Z) (ans : list Answer) : option Answer :=
  snd <$> list_find (matches i s) ans.

Definition target (Aq : gset Z) (m : gmap Z Z) (qs : list Question)
    (sa : AnswerStaging) : option Z :=
  if decide (as_question_id sa ∈ Aq) then
    (m !! as_question_id sa ≫= λ i, find_question i qs)
      ≫= λ q, if truthy (Some (q_id q)) then Some (q_id q) else None
  else None.

Definition set_text (sa : AnswerStaging) (a : Answer) : Answer :=
  mkAnswer (a_id a) (a_run_id a) (a_question_id a) (a_staging_id a)
    (as_answer_text sa) now.

Definition upsert_answers (Aq : gset Z) (m : gmap Z Z) (qs : list Question)
    (AA : list AnswerStaging) (acc : list Answer * list NewAnswer)
    : list Answer * list NewAnswer :=
  foldl (λ acc staging_a, upsert_answer now run_id Aq m qs staging_a acc) acc AA.

(** The key of the existing row that staging answer [sa] rewrites. *)
Definition hit (tgt : AnswerStaging → option Z) (ans : list Answer)
    (sa : AnswerStaging) : option Z :=
  tgt sa ≫= λ i, a_id <$> find_answer i (as_id sa) ans.

Fixpoint answered (tgt : AnswerStaging → option Z) (ans0 : list Answer)
    (AA : list AnswerStaging) (a : Answer) : Answer :=
  match AA with
  | [] => a
  | sa :: rest =>
      if decide (hit tgt ans0 sa = Some (a_id a)) then set_text sa a
      else answered tgt ans0 rest a
  end.

Definition added_for (tgt : AnswerStaging → option Z) (ans0 : list Answer)
    (AA : list AnswerStaging) : list NewAnswer :=
  omap (λ sa, tgt sa ≫= λ i,
               match find_answer i (as_id sa) ans0 with
               | Some _ => None
               | None => Some (mkNewAnswer i (as_id sa) (as_answer_text sa))
               end) AA.

(** The rows the final flush inserts. *)
Fixpoint inserted (ids : list Z) (added : list NewAnswer) : list Answer :=
  match added with
  | [] => []
  | na :: rest =>
      let i := next_rowid ids in
      mkAnswer i run_id (na_question_id na) (Some (na_staging_id na))
        (na_answer_text na) now :: inserted (ids ++ [i]) rest
  end.

End closed_forms.

(** ** The pass in closed form *)

Section pass.
Context (now : Z) (run_id : string) (st : Store).

Definition upserted_questions : list Question :=
  let Wq := approved_questions_with_answers run_id st in
  let m0 := staging_to_actual_question run_id (questions st) in
  (upserted now Wq m0 (approved_questions run_id st) <$> questions st)
    ++ created now run_id Wq m0 (q_id <$> questions st) (approved_questions run_id st).

Definition synced_questions : list Question :=
  demoted now run_id (approved_staging_question_ids run_id st)
    (approved_questions_with_answers run_id st) <$> upserted_questions.

Definition pass_target : AnswerStaging → option Z :=
  target (approved_staging_question_ids run_id st)
    (staging_to_actual_question run_id upserted_questions) upserted_questions.

Definition rewritten_answers : list Answer :=
  answered now run_id pass_target (answers st) (approved_answers run_id st)
    <$> answers st.

Definition pending_answers : list NewAnswer :=
  added_for run_id pass_target (answers st) (approved_answers run_id st).

Definition kept (a : Answer) : Prop :=
  ¬ (a_run_id a = run_id
     ∧ should_delete (approved_staging_question_ids run_id st)
         (approved_staging_answer_ids run_id st) synced_questions a = true).

Definition synced_answers : list Answer :=
  filter kept
    (rewritten_answers ++ inserted now run_id (a_id <$> answers st) pending_answers).

Definition synced_count : nat :=
  (upsert_count (approved_questions_with_answers run_id st)
     (staging_to_actual_question run_id (questions st)) (questions st)
     (approved_questions run_id st)
   + demote_count now run_id (approved_staging_question_ids run_id st)
       (approved_questions_with_answers run_id st) upserted_questions)%nat.

Definition synced_store : Store :=
  mkStore
    (update_run run_id
       (λ r, mkRun (r_id r) (r_summary r) now (Some now) (r_last_staging_change_at r))
       (runs st))
    (question_staging st) (answer_staging st)
    synced_questions synced_answers (tags st).

End pass.

(** ** Published tables that agree with staging *)

Section in_sync.
Context (run_id : string) (st : Store).

(** Every approved staging question has its row, with its text, flag
    and tags, and every stale row of the run is demoted. *)
Definition questions_in_sync : Prop :=
  (∀ sq, sq ∈ approved_questions run_id st →
     ∃ q, mapped run_id (questions st) (qs_id sq) = Some q
          ∧ q_question_text q = qs_question_text sq
          ∧ q_is_approved q
            = bool_decide (qs_id sq ∈ approved_questions_with_answers run_id st)
          ∧ q_tags q = qs_tags sq)
  ∧ (∀ q, q ∈ questions st →
       stale run_id (approved_staging_question_ids run_id st)
         (approved_questions_with_answers run_id st) q →
       q_is_approved q = false).

(** Every approved staging answer with a target has its row, with its
    text, and no row of the run is due for deletion. *)
Definition answers_in_sync : Prop :=
  (∀ sa i, sa ∈ approved_answers run_id st →
     target (approved_staging_question_ids run_id st)
       (staging_to_actual_question run_id (questions st)) (questions st) sa = Some i →
     ∃ a, find_answer run_id i (as_id sa) (answers st) = Some a
          ∧ a_answer_text a = as_answer_text sa)
  ∧ (∀ a, a ∈ answers st → a_run_id a = run_id →
       should_delete (approved_staging_question_ids run_id st)
         (approved_staging_answer_ids run_id st) (questions st) a = false).

End in_sync.
(** A store in the middle of a review: question 1 approved with an
    approved answer and two tags, question 2 pending, question 3
    approved without an answer; the published tables hold an older
    state of question 1 and a row seeded from outside (no
    [staging_id]). *)
Definition example_reviewed : Store :=
  mkStore
    [mkRun "r" "Photosynthesis" 4 (Some 2) (Some 4);
     mkRun "other" "Respiration" 1 None (Some 1)]
    [mkQuestionStaging 1 "r" "q1" (Some true) 3 {[1; 2]};
     mkQuestionStaging 2 "r" "q2" None 1 ∅;
     mkQuestionStaging 3 "r" "q3" (Some true) 3 ∅]
    [mkAnswerStaging 1 "r" 1 "answer to q1" (Some true) 4]
    [mkQuestion 1 "r" (Some 1) "q1 (draft)" false 2 {[1]};
     mkQuestion 2 "r" None "seeded" true 0 ∅]
    [mkAnswer 1 "r" 2 None "seeded answer" 0]
    [mkTag 1 "a"; mkTag 2 "b"].

(** The second rule of the deletion loop, on the tables before the
    pass: the answer hangs under a published question whose
    [staging_id] is truthy and not an approved staging question. *)
Definition owner_unapproved (run_id : string) (st : Store) (a : Answer) : Prop :=
  a_question_id a ≠ 0
  ∧ ∃ q s, find_question (a_question_id a) (questions st) = Some q
           ∧ q_staging_id q = Some s ∧ s ≠ 0
           ∧ s ∉ approved_staging_question_ids run_id st.

(** A published question whose staging question was rejected, with an
    answer seeded from outside under it. *)
Definition example_orphan : Store :=
  mkStore
    [mkRun "r" "Photosynthesis" 4 (Some 2) (Some 4)]
    [mkQuestionStaging 7 "r" "q7" (Some false) 4 ∅]
    []
    [mkQuestion 1 "r" (Some 7) "q7" true 2 ∅]
    [mkAnswer 1 "r" 1 None "seeded answer" 0]
    [].

(** The loop of [generate_answers]: an approved question gets a new
    answer when none of its answers is pending or approved. *)
Definition existing_answers (st : Store) (question : QuestionStaging)
    : list AnswerStaging :=
  filter (λ a, as_question_id a = qs_id question) (answer_staging st).

Definition regenerated (st : Store) (question : QuestionStaging) : Prop :=
  Forall (λ a, as_is_approved a = Some false) (existing_answers st question).

(** The rows the commit of [generate_answers] inserts. *)
Fixpoint inserted_staging (ids : list Z) (added : list AnswerStaging)
    : list AnswerStaging :=
  match added with
  | [] => []
  | a :: rest =>
      let i := next_rowid ids in
      mkAnswerStaging i (as_run_id a) (as_question_id a) (as_answer_text a)
        (as_is_approved a) (as_updated_at a) :: inserted_staging (ids ++ [i]) rest
  end.

(** One run with a pending question, before and after generation. *)
Definition example_approved : Store :=
  mkStore
    [mkRun "r" "Photosynthesis" 2 None (Some 2)]
    [mkQuestionStaging 1 "r" "q1" (Some true) 2 ∅;
     mkQuestionStaging 2 "r" "q2" (Some true) 2 ∅]
    [mkAnswerStaging 1 "r" 1 "first try" (Some false) 2;
     mkAnswerStaging 2 "r" 2 "kept" None 2]
    [] [] [].

(** Referential integrity of the published tables: an answer belongs
    to the run of the question it hangs under. *)
Definition answers_in_run (st : Store) : Prop :=
  ∀ a q, a ∈ answers st → q ∈ questions st → a_question_id a = q_id q →
         a_run_id a = q_run_id q.

(** The end-to-end scenario: three questions generated, the first
    approved, its answer generated and approved, and a pass run. *)
Definition example_published : Store :=
  let s1 := (generate_questions 1 (Some example_llm) "r" 3 example_store).1 in
  let s2 := (update_question_approval 2 1 true s1).1 in
  let s3 := (generate_answers 3 (Some example_llm) "r" s2).1 in
  let s4 := (update_answer_approval 4 1 true s3).1 in
  (sync_to_actual 5 "r" None s4).1.

(** The reconciliation key: within a run, a [staging_id] identifies at
    most one published question. *)
Definition unique_staging_ids (run_id : string) (qs : list Question) : Prop :=
  ∀ q q', q ∈ qs → q' ∈ qs → q_run_id q = run_id → q_run_id q' = run_id →
          q_staging_id q = q_staging_id q' → q_staging_id q ≠ None →
          q_id q = q_id q'.

(** Referential integrity of the published answers: an answer hangs
    under an existing question; under a question of the run that was
    derived from staging it belongs to the run and carries the id of a
    staging answer, and when that id is the id of an approved staging
    answer, that one answers the staging question the published
    question was derived from. *)
Definition answers_linked (run_id : string) (st : Store) : Prop :=
  ∀ a, a ∈ answers st →
    ∃ q, q ∈ questions st ∧ a_question_id a = q_id q
         ∧ ∀ s, q_run_id q = run_id → q_staging_id q = Some s → s ≠ 0 →
             a_run_id a = run_id
             ∧ ∃ sid, a_staging_id a = Some sid ∧ sid ≠ 0
                      ∧ ∀ sa, sa ∈ approved_answers run_id st → as_id sa = sid →
                              as_question_id sa = s.

(** A published question seeded from outside, flagged as answered. *)
Definition example_seeded : Store :=
  mkStore
    [mkRun "r" "Photosynthesis" 0 None None]
    [] []
    [mkQuestion 1 "r" None "seeded" true 0 ∅]
    []
    [].

(** A staging answer whose rowid is used a second time: question 1 is
    published with its answer, then rejected (its staging answer 1 is
    deleted); the answer then generated for question 2 receives rowid 1
    and is approved, and question 1 is approved again. *)
Definition example_reused : Store :=
  let s1 := (update_question_approval 6 1 false example_published).1 in
  let s2 := (update_question_approval 7 2 true s1).1 in
  let s3 := (generate_answers 8 (Some example_llm) "r" s2).1 in
  let s4 := (update_answer_approval 9 1 true s3).1 in
  (update_question_approval 10 1 true s4).1.

(** The row [update_answer_approval] writes for staging answer [a]. *)
Definition set_answer_approval (now : Z) (b : bool) (a : AnswerStaging)
    : AnswerStaging :=
  mkAnswerStaging (as_id a) (as_run_id a) (as_question_id a) (as_answer_text a)
    (Some b) now.

(** What a pass adds to [questions_synced] for the approved staging
    questions other than [sq] and, in the demotion loop, for the
    published rows other than [q]. *)
Definition counted_elsewhere (now : Z) (run_id : string) (st : Store)
    (sq : QuestionStaging) (q : Question) : nat :=
  (upsert_count (approved_questions_with_answers run_id st)
     (staging_to_actual_question run_id (questions st)) (questions st)
     (filter (λ sq', qs_id sq' ≠ qs_id sq) (approved_questions run_id st))
   + demote_count now run_id (approved_staging_question_ids run_id st)
       (approved_questions_with_answers run_id st)
       (filter (λ q', q_id q' ≠ q_id q) (upserted_questions now run_id st)))%nat.

(** ** Strings as lists of characters *)

Fixpoint drop_while {A} (p : A → bool) (l : list A) : list A :=
  match l with
  | [] => []
  | x :: l' => if p x then drop_while p l' else l
  end.

(** [str.strip()] on the characters. *)
Definition trim (l : list ascii) : list ascii :=
  reverse (drop_while py_isspace (reverse (drop_while py_isspace l))).

(** No white space at either end. *)
Definition trimmed (l : list ascii) : Prop :=
  (∀ c, head l = Some c → py_isspace c = false)
  ∧ (∀ c, last l = Some c → py_isspace c = false).

Definition newline : ascii := "010"%char.

(** ["\n".join(lines)] *)
Definition join_lines (lines : list string) : string :=
  String.concat (String newline EmptyString) lines.

(** A question as the parser returns it. *)
Definition question_text_ok (q : string) : Prop :=
  q ≠ EmptyString ∧ strip q = q ∧ newline ∉ String.list_ascii_of_string q.

(** The numbering in front of a question: it starts with a digit or a
    dash and [lstrip] removes all of it. *)
Definition numbering (p : string) : Prop :=
  numbered p = true ∧ lstrip_chars "0123456789.- " p = EmptyString.

(** A question that survives the removal of its numbering. *)
Definition plain_question (q : string) : Prop :=
  question_text_ok q ∧ lstrip_chars "0123456789.- " q = q.

(** ** The rows [generate_questions] inserts *)

Fixpoint new_staging_questions (now : Z) (run_id : string) (ids : list Z)
    (texts : list string) : list QuestionStaging :=
  match texts with
  | [] => []
  | question_text :: rest =>
      let i := next_rowid ids in
      mkQuestionStaging i run_id question_text None now ∅
        :: new_staging_questions now run_id (ids ++ [i]) rest
  end.

(** A freshly generated staging question. *)
Definition pending_question (now : Z) (run_id : string) (q : QuestionStaging) : Prop :=
  qs_run_id q = run_id ∧ qs_is_approved q = None ∧ qs_tags q = ∅
  ∧ qs_updated_at q = now.

(** A chat model that answers every request with a numbered list. *)
Definition example_chat_questions (summary : string) (n : Z) : option string :=
  Some (join_lines ["Sure:"; "1. What is light?"; "2. Why is it green?";
                    "3. Who asks?"]%string).

Definition example_chat_answer (question summary : string) : option string :=
  Some ("  It depends. " +:+ String newline EmptyString)%string.

Definition example_chat : LLMService :=
  chat_service example_chat_questions example_chat_answer.

(** ** Requests *)

(** The status code of a response. *)
Definition status {A} (r : Response A) : Z :=
  match r with
  | Ok _ => 200
  | HTTPException status_code => status_code
  end.

(** The requests that write to the database, with what the
    environment decides for each: the UUID of a new run, the generation
    service, the step at which the store raises during a pass. *)
Inductive Request : Type :=
  | CreateRun (new_id summary : string)
  | GenerateQuestions (llm_service : option LLMService) (run_id : string)
      (num_questions : Z)
  | UpdateQuestionApproval (question_id : Z) (is_approved : bool)
  | GenerateAnswers (llm_service : option LLMService) (run_id : string)
  | UpdateAnswerApproval (answer_id : Z) (is_approved : bool)
  | UpdateQuestionTags (question_id : Z) (tag_names : list string)
  | SyncToActual (run_id : string) (fault : option SyncStep).

(** The store after a request served at time [now], and the status of
    the response. *)
Definition handle (now : Z) (r : Request) (st : Store) : Store * Z :=
  match r with
  | CreateRun new_id summary =>
      prod_map id status (create_run now new_id summary st)
  | GenerateQuestions llm_service run_id num_questions =>
      prod_map id status (generate_questions now llm_service run_id num_questions st)
  | UpdateQuestionApproval question_id is_approved =>
      prod_map id status (update_question_approval now question_id is_approved st)
  | GenerateAnswers llm_service run_id =>
      prod_map id status (generate_answers now llm_service run_id st)
  | UpdateAnswerApproval answer_id is_approved =>
      prod_map id status (update_answer_approval now answer_id is_approved st)
  | UpdateQuestionTags question_id tag_names =>
      prod_map id status (update_question_tags now question_id tag_names st)
  | SyncToActual run_id fault =>
      prod_map id status (sync_to_actual now run_id fault st)
  end.

(** The database [init_db] creates, and the store after a sequence of
    requests, each with its time. *)
Definition empty_store : Store := mkStore [] [] [] [] [] [].

Definition serve (st : Store) (requests : list (Z * Request)) : Store :=
  foldl (λ st '(now, r), (handle now r st).1) st requests.

(** ** Integrity of the database *)

(** Keys: the primary keys of the six tables and the unique tag name. *)
Record keys_ok (st : Store) : Prop := mk_keys_ok {
  keys_store : store_wf st;
  keys_runs : NoDup (r_id <$> runs st);
  keys_tags : pk_ok (tag_id <$> tags st);
  keys_tag_names : NoDup (tag_name <$> tags st) }.

(** References: what the foreign keys of [database.py] and the two
    [staging_id] columns point to. *)
Record references_ok (st : Store) : Prop := mk_references_ok {
  ref_question_staging :
    ∀ sq, sq ∈ question_staging st → qs_run_id sq ∈ r_id <$> runs st;
  ref_answer_staging :
    ∀ sa, sa ∈ answer_staging st →
      ∃ sq, sq ∈ question_staging st ∧ qs_id sq = as_question_id sa
            ∧ qs_run_id sq = as_run_id sa;
  ref_questions :
    ∀ q, q ∈ questions st →
      ∃ sq, sq ∈ question_staging st ∧ q_staging_id q = Some (qs_id sq)
            ∧ qs_run_id sq = q_run_id q;
  ref_answers :
    ∀ a, a ∈ answers st →
      ∃ q, q ∈ questions st ∧ q_id q = a_question_id a
           ∧ q_run_id q = a_run_id a ∧ is_Some (a_staging_id a);
  ref_staging_tags :
    ∀ sq t, sq ∈ question_staging st → t ∈ qs_tags sq → t ∈ tag_id <$> tags st;
  ref_tags :
    ∀ q t, q ∈ questions st → t ∈ q_tags q → t ∈ tag_id <$> tags st }.

(** A day of work on two runs, with a failing service in between. *)
Definition example_requests : list (Z * Request) :=
  [(1, CreateRun "r" "Photosynthesis");
   (2, GenerateQuestions (Some example_chat) "r" 3);
   (3, UpdateQuestionApproval 1 true);
   (4, UpdateQuestionTags 1 [" a "; "b"; ""]%string);
   (5, GenerateAnswers (Some example_chat) "r");
   (6, UpdateAnswerApproval 1 true);
   (7, SyncToActual "r" None);
   (8, CreateRun "s" "Respiration");
   (9, GenerateQuestions None "s" 2);
   (10, UpdateQuestionApproval 2 true);
   (11, SyncToActual "r" (Some DemoteStale));
   (12, UpdateQuestionApproval 1 false);
   (13, GenerateAnswers (Some example_chat) "r");
   (14, SyncToActual "r" None)].

(** Every request but the pass. *)
Definition is_sync (r : Request) : bool :=
  match r with
  | SyncToActual _ _ => true
  | _ => false
  end.

(** The reconciliation key in every run. *)
Definition staging_ids_unique (st : Store) : Prop :=
  ∀ run_id, unique_staging_ids run_id (questions st).

(** A staging question has at most one published question in a run. *)
Definition one_question_per_staging_id (st : Store) : Prop :=
  ∀ q q', q ∈ questions st → q' ∈ questions st →
          q_run_id q = q_run_id q' → q_staging_id q = q_staging_id q' → q = q'.

(** The id under which the final tag table holds a requested name;
    blank names are skipped. *)
Definition resolved_tag (ts : list Tag) (tag_name0 : string) : option Z :=
  if decide (strip tag_name0 = EmptyString) then None
  else tag_id <$> find_tag (strip tag_name0) ts.

(** ** Answer generation *)

(** An answer the loop of [generate_answers] adds for a question. *)
Definition answer_for (now : Z) (llm : LLMService) (run : Run)
    (question : QuestionStaging) (a : AnswerStaging) : Prop :=
  as_run_id a = r_id run ∧ as_question_id a = qs_id question
  ∧ as_is_approved a = None ∧ as_updated_at a = now
  ∧ llm_generate_answer llm (qs_question_text question) (r_summary run)
    = Some (as_answer_text a).


(** ** Two reviews *)

(** A question approved and published without an answer, then tagged. *)
Definition example_retag_requests : list (Z * Request) :=
  [(1, CreateRun "r" "Photosynthesis");
   (2, GenerateQuestions (Some example_chat) "r" 3);
   (3, UpdateQuestionApproval 1 true);
   (4, SyncToActual "r" None);
   (5, UpdateQuestionTags 1 ["a"]%string)].

(** A staging answer whose rowid is given out a second time: question
    1 is published with its answer and then rejected, which deletes
    staging answer 1; the answer then generated for question 2 receives
    rowid 1 and is approved, and question 1 is approved again. *)
Definition example_reuse_requests : list (Z * Request) :=
  [(1, CreateRun "r" "Photosynthesis");
   (2, GenerateQuestions (Some example_chat) "r" 3);
   (3, UpdateQuestionApproval 1 true);
   (4, GenerateAnswers (Some example_chat) "r");
   (5, UpdateAnswerApproval 1 true);
   (6, SyncToActual "r" None);
   (7, UpdateQuestionApproval 1 false);
   (8, UpdateQuestionApproval 2 true);
   (9, GenerateAnswers (Some example_chat) "r");
   (10, UpdateAnswerApproval 1 true);
   (11, UpdateQuestionApproval 1 true)].

(** * Properties *)

(** ** The endpoint and its transaction *)

Lemma attempt_None s : attempt None s = Some ().
Proof. done. Qed.

Lemma sync_pass_fault now run_id s st : sync_pass now run_id (Some s) st = None.
Proof.
  unfold sync_pass.
  destruct s; cbn;
    repeat (match goal with
            | |- context [let '(_, _) := ?x in _] => destruct x
            end; cbn); done.
Qed.

Lemma sync_pass_total now run_id st : is_Some (sync_pass now run_id None st).
Proof.
  unfold sync_pass. cbn.
  repeat (match goal with
          | |- context [let '(_, _) := ?x in _] => destruct x
          end; cbn).
  eauto.
Qed.

(** C9. Sync error handling: an unknown run id is answered 404 with the
    store untouched; a store exception in any step of the pass is
    answered 500 with the store as it was before the request; and every
    failed request, whatever its cause, leaves the whole store as it
    was, so no published row changes and [last_sync_at] stays. *)
Theorem sync_error_handling now run_id st :
  (find_run run_id st = None →
     ∀ fault, sync_to_actual now run_id fault st = (st, HTTPException 404))
  ∧ (∀ run s, find_run run_id st = Some run →
       sync_to_actual now run_id (Some s) st = (st, HTTPException 500))
  ∧ (∀ fault code,
       (sync_to_actual now run_id fault st).2 = HTTPException code →
       (sync_to_actual now run_id fault st).1 = st).
Proof.
  unfold sync_to_actual. split_and!.
  - intros -> fault. done.
  - intros run s ->. by rewrite sync_pass_fault.
  - intros fault code. destruct (find_run run_id st); [|done].
    destruct (sync_pass now run_id fault st) as [[st' n]|]; [|done].
    cbn. discriminate.
Qed.

Lemma sync_error_handling_witness :
  sync_to_actual 5 "nobody" None example_reviewed
  = (example_reviewed, HTTPException 404)
  ∧ sync_to_actual 5 "r" (Some UpsertAnswers) example_reviewed
    = (example_reviewed, HTTPException 500)
  ∧ (sync_to_actual 5 "r" (Some Commit) example_reviewed).1 = example_reviewed.
Proof.
  split_and!.
  - apply (proj1 (sync_error_handling 5 "nobody" example_reviewed)). reflexivity.
  - apply (proj1 (proj2 (sync_error_handling 5 "r" example_reviewed))
             (mkRun "r" "Photosynthesis" 4 (Some 2) (Some 4)) UpsertAnswers).
    reflexivity.
  - apply (proj2 (proj2 (sync_error_handling 5 "r" example_reviewed))
             (Some Commit) 500).
    reflexivity.
Defined.

(** ** Rowids and lookups by primary key *)

Lemma foldl_max_le (i : Z) (rest : list Z) :
  i ≤ foldl Z.max i rest ∧ ∀ x, x ∈ rest → x ≤ foldl Z.max i rest.
Proof.
  revert i. induction rest as [|y rest IH]; intros i; cbn.
  - split; [lia|]. intros x Hx. by apply elem_of_nil in Hx.
  - destruct (IH (Z.max i y)) as [H1 H2]. split; [lia|].
    intros x [->|Hx]%elem_of_cons; [lia|]. by apply H2.
Qed.

Lemma next_rowid_gt (ids : list Z) (x : Z) : x ∈ ids → x < next_rowid ids.
Proof.
  destruct ids as [|i rest]; [by intros ?%elem_of_nil|].
  cbn. destruct (foldl_max_le i rest) as [H1 H2].
  intros [->|Hx]%elem_of_cons; [lia|]. specialize (H2 _ Hx). lia.
Qed.

Lemma next_rowid_fresh (ids : list Z) : next_rowid ids ∉ ids.
Proof. intros H%next_rowid_gt. lia. Qed.

Lemma next_rowid_pos (ids : list Z) : Forall (λ i, 0 < i) ids → 0 < next_rowid ids.
Proof.
  destruct ids as [|i rest]; [done|].
  intros [Hi _]%Forall_cons. cbn. destruct (foldl_max_le i rest). lia.
Qed.

Lemma pk_ok_snoc (ids : list Z) :
  pk_ok ids → pk_ok (ids ++ [next_rowid ids]).
Proof.
  intros [Hnd Hpos]. split.
  - apply NoDup_app. split_and!; [done| |apply NoDup_singleton].
    intros x Hx ->%list_elem_of_singleton. by apply (next_rowid_fresh ids).
  - apply Forall_app. split; [done|]. apply Forall_singleton.
    by apply next_rowid_pos.
Qed.

Lemma find_question_cons i q qs :
  find_question i (q :: qs)
  = if decide (q_id q = i) then Some q else find_question i qs.
Proof.
  unfold find_question. cbn. case_decide; [done|].
  by destruct (list_find _ qs) as [[]|].
Qed.

Lemma find_question_Some i qs q :
  find_question i qs = Some q → q ∈ qs ∧ q_id q = i.
Proof.
  induction qs as [|q' qs IH]; [done|].
  rewrite find_question_cons. case_decide.
  - intros [= ->]. split; [apply elem_of_cons; by left|done].
  - intros [? ?]%IH. split; [apply elem_of_cons; by right|done].
Qed.

Lemma find_question_None i qs :
  find_question i qs = None ↔ i ∉ q_id <$> qs.
Proof.
  induction qs as [|q' qs IH].
  - split; [|done]. intros _ H. by apply elem_of_nil in H.
  - rewrite find_question_cons, fmap_cons, not_elem_of_cons. case_decide.
    + split; [done|]. intros [? _]. congruence.
    + rewrite IH. split; [intros ?; split; congruence|by intros [_ ?]].
Qed.

Lemma find_question_elem qs q :
  NoDup (q_id <$> qs) → q ∈ qs → find_question (q_id q) qs = Some q.
Proof.
  induction qs as [|q' qs IH]; [by intros _ ?%elem_of_nil|].
  rewrite fmap_cons, NoDup_cons, find_question_cons.
  intros [Hni Hnd] [->|Hin]%elem_of_cons.
  - by rewrite decide_True.
  - rewrite decide_False; [by apply IH|].
    intros Heq. apply Hni. rewrite Heq. by apply list_elem_of_fmap_2.
Qed.

Lemma find_question_app i qs1 qs2 :
  find_question i (qs1 ++ qs2)
  = match find_question i qs1 with
    | Some q => Some q
    | None => find_question i qs2
    end.
Proof.
  induction qs1 as [|q qs1 IH]; [done|].
  rewrite <- app_comm_cons, !find_question_cons. by case_decide.
Qed.

Lemma find_question_fmap (f : Question → Question) i qs :
  (∀ q, q_id (f q) = q_id q) →
  find_question i (f <$> qs) = f <$> find_question i qs.
Proof.
  intros Hf. induction qs as [|q qs IH]; [done|].
  rewrite fmap_cons, !find_question_cons, Hf. by case_decide.
Qed.

Lemma update_question_ids i f qs :
  (∀ q, q_id (f q) = q_id q) →
  q_id <$> update_question i f qs = q_id <$> qs.
Proof.
  intros Hf. unfold update_question. rewrite <- list_fmap_compose.
  apply list_fmap_ext. intros _ q _. cbn. by case_decide.
Qed.

Lemma find_question_update i j f qs :
  (∀ q, q_id (f q) = q_id q) →
  find_question j (update_question i f qs)
  = (if decide (j = i) then f else id) <$> find_question j qs.
Proof.
  intros Hf. induction qs as [|q qs IH]; [by case_decide|].
  unfold update_question in *. rewrite fmap_cons, !find_question_cons.
  destruct (decide (q_id q = i)) as [Hi|Hi].
  - rewrite Hf. destruct (decide (q_id q = j)) as [Hj|Hj]; [|done].
    cbn. rewrite decide_True by congruence. done.
  - destruct (decide (q_id q = j)) as [Hj|Hj]; [|done].
    cbn. rewrite decide_False by congruence. done.
Qed.

Lemma filter_ext_in {A} (P1 P2 : A → Prop)
    `{!∀ x, Decision (P1 x), !∀ x, Decision (P2 x)} (l : list A) :
  (∀ x, x ∈ l → P1 x ↔ P2 x) → filter P1 l = filter P2 l.
Proof.
  induction l as [|a l IH]; intros Hiff; [done|].
  rewrite !filter_cons.
  assert (filter P1 l = filter P2 l) as ->.
  { apply IH. intros x Hx. apply Hiff, elem_of_cons. by right. }
  assert (P1 a ↔ P2 a) as Ha by (apply Hiff, elem_of_cons; by left).
  destruct (decide (P1 a)), (decide (P2 a)); tauto.
Qed.

(** ** The dictionary from staging ids to published questions *)

Section questions.
Context (now : Z) (run_id : string).

Abbreviation stq := (staging_to_actual_question run_id).

Lemma staging_map_lookup_aux (l : list Question) (m : gmap Z Z) (s : Z) :
  foldl (λ m aq, match q_staging_id aq with
                 | Some s => <[s := q_id aq]> m
                 | None => m
                 end)
        m (filter (λ aq, q_run_id aq = run_id ∧ q_staging_id aq ≠ None) l) !! s
  = match mapped run_id l s with
    | Some q => Some (q_id q)
    | None => m !! s
    end.
Proof.
  unfold mapped. revert m. induction l as [|q l IH]; intros m; [done|].
  rewrite !filter_cons.
  destruct (decide (q_run_id q = run_id ∧ q_staging_id q ≠ None)) as [[Hr Hs]|Hn].
  - destruct (q_staging_id q) as [s'|] eqn:Hq; [|done]. cbn. rewrite Hq, IH.
    destruct (decide (q_run_id q = run_id ∧ Some s' = Some s)) as [[_ [= ->]]|Hne].
    + rewrite last_cons. destruct (last _); [done|]. by rewrite lookup_insert_eq.
    + destruct (last _); [done|]. rewrite lookup_insert_ne; [done|].
      intros ->. by apply Hne.
  - rewrite IH. rewrite decide_False; [done|].
    intros [Hr Hs]. apply Hn. split; [done|]. by rewrite Hs.
Qed.

Lemma staging_map_lookup (qs : list Question) (s : Z) :
  stq qs !! s = q_id <$> mapped run_id qs s.
Proof.
  unfold staging_to_actual_question. rewrite staging_map_lookup_aux.
  by destruct (mapped run_id qs s).
Qed.

Lemma mapped_Some qs s q :
  mapped run_id qs s = Some q →
  q ∈ qs ∧ q_run_id q = run_id ∧ q_staging_id q = Some s.
Proof.
  unfold mapped. intros H%last_Some_elem_of.
  apply list_elem_of_filter in H as [[? ?] ?]. done.
Qed.

Lemma mapped_None qs s :
  mapped run_id qs s = None ↔
  ∀ q, q ∈ qs → q_run_id q = run_id → q_staging_id q ≠ Some s.
Proof.
  unfold mapped. rewrite last_None. split.
  - intros Hnil q Hq Hr Hs.
    assert (q ∈ filter (λ q, q_run_id q = run_id ∧ q_staging_id q = Some s) qs) as Hin
      by (apply list_elem_of_filter; done).
    rewrite Hnil in Hin. by apply elem_of_nil in Hin.
  - intros Hall. apply elem_of_nil_inv. intros q [[? ?] ?]%list_elem_of_filter.
    by eapply Hall.
Qed.

Lemma mapped_ext qs qs' s :
  q_key <$> qs = q_key <$> qs' →
  q_id <$> mapped run_id qs s = q_id <$> mapped run_id qs' s.
Proof.
  unfold mapped. revert qs'. induction qs as [|q qs IH]; intros [|q' qs'] Hk;
    try done.
  rewrite !fmap_cons in Hk. injection Hk as Hi Hr Hs Hk. specialize (IH _ Hk).
  rewrite !filter_cons, Hr, Hs.
  case_decide; [|done]. rewrite !last_cons.
  destruct (last (filter _ qs)), (last (filter _ qs')); cbn in *; congruence.
Qed.

Lemma stq_ext qs qs' : q_key <$> qs = q_key <$> qs' → stq qs = stq qs'.
Proof.
  intros Hk. apply map_eq. intros s. rewrite !staging_map_lookup.
  by apply mapped_ext.
Qed.

Lemma stq_snoc qs q s :
  q_run_id q = run_id → q_staging_id q = Some s →
  stq (qs ++ [q]) = <[s := q_id q]> (stq qs).
Proof.
  intros Hr Hs. unfold staging_to_actual_question.
  rewrite filter_app, foldl_app. rewrite filter_cons, decide_True.
  - cbn. by rewrite Hs.
  - split; [done|]. by rewrite Hs.
Qed.

(** The dictionary points at rows of the run carrying the key. *)
Lemma stq_Some qs s i :
  stq qs !! s = Some i →
  ∃ q, q ∈ qs ∧ q_id q = i ∧ q_run_id q = run_id ∧ q_staging_id q = Some s.
Proof.
  rewrite staging_map_lookup. destruct (mapped run_id qs s) as [q|] eqn:Hm; [|done].
  intros [= <-]. apply mapped_Some in Hm as (? & ? & ?). eauto 6.
Qed.

Lemma stq_find qs s :
  NoDup (q_id <$> qs) →
  stq qs !! s ≫= (λ i, find_question i qs) = mapped run_id qs s.
Proof.
  intros Hnd. rewrite staging_map_lookup.
  destruct (mapped run_id qs s) as [q|] eqn:Hm; [|done]. cbn.
  apply find_question_elem; [done|]. by apply mapped_Some in Hm as [? _].
Qed.

Lemma stq_inj qs s s' i :
  NoDup (q_id <$> qs) →
  stq qs !! s = Some i → stq qs !! s' = Some i → s = s'.
Proof.
  intros Hnd (q & Hq & Hi & _ & Hs)%stq_Some (q' & Hq' & Hi' & _ & Hs')%stq_Some.
  assert (q = q') as ->; [|congruence].
  apply (find_question_elem _ _ Hnd) in Hq, Hq'. congruence.
Qed.

Lemma update_question_keys i f qs :
  (∀ q, q_key (f q) = q_key q) →
  q_key <$> update_question i f qs = q_key <$> qs.
Proof.
  intros Hf. unfold update_question. rewrite <- list_fmap_compose.
  apply list_fmap_ext. intros _ q _. cbn. by case_decide.
Qed.

(** *** The upsert loop over the approved staging questions *)

Lemma set_from_key Wq sq q : q_key (set_from now Wq sq q) = q_key q.
Proof. done. Qed.

Lemma upserted_key Wq m AQ q : q_key (upserted now Wq m AQ q) = q_key q.
Proof. induction AQ as [|sq AQ IH]; cbn; [done|]. by case_decide. Qed.

Lemma upserted_id Wq m AQ q : q_id (upserted now Wq m AQ q) = q_id q.
Proof. by injection (upserted_key Wq m AQ q). Qed.

Lemma upsert_question_existing Wq sq m qs n q :
  m !! qs_id sq ≫= (λ i, find_question i qs) = Some q →
  upsert_question now run_id Wq sq (m, qs, n)
  = (m, update_question (q_id q) (set_from now Wq sq) qs,
     if upsert_counts Wq m qs sq then S n else n).
Proof. intros H. unfold upsert_question, upsert_counts. by rewrite H. Qed.

Lemma upsert_question_new Wq sq m qs n :
  m !! qs_id sq ≫= (λ i, find_question i qs) = None →
  upsert_question now run_id Wq sq (m, qs, n)
  = (<[qs_id sq := next_rowid (q_id <$> qs)]> m,
     qs ++ [new_question now run_id Wq (next_rowid (q_id <$> qs)) sq],
     if upsert_counts Wq m qs sq then S n else n).
Proof. intros H. unfold upsert_question, upsert_counts. by rewrite H. Qed.

(** The dictionary stays the index of the table. *)
Lemma upsert_question_stq Wq sq qs n :
  (upsert_question now run_id Wq sq (stq qs, qs, n)).1.1
  = stq (upsert_question now run_id Wq sq (stq qs, qs, n)).1.2.
Proof.
  destruct (stq qs !! qs_id sq ≫= (λ i, find_question i qs)) as [q|] eqn:H.
  - rewrite (upsert_question_existing _ _ _ _ _ _ H). cbn.
    symmetry. apply stq_ext. by apply update_question_keys.
  - rewrite (upsert_question_new _ _ _ _ _ H). cbn.
    symmetry. by apply stq_snoc.
Qed.

Lemma upsert_all_cons Wq sq AQ acc :
  upsert_all now run_id Wq (sq :: AQ) acc
  = upsert_all now run_id Wq AQ (upsert_question now run_id Wq sq acc).
Proof. done. Qed.

Lemma upsert_all_stq Wq AQ qs n :
  (upsert_all now run_id Wq AQ (stq qs, qs, n)).1.1 = stq (upsert_all now run_id Wq AQ (stq qs, qs, n)).1.2.
Proof.
  revert qs n. induction AQ as [|sq AQ IH]; intros qs n; [done|].
  rewrite upsert_all_cons.
  pose proof (upsert_question_stq Wq sq qs n) as Hs.
  destruct (upsert_question now run_id Wq sq (stq qs, qs, n)) as [[m' qs'] n'].
  cbn in Hs. subst m'. apply IH.
Qed.

Lemma upserted_ext Wq m m' AQ q :
  (∀ sq, sq ∈ AQ → m !! qs_id sq = m' !! qs_id sq) →
  upserted now Wq m AQ q = upserted now Wq m' AQ q.
Proof.
  induction AQ as [|sq AQ IH]; intros Hm; [done|]. cbn.
  rewrite <- (Hm sq) by (apply elem_of_cons; by left).
  rewrite IH; [done|]. intros sq' Hsq'. apply Hm, elem_of_cons. by right.
Qed.

Lemma upserted_not_hit Wq m AQ q :
  (∀ sq, sq ∈ AQ → m !! qs_id sq ≠ Some (q_id q)) →
  upserted now Wq m AQ q = q.
Proof.
  induction AQ as [|sq AQ IH]; intros Hm; [done|]. cbn.
  rewrite decide_False by (apply Hm, elem_of_cons; by left).
  apply IH. intros sq' Hsq'. apply Hm, elem_of_cons. by right.
Qed.

Lemma created_ext Wq m m' ids AQ :
  (∀ sq, sq ∈ AQ → m !! qs_id sq = m' !! qs_id sq) →
  created now run_id Wq m ids AQ = created now run_id Wq m' ids AQ.
Proof.
  revert ids. induction AQ as [|sq AQ IH]; intros ids Hm; [done|]. cbn.
  rewrite <- (Hm sq) by (apply elem_of_cons; by left).
  assert (∀ ids, created now run_id Wq m ids AQ = created now run_id Wq m' ids AQ)
    as IH'.
  { intros ids'. apply IH. intros sq' Hsq'. apply Hm, elem_of_cons. by right. }
  destruct (m !! qs_id sq); by rewrite IH'.
Qed.

Lemma upsert_count_ext Wq m m' qs qs' AQ :
  (∀ sq, sq ∈ AQ →
     m !! qs_id sq ≫= (λ i, find_question i qs)
     = m' !! qs_id sq ≫= (λ i, find_question i qs')) →
  upsert_count Wq m qs AQ = upsert_count Wq m' qs' AQ.
Proof.
  intros H. unfold upsert_count. f_equal. apply filter_ext_in.
  intros sq Hsq. unfold upsert_counts. by rewrite (H sq Hsq).
Qed.

Lemma NoDup_staging_ids_cons sq (AQ : list QuestionStaging) :
  NoDup (qs_id <$> sq :: AQ) →
  (∀ sq', sq' ∈ AQ → qs_id sq' ≠ qs_id sq) ∧ NoDup (qs_id <$> AQ).
Proof.
  rewrite fmap_cons, NoDup_cons. intros [Hni Hnd]. split; [|done].
  intros sq' Hsq' Heq. apply Hni. rewrite <- Heq. by apply list_elem_of_fmap_2.
Qed.

(** The loop in closed form: every row of the table is rewritten by
    the approved staging question the dictionary maps to it, rows are
    created for the staging questions the dictionary misses, and each
    staging question counts once. *)
Lemma upsert_all_closed Wq AQ m qs n :
  m = stq qs → NoDup (qs_id <$> AQ) → NoDup (q_id <$> qs) →
  (upsert_all now run_id Wq AQ (m, qs, n)).1.2
  = (upserted now Wq m AQ <$> qs) ++ created now run_id Wq m (q_id <$> qs) AQ
  ∧ (upsert_all now run_id Wq AQ (m, qs, n)).2
    = (n + upsert_count Wq m qs AQ)%nat.
Proof.
  revert m qs n. induction AQ as [|sq AQ IH]; intros m qs n Hm HAQ Hqs.
  { cbn. rewrite list_fmap_id, app_nil_r. unfold upsert_count. cbn. split; [done|lia]. }
  apply NoDup_staging_ids_cons in HAQ as [Hsq HAQ].
  rewrite upsert_all_cons.
  assert (∀ s s' i, m !! s = Some i → m !! s' = Some i → s = s') as Hinj.
  { subst m. intros s s' i. by apply stq_inj. }
  assert (∀ s i, m !! s = Some i → ∃ q, q ∈ qs ∧ q_id q = i) as Hval.
  { subst m. intros s i (q & ? & ? & _)%stq_Some. eauto. }
  pose proof (upsert_question_stq Wq sq qs n) as Hstq. rewrite <- Hm in Hstq.
  destruct (m !! qs_id sq ≫= (λ i, find_question i qs)) as [q0|] eqn:H.
  - (* the dictionary has a row for [sq] *)
    rewrite (upsert_question_existing _ _ _ _ _ _ H) in Hstq |- *. cbn in Hstq.
    destruct (m !! qs_id sq) as [i|] eqn:Hi; [|done]. cbn in H.
    apply find_question_Some in H as [Hq0 <-].
    set (qs' := update_question (q_id q0) (set_from now Wq sq) qs) in *.
    assert (q_id <$> qs' = q_id <$> qs) as Hids
      by (by apply update_question_ids).
    destruct (IH m qs' (if upsert_counts Wq m qs sq then S n else n) Hstq HAQ)
      as [IH1 IH2]; [by rewrite Hids|].
    rewrite IH1, IH2, Hids.
    assert (∀ sq', sq' ∈ AQ → m !! qs_id sq' ≠ Some (q_id q0)) as Hother.
    { intros sq' Hsq' Hl. apply (Hsq sq' Hsq'). by apply (Hinj _ _ (q_id q0)). }
    split.
    + cbn. rewrite Hi. f_equal. unfold qs', update_question.
      rewrite <- list_fmap_compose. apply list_fmap_ext. intros _ q _. cbn.
      destruct (decide (q_id q = q_id q0)) as [Heq|Hne].
      * rewrite decide_True by congruence.
        apply upserted_not_hit. intros sq' Hsq'. cbn. rewrite Heq. by apply Hother.
      * rewrite decide_False by congruence. done.
    + rewrite (upsert_count_ext Wq m m qs' qs AQ).
      * unfold upsert_count. rewrite filter_cons.
        destruct (upsert_counts Wq m qs sq) eqn:Hc.
        -- rewrite decide_True by done. cbn. lia.
        -- rewrite decide_False by done. lia.
      * intros sq' Hsq'. destruct (m !! qs_id sq') as [j|] eqn:Hj; [|done].
        cbn. unfold qs'. rewrite find_question_update by done.
        rewrite decide_False; [by destruct (find_question j qs)|].
        intros ->. by apply (Hother sq' Hsq').
  - (* a row is created for [sq] *)
    rewrite (upsert_question_new _ _ _ _ _ H) in Hstq |- *. cbn in Hstq.
    assert (m !! qs_id sq = None) as Hi.
    { destruct (m !! qs_id sq) as [j|] eqn:Hj; [|done]. cbn in H.
      destruct (Hval _ _ Hj) as (q & Hq & <-).
      by rewrite (find_question_elem _ _ Hqs Hq) in H. }
    set (i := next_rowid (q_id <$> qs)) in *.
    set (nq := new_question now run_id Wq i sq) in *.
    assert (NoDup (q_id <$> qs ++ [nq])) as Hnd'.
    { rewrite fmap_app. apply NoDup_app. split_and!; [done| |apply NoDup_singleton].
      intros x Hx ->%list_elem_of_singleton. by apply (next_rowid_fresh (q_id <$> qs)). }
    destruct (IH _ (qs ++ [nq]) (if upsert_counts Wq m qs sq then S n else n)
                Hstq HAQ Hnd') as [IH1 IH2].
    rewrite IH1, IH2.
    assert (∀ sq', sq' ∈ AQ →
              m !! qs_id sq' = <[qs_id sq := i]> m !! qs_id sq') as Hsame.
    { intros sq' Hsq'. rewrite lookup_insert_ne; [done|]. intros Heq.
      by apply (Hsq sq' Hsq'). }
    split.
    + cbn. rewrite Hi. rewrite fmap_app, <- app_assoc. cbn. f_equal; [|f_equal].
      * apply list_fmap_ext. intros _ q _. rewrite decide_False by done.
        symmetry. by apply upserted_ext.
      * apply upserted_not_hit. intros sq' Hsq'. rewrite <- Hsame by done.
        intros (q & Hq & Hqi)%Hval. change (q_id q = i) in Hqi.
        apply (next_rowid_fresh (q_id <$> qs)). fold i.
        rewrite <- Hqi. by apply list_elem_of_fmap_2.
      * rewrite fmap_app. symmetry. by apply created_ext.
    + rewrite (upsert_count_ext Wq _ m (qs ++ [nq]) qs AQ).
      * unfold upsert_count. rewrite filter_cons.
        destruct (upsert_counts Wq m qs sq) eqn:Hc.
        -- rewrite decide_True by done. cbn. lia.
        -- rewrite decide_False by done. lia.
      * intros sq' Hsq'. rewrite <- Hsame by done.
        destruct (m !! qs_id sq') as [j|] eqn:Hj; [|done]. cbn.
        rewrite find_question_app.
        apply Hval in Hj as (q & Hq & <-).
        by rewrite (find_question_elem _ _ Hqs Hq).
Qed.

End questions.

(** ** The demotion loop *)

Section demote.
Context (now : Z) (run_id : string).

Lemma truthy_Some s : truthy (Some s) = true ↔ s ≠ 0.
Proof. cbn. rewrite negb_true_iff, Z.eqb_neq. done. Qed.

Lemma demote_question_stale Aq Wq q n :
  stale run_id Aq Wq q →
  demote_question now run_id Aq Wq q n
  = (mkQuestion (q_id q) (q_run_id q) (q_staging_id q) (q_question_text q)
       false now (q_tags q),
     if q_is_approved q then S n else n).
Proof.
  intros (Hr & s & Hs & Hs0 & Hor). unfold demote_question.
  rewrite decide_True by done. rewrite Hs.
  rewrite (proj2 (truthy_Some s) Hs0).
  destruct (decide (s ∉ Aq)); [done|]. rewrite decide_True; [done|tauto].
Qed.

Lemma demote_question_fresh Aq Wq q n :
  ¬ stale run_id Aq Wq q → demote_question now run_id Aq Wq q n = (q, n).
Proof.
  intros Hn. unfold demote_question.
  destruct (decide (q_run_id q = run_id)) as [Hr|]; [|done].
  destruct (q_staging_id q) as [s|] eqn:Hs; [|done].
  destruct (truthy (Some s)) eqn:Ht; [|done].
  apply truthy_Some in Ht.
  destruct (decide (s ∉ Aq)) as [H1|H1].
  { exfalso. apply Hn. split; [done|]. exists s. auto. }
  destruct (decide (s ∉ Wq)) as [H2|H2]; [|done].
  exfalso. apply Hn. split; [done|]. exists s. auto.
Qed.

Lemma demoted_key Aq Wq q : q_key (demoted now run_id Aq Wq q) = q_key q.
Proof.
  unfold demoted. destruct (decide (stale run_id Aq Wq q)).
  - by rewrite demote_question_stale.
  - by rewrite demote_question_fresh.
Qed.

Lemma demote_stale_closed Aq Wq qs n :
  demote_stale now run_id Aq Wq qs n
  = (demoted now run_id Aq Wq <$> qs, (n + demote_count now run_id Aq Wq qs)%nat).
Proof.
  revert n. induction qs as [|q qs IH]; intros n.
  { cbn. f_equal. unfold demote_count. cbn. lia. }
  cbn [demote_stale]. unfold demote_count, demoted in *. rewrite fmap_cons, filter_cons.
  destruct (decide (stale run_id Aq Wq q)) as [Hs|Hs].
  - rewrite !demote_question_stale by done. rewrite IH. cbn.
    destruct (q_is_approved q).
    + rewrite decide_True by done. cbn. f_equal. lia.
    + rewrite decide_False by (intros H; by apply H). f_equal.
  - rewrite !demote_question_fresh by done. rewrite IH. cbn.
    rewrite decide_False by (intros H; by apply H). done.
Qed.

End demote.

(** ** The loop over the approved staging answers *)

Section answers.
Context (now : Z) (run_id : string).

Lemma find_answer_cons i s a ans :
  find_answer run_id i s (a :: ans)
  = if decide (matches run_id i s a) then Some a else find_answer run_id i s ans.
Proof.
  unfold find_answer. cbn. case_decide; [done|].
  by destruct (list_find _ ans) as [[]|].
Qed.

Lemma find_answer_Some i s ans a :
  find_answer run_id i s ans = Some a → a ∈ ans ∧ matches run_id i s a.
Proof.
  induction ans as [|a' ans IH]; [done|].
  rewrite find_answer_cons. case_decide.
  - intros [= ->]. split; [apply elem_of_cons; by left|done].
  - intros [? ?]%IH. split; [apply elem_of_cons; by right|done].
Qed.

Lemma find_answer_None i s ans :
  find_answer run_id i s ans = None ↔ ∀ a, a ∈ ans → ¬ matches run_id i s a.
Proof.
  induction ans as [|a' ans IH].
  - split; [|done]. by intros _ a ?%elem_of_nil.
  - rewrite find_answer_cons. case_decide.
    + split; [done|]. intros Hall. exfalso. eapply Hall; [|done].
      apply elem_of_cons. by left.
    + rewrite IH. split.
      * intros Hall a [->|?]%elem_of_cons; auto.
      * intros Hall a Ha. apply Hall, elem_of_cons. by right.
Qed.

Lemma find_answer_app i s ans1 ans2 :
  find_answer run_id i s (ans1 ++ ans2)
  = match find_answer run_id i s ans1 with
    | Some a => Some a
    | None => find_answer run_id i s ans2
    end.
Proof.
  induction ans1 as [|a ans1 IH]; [done|].
  rewrite <- app_comm_cons, !find_answer_cons. by case_decide.
Qed.

(** The first match is decided by the keys of the rows. *)
Lemma find_answer_keys i s ans ans' :
  a_key <$> ans = a_key <$> ans' →
  a_id <$> find_answer run_id i s ans = a_id <$> find_answer run_id i s ans'.
Proof.
  revert ans'. induction ans as [|a ans IH]; intros [|a' ans'] Hk; try done.
  rewrite !fmap_cons in Hk. injection Hk as Hi Hr Hq Hs Hk.
  rewrite !find_answer_cons. unfold matches. rewrite Hr, Hq, Hs.
  case_decide; [cbn; by f_equal|]. by apply IH.
Qed.

Lemma find_answer_fmap (f : Answer → Answer) i s ans :
  (∀ a, a_key (f a) = a_key a) →
  find_answer run_id i s (f <$> ans) = f <$> find_answer run_id i s ans.
Proof.
  intros Hf. induction ans as [|a ans IH]; [done|].
  rewrite fmap_cons, !find_answer_cons.
  assert (matches run_id i s (f a) ↔ matches run_id i s a) as Hiff.
  { unfold matches. specialize (Hf a). injection Hf as Hi Hr Hq Hs.
    by rewrite Hr, Hq, Hs. }
  destruct (decide (matches run_id i s (f a))), (decide (matches run_id i s a));
    tauto || done.
Qed.

Lemma update_answer_keys i f ans :
  (∀ a, a_key (f a) = a_key a) →
  a_key <$> update_answer i f ans = a_key <$> ans.
Proof.
  intros Hf. unfold update_answer. rewrite <- list_fmap_compose.
  apply list_fmap_ext. intros _ a _. cbn. by case_decide.
Qed.

Lemma set_text_key sa a : a_key (set_text now sa a) = a_key a.
Proof. done. Qed.

Lemma answered_key tgt ans0 AA a : a_key (answered now run_id tgt ans0 AA a) = a_key a.
Proof. induction AA as [|sa AA IH]; cbn; [done|]. by case_decide. Qed.

Lemma upsert_answer_unfold Aq m qs sa ans added :
  upsert_answer now run_id Aq m qs sa (ans, added)
  = match target Aq m qs sa with
    | Some i =>
        match find_answer run_id i (as_id sa) ans with
        | Some existing_answer =>
            (update_answer (a_id existing_answer) (set_text now sa) ans, added)
        | None =>
            (ans, added ++ [mkNewAnswer i (as_id sa) (as_answer_text sa)])
        end
    | None => (ans, added)
    end.
Proof.
  unfold upsert_answer, target, find_answer, matches.
  case_decide; [|done].
  destruct (m !! as_question_id sa ≫= _) as [q|]; [|done]. cbn.
  destruct (negb (q_id q =? 0)); [|done]. cbn.
  by destruct (list_find _ ans) as [[? ?]|].
Qed.

Lemma upsert_answers_cons Aq m qs sa AA acc :
  upsert_answers now run_id Aq m qs (sa :: AA) acc
  = upsert_answers now run_id Aq m qs AA (upsert_answer now run_id Aq m qs sa acc).
Proof. done. Qed.

Lemma hit_keys tgt ans ans' sa :
  a_key <$> ans = a_key <$> ans' → hit run_id tgt ans sa = hit run_id tgt ans' sa.
Proof.
  intros Hk. unfold hit. destruct (tgt sa) as [i|]; [|done]. cbn.
  by apply find_answer_keys.
Qed.

Lemma answered_keys tgt ans ans' AA a :
  a_key <$> ans = a_key <$> ans' →
  answered now run_id tgt ans AA a = answered now run_id tgt ans' AA a.
Proof.
  intros Hk. induction AA as [|sa AA IH]; [done|]. cbn.
  by rewrite (hit_keys tgt ans ans' sa Hk), IH.
Qed.

Lemma added_for_keys tgt ans ans' AA :
  a_key <$> ans = a_key <$> ans' →
  added_for run_id tgt ans AA = added_for run_id tgt ans' AA.
Proof.
  intros Hk. unfold added_for. induction AA as [|sa AA IH]; [done|].
  cbn. rewrite IH. destruct (tgt sa) as [i|]; [|done]. cbn.
  pose proof (find_answer_keys i (as_id sa) ans ans' Hk) as H.
  by destruct (find_answer run_id i (as_id sa) ans), (find_answer run_id i (as_id sa) ans').
Qed.

Lemma answered_not_hit tgt ans0 AA a :
  (∀ sa, sa ∈ AA → hit run_id tgt ans0 sa ≠ Some (a_id a)) →
  answered now run_id tgt ans0 AA a = a.
Proof.
  induction AA as [|sa AA IH]; intros H; [done|]. cbn.
  rewrite decide_False by (apply H, elem_of_cons; by left).
  apply IH. intros sa' Hsa'. apply H, elem_of_cons. by right.
Qed.

Lemma find_answer_elem_id ans a a' :
  NoDup (a_id <$> ans) → a ∈ ans → a' ∈ ans → a_id a = a_id a' → a = a'.
Proof.
  intros Hnd Ha Ha' Hid.
  apply list_elem_of_lookup in Ha as [i Hi], Ha' as [j Hj].
  assert (i = j) as ->; [|congruence].
  eapply NoDup_lookup; [exact Hnd| |]; rewrite list_lookup_fmap.
  - by rewrite Hi.
  - rewrite Hj. cbn. by rewrite Hid.
Qed.

(** The loop in closed form: an existing row is rewritten by the staging
    answer whose first match it is, and an answer is added for every
    staging answer with a target and no match. *)
Lemma upsert_answers_closed Aq m qs AA ans added :
  NoDup (as_id <$> AA) → NoDup (a_id <$> ans) →
  upsert_answers now run_id Aq m qs AA (ans, added)
  = (answered now run_id (target Aq m qs) ans AA <$> ans,
     added ++ added_for run_id (target Aq m qs) ans AA).
Proof.
  set (tgt := target Aq m qs).
  revert ans added. induction AA as [|sa AA IH]; intros ans added HAA Hans.
  { cbn. by rewrite list_fmap_id, app_nil_r. }
  rewrite fmap_cons, NoDup_cons in HAA. destruct HAA as [Hsa HAA].
  rewrite upsert_answers_cons, upsert_answer_unfold. fold tgt.
  unfold added_for. cbn [omap list_omap answered]. fold (added_for run_id tgt ans AA).
  destruct (tgt sa) as [i|] eqn:Ht; cbn [mbind option_bind].
  2:{ assert (hit run_id tgt ans sa = None) as Hh by (unfold hit; by rewrite Ht).
      rewrite IH by done. f_equal. apply list_fmap_ext. intros _ a _.
      rewrite decide_False; [done|]. by rewrite Hh. }
  destruct (find_answer run_id i (as_id sa) ans) as [e|] eqn:Hf.
  - assert (hit run_id tgt ans sa = Some (a_id e)) as Hh
      by (unfold hit; rewrite Ht; cbn; by rewrite Hf).
    set (ans' := update_answer (a_id e) (set_text now sa) ans).
    assert (a_key <$> ans' = a_key <$> ans) as Hk by (by apply update_answer_keys).
    assert (a_id <$> ans' = a_id <$> ans) as Hids.
    { apply (f_equal (fmap (λ k : Z * string * Z * option Z, k.1.1.1))) in Hk.
      by rewrite <- !list_fmap_compose in Hk. }
    rewrite IH by (by rewrite ?Hids).
    rewrite (added_for_keys tgt ans' ans AA Hk). f_equal.
    unfold ans', update_answer. rewrite <- list_fmap_compose.
    apply list_fmap_ext. intros _ a _. cbn.
    rewrite (answered_keys tgt _ ans AA _ Hk).
    destruct (decide (a_id a = a_id e)) as [Heq|Hne].
    + rewrite decide_True by (rewrite Hh; congruence).
      apply answered_not_hit. intros sa' Hsa' Hhit. cbn in Hhit.
      unfold hit in Hhit. destruct (tgt sa') as [i'|]; [|done]. cbn in Hhit.
      destruct (find_answer run_id i' (as_id sa') ans) as [e'|] eqn:Hf'; [|done].
      cbn in Hhit. injection Hhit as Hid.
      apply find_answer_Some in Hf as [He (_ & _ & Hs)].
      apply find_answer_Some in Hf' as [He' (_ & _ & Hs')].
      assert (e' = e) as -> by (apply (find_answer_elem_id ans); congruence).
      apply Hsa. rewrite Hs in Hs'. injection Hs' as ->.
      by apply list_elem_of_fmap_2.
    + rewrite decide_False; [done|]. rewrite Hh. congruence.
  - assert (hit run_id tgt ans sa = None) as Hh
      by (unfold hit; rewrite Ht; cbn; by rewrite Hf).
    rewrite IH by done. rewrite <- app_assoc. cbn. f_equal.
    apply list_fmap_ext. intros _ a _.
    rewrite decide_False; [done|]. by rewrite Hh.
Qed.

Lemma foldl_insert_answer ans added :
  foldl (insert_answer now run_id) ans added
  = ans ++ inserted now run_id (a_id <$> ans) added.
Proof.
  revert ans. induction added as [|na added IH]; intros ans.
  { cbn. by rewrite app_nil_r. }
  cbn [foldl inserted]. rewrite IH. unfold insert_answer.
  rewrite fmap_app, <- app_assoc. done.
Qed.

End answers.

(** ** Rows of the pass *)

Section pass_aux.
Context (now : Z) (run_id : string).

Lemma NoDup_fmap_filter {A B} (f : A → B) (P : A → Prop) `{!∀ x, Decision (P x)}
    (l : list A) :
  NoDup (f <$> l) → NoDup (f <$> filter P l).
Proof.
  intros Hnd. apply (sublist_NoDup _ (f <$> l) Hnd).
  apply fmap_sublist, sublist_filter.
Qed.

Lemma answered_ids tgt ans0 AA (ans : list Answer) :
  a_id <$> (answered now run_id tgt ans0 AA <$> ans) = a_id <$> ans.
Proof.
  rewrite <- list_fmap_compose. apply list_fmap_ext. intros _ a _. cbn.
  by injection (answered_key now run_id tgt ans0 AA a).
Qed.

End pass_aux.

(** ** The classification of the staging rows *)

Section classify.
Context (run_id : string) (st : Store).

Lemma elem_of_approved_questions sq :
  sq ∈ approved_questions run_id st ↔
  sq ∈ question_staging st ∧ qs_run_id sq = run_id ∧ qs_is_approved sq = Some true.
Proof. unfold approved_questions. rewrite list_elem_of_filter. tauto. Qed.

Lemma elem_of_approved_answers sa :
  sa ∈ approved_answers run_id st ↔
  sa ∈ answer_staging st ∧ as_run_id sa = run_id ∧ as_is_approved sa = Some true.
Proof. unfold approved_answers. rewrite list_elem_of_filter. tauto. Qed.

Lemma elem_of_Aq s :
  s ∈ approved_staging_question_ids run_id st ↔
  ∃ sq, sq ∈ approved_questions run_id st ∧ qs_id sq = s.
Proof.
  unfold approved_staging_question_ids.
  rewrite elem_of_list_to_set, list_elem_of_fmap. naive_solver.
Qed.

Lemma elem_of_Aa s :
  s ∈ approved_staging_answer_ids run_id st ↔
  ∃ sa, sa ∈ approved_answers run_id st ∧ as_id sa = s.
Proof.
  unfold approved_staging_answer_ids.
  rewrite elem_of_list_to_set, list_elem_of_fmap. naive_solver.
Qed.

Lemma elem_of_Wq_aux (Aq : gset Z) (AA : list AnswerStaging) (acc : gset Z) s :
  s ∈ foldl (λ acc staging_a,
               if decide (as_question_id staging_a ∈ Aq)
               then acc ∪ {[as_question_id staging_a]} else acc) acc AA
  ↔ s ∈ acc ∨ (s ∈ Aq ∧ ∃ sa, sa ∈ AA ∧ as_question_id sa = s).
Proof.
  revert acc. induction AA as [|sa AA IH]; intros acc; cbn.
  - split; [by left|]. intros [?|(_ & sa & ?%elem_of_nil & _)]; done.
  - rewrite IH. setoid_rewrite elem_of_cons. case_decide; set_solver.
Qed.

(** [Wq]: the approved questions with an approved answer. *)
Lemma elem_of_Wq s :
  s ∈ approved_questions_with_answers run_id st ↔
  s ∈ approved_staging_question_ids run_id st
  ∧ ∃ sa, sa ∈ approved_answers run_id st ∧ as_question_id sa = s.
Proof.
  unfold approved_questions_with_answers. rewrite elem_of_Wq_aux. set_solver.
Qed.

Lemma Wq_subseteq_Aq s :
  s ∈ approved_questions_with_answers run_id st →
  s ∈ approved_staging_question_ids run_id st.
Proof. by intros [? _]%elem_of_Wq. Qed.

End classify.

(** ** Rows after the upsert loop *)

Section upserted_rows.
Context (now : Z) (run_id : string).

Lemma filter_fmap_keys {A} (P : A → Prop) `{!∀ x, Decision (P x)}
    (f : A → A) (l : list A) :
  (∀ x, P (f x) ↔ P x) → filter P (f <$> l) = f <$> filter P l.
Proof.
  intros Hf. induction l as [|x l IH]; [done|].
  rewrite fmap_cons, !filter_cons, IH.
  destruct (decide (P (f x))), (decide (P x)); [done| | |done]; exfalso; naive_solver.
Qed.

Lemma last_fmap {A B} (f : A → B) (l : list A) : last (f <$> l) = f <$> last l.
Proof.
  induction l as [|x l IH]; [done|].
  rewrite fmap_cons, !last_cons, IH. by destruct (last l).
Qed.

Lemma upserted_spec Wq m AQ q :
  upserted now Wq m AQ q = q
  ∨ ∃ sq, sq ∈ AQ ∧ m !! qs_id sq = Some (q_id q)
          ∧ upserted now Wq m AQ q = set_from now Wq sq q.
Proof.
  induction AQ as [|sq AQ IH]; [by left|]. cbn. case_decide.
  - right. exists sq. split_and!; [apply elem_of_cons; by left|done..].
  - destruct IH as [?|(sq' & ? & ? & ?)]; [by left|].
    right. exists sq'. split_and!; [apply elem_of_cons; by right|done..].
Qed.

Lemma upserted_hit Wq m AQ q sq :
  NoDup (qs_id <$> AQ) →
  (∀ s s' i, m !! s = Some i → m !! s' = Some i → s = s') →
  sq ∈ AQ → m !! qs_id sq = Some (q_id q) →
  upserted now Wq m AQ q = set_from now Wq sq q.
Proof.
  intros Hnd Hinj. induction AQ as [|sq' AQ IH]; [by intros ?%elem_of_nil|].
  apply NoDup_staging_ids_cons in Hnd as [Hne Hnd]. cbn.
  intros [->|Hin]%elem_of_cons Hm.
  - by rewrite decide_True.
  - rewrite decide_False; [by apply IH|].
    intros Hm'. apply (Hne sq Hin). by apply (Hinj _ _ (q_id q)).
Qed.

Lemma created_spec Wq m ids AQ q :
  q ∈ created now run_id Wq m ids AQ →
  ∃ sq i, sq ∈ AQ ∧ m !! qs_id sq = None ∧ q = new_question now run_id Wq i sq
          ∧ ∀ x, x ∈ ids → x < i.
Proof.
  revert ids. induction AQ as [|sq AQ IH]; intros ids; cbn; [by intros ?%elem_of_nil|].
  destruct (m !! qs_id sq) eqn:Hm.
  - intros (sq' & i & ? & ? & ? & ?)%IH. exists sq', i.
    split_and!; [apply elem_of_cons; by right|done..].
  - intros [->|Hin]%elem_of_cons.
    + exists sq, (next_rowid ids). split_and!; [apply elem_of_cons; by left|done..|].
      apply next_rowid_gt.
    + apply IH in Hin as (sq' & i & ? & ? & ? & Hlt). exists sq', i.
      split_and!; [apply elem_of_cons; by right|done..|].
      intros x Hx. apply Hlt, elem_of_app. by left.
Qed.

Lemma created_pk Wq m ids AQ :
  pk_ok ids → pk_ok (ids ++ (q_id <$> created now run_id Wq m ids AQ)).
Proof.
  revert ids. induction AQ as [|sq AQ IH]; intros ids Hok; cbn.
  { by rewrite app_nil_r. }
  destruct (m !! qs_id sq); [by apply IH|].
  rewrite fmap_cons. cbn. rewrite cons_middle, (assoc_L (++)).
  apply IH. by apply pk_ok_snoc.
Qed.

Lemma created_nil Wq m ids AQ :
  (∀ sq, sq ∈ AQ → is_Some (m !! qs_id sq)) →
  created now run_id Wq m ids AQ = [].
Proof.
  revert ids. induction AQ as [|sq AQ IH]; intros ids H; [done|]. cbn.
  destruct (H sq) as [i ->]; [apply elem_of_cons; by left|].
  apply IH. intros sq' Hsq'. apply H, elem_of_cons. by right.
Qed.

Lemma created_filter_nil Wq m ids AQ s :
  (∀ sq, sq ∈ AQ → m !! qs_id sq = None → qs_id sq ≠ s) →
  filter (λ q, q_run_id q = run_id ∧ q_staging_id q = Some s)
         (created now run_id Wq m ids AQ) = [].
Proof.
  intros H. apply elem_of_nil_inv. intros q [[_ Hs] Hq]%list_elem_of_filter.
  apply created_spec in Hq as (sq & i & Hsq & Hm & -> & _). cbn in Hs.
  injection Hs as Hs. by apply (H sq).
Qed.

Lemma created_filter Wq m ids AQ sq :
  NoDup (qs_id <$> AQ) → sq ∈ AQ → m !! qs_id sq = None →
  ∃ i, filter (λ q, q_run_id q = run_id ∧ q_staging_id q = Some (qs_id sq))
              (created now run_id Wq m ids AQ)
       = [new_question now run_id Wq i sq].
Proof.
  revert ids. induction AQ as [|sq' AQ IH]; intros ids Hnd; [by intros ?%elem_of_nil|].
  apply NoDup_staging_ids_cons in Hnd as [Hne Hnd]. cbn.
  intros [->|Hin]%elem_of_cons Hm.
  - rewrite Hm. exists (next_rowid ids). rewrite filter_cons, decide_True by done.
    f_equal. apply created_filter_nil. intros sq Hsq _. by apply Hne.
  - destruct (m !! qs_id sq') eqn:Hm'; [by apply IH|].
    rewrite filter_cons, decide_False; [by apply IH|].
    cbn. intros [_ [= Heq]]. by apply (Hne sq Hin).
Qed.

End upserted_rows.

(** ** The published tables after a pass *)

Section post.
Context (now : Z) (run_id : string) (st : Store).
Context (Hwf : store_wf st).

Abbreviation AQ := (approved_questions run_id st).
Abbreviation AA := (approved_answers run_id st).
Abbreviation Aq := (approved_staging_question_ids run_id st).
Abbreviation Aa := (approved_staging_answer_ids run_id st).
Abbreviation Wq := (approved_questions_with_answers run_id st).
Abbreviation m0 := (staging_to_actual_question run_id (questions st)).
Abbreviation qs2 := (upserted_questions now run_id st).
Abbreviation qs4 := (synced_questions now run_id st).

Lemma NoDup_AQ : NoDup (qs_id <$> AQ).
Proof. apply NoDup_fmap_filter. by destruct Hwf as [[? _] _ _ _]. Qed.

Lemma NoDup_AA : NoDup (as_id <$> AA).
Proof. apply NoDup_fmap_filter. by destruct Hwf as [_ [? _] _ _]. Qed.

Lemma NoDup_questions : NoDup (q_id <$> questions st).
Proof. by destruct Hwf as [_ _ [? _] _]. Qed.

Lemma NoDup_answers : NoDup (a_id <$> answers st).
Proof. by destruct Hwf as [_ _ _ [? _]]. Qed.

Lemma AQ_eq_of_id sq sq' : sq ∈ AQ → sq' ∈ AQ → qs_id sq = qs_id sq' → sq = sq'.
Proof.
  intros [i Hi]%list_elem_of_lookup [j Hj]%list_elem_of_lookup Hid.
  assert (i = j) as ->; [|congruence].
  eapply NoDup_lookup; [exact NoDup_AQ| |]; rewrite list_lookup_fmap.
  - by rewrite Hi.
  - rewrite Hj. cbn. by rewrite Hid.
Qed.

Lemma upserted_questions_ids :
  q_id <$> qs2
  = (q_id <$> questions st)
      ++ (q_id <$> created now run_id Wq m0 (q_id <$> questions st) AQ).
Proof.
  unfold upserted_questions. rewrite fmap_app. f_equal.
  rewrite <- list_fmap_compose. apply list_fmap_ext. intros _ q _. cbn.
  apply upserted_id.
Qed.

Lemma upserted_questions_pk : pk_ok (q_id <$> qs2).
Proof. rewrite upserted_questions_ids. apply created_pk. by destruct Hwf. Qed.

Lemma synced_questions_keys : q_key <$> qs4 = q_key <$> qs2.
Proof.
  unfold synced_questions. rewrite <- list_fmap_compose.
  apply list_fmap_ext. intros _ q _. cbn. apply demoted_key.
Qed.

Lemma synced_questions_ids : q_id <$> qs4 = q_id <$> qs2.
Proof.
  pose proof synced_questions_keys as Hk.
  apply (f_equal (fmap (λ k : Z * string * option Z, k.1.1))) in Hk.
  by rewrite <- !list_fmap_compose in Hk.
Qed.

Lemma synced_questions_pk : pk_ok (q_id <$> qs4).
Proof. rewrite synced_questions_ids. apply upserted_questions_pk. Qed.

(** The row the dictionary holds for an approved staging question after
    the upsert loop carries its text, flag and tags. *)
Lemma mapped_upserted sq :
  sq ∈ AQ →
  ∃ q, mapped run_id qs2 (qs_id sq) = Some q
       ∧ q_question_text q = qs_question_text sq
       ∧ q_is_approved q = bool_decide (qs_id sq ∈ Wq)
       ∧ q_tags q = qs_tags sq
       ∧ q_updated_at q = now.
Proof.
  intros Hsq. unfold mapped, upserted_questions. rewrite filter_app.
  rewrite filter_fmap_keys.
  2:{ intros q. pose proof (upserted_key now Wq m0 AQ q) as Hk.
      injection Hk as _ -> ->. done. }
  fold (mapped run_id (questions st) (qs_id sq)).
  destruct (m0 !! qs_id sq) as [i|] eqn:Hm.
  - rewrite created_filter_nil, app_nil_r.
    2:{ intros sq' Hsq' Hnone Heq. rewrite <- Heq in Hm. congruence. }
    rewrite last_fmap. fold (mapped run_id (questions st) (qs_id sq)).
    rewrite staging_map_lookup in Hm.
    destruct (mapped run_id (questions st) (qs_id sq)) as [q0|] eqn:Hq0; [|done].
    injection Hm as <-. eexists. split; [done|].
    rewrite (upserted_hit now Wq m0 AQ q0 sq); [done|exact NoDup_AQ| |done|].
    + intros s s' j. apply stq_inj. exact NoDup_questions.
    + by rewrite staging_map_lookup, Hq0.
  - destruct (created_filter now run_id Wq m0 (q_id <$> questions st) AQ sq
                NoDup_AQ Hsq Hm) as [i ->].
    rewrite last_snoc. eexists. split; [done|]. done.
Qed.

Lemma stale_key Aq' Wq' q q' :
  q_key q = q_key q' → stale run_id Aq' Wq' q ↔ stale run_id Aq' Wq' q'.
Proof. unfold stale. intros [= _ -> ->]. done. Qed.

Lemma demoted_spec Aq' Wq' q :
  (stale run_id Aq' Wq' q
   ∧ demoted now run_id Aq' Wq' q
     = mkQuestion (q_id q) (q_run_id q) (q_staging_id q) (q_question_text q)
         false now (q_tags q))
  ∨ (¬ stale run_id Aq' Wq' q ∧ demoted now run_id Aq' Wq' q = q).
Proof.
  unfold demoted. destruct (decide (stale run_id Aq' Wq' q)).
  - left. by rewrite demote_question_stale.
  - right. by rewrite demote_question_fresh.
Qed.

Lemma mapped_fmap_keys (f : Question → Question) qs s :
  (∀ q, q_key (f q) = q_key q) →
  mapped run_id (f <$> qs) s = f <$> mapped run_id qs s.
Proof.
  intros Hf. unfold mapped. rewrite filter_fmap_keys, last_fmap; [done|].
  intros q. specialize (Hf q). injection Hf as _ -> ->. done.
Qed.

Lemma mapped_synced s :
  mapped run_id qs4 s = demoted now run_id Aq Wq <$> mapped run_id qs2 s.
Proof. apply mapped_fmap_keys. intros q. apply demoted_key. Qed.

(** After the pass the published questions agree with staging. *)
Lemma synced_questions_in_sync :
  questions_in_sync run_id (synced_store now run_id st).
Proof.
  split.
  - intros sq Hsq. change (questions (synced_store now run_id st)) with qs4.
    change (approved_questions run_id (synced_store now run_id st)) with AQ in Hsq.
    change (approved_questions_with_answers run_id (synced_store now run_id st)) with Wq.
    destruct (mapped_upserted sq Hsq) as (q & Hq & Ht & Hf & Htag & _).
    rewrite mapped_synced, Hq. eexists. split; [done|].
    destruct (demoted_spec Aq Wq q) as [[Hst ->]|[_ ->]]; [|done].
    cbn. split_and!; [done| |done].
    destruct Hst as (_ & s & Hs & _ & Hor).
    apply (mapped_Some run_id) in Hq as (_ & _ & Hs'). rewrite Hs in Hs'.
    injection Hs' as ->. symmetry. apply bool_decide_eq_false.
    destruct Hor as [Hn|Hn]; [|done]. intros Hw. apply Hn. by apply Wq_subseteq_Aq.
  - intros q Hq Hst. change (questions (synced_store now run_id st)) with qs4 in Hq.
    unfold synced_questions in Hq. apply list_elem_of_fmap in Hq as (q2 & -> & _).
    apply (stale_key _ _ _ q2) in Hst; [|apply demoted_key].
    destruct (demoted_spec Aq Wq q2) as [[_ ->]|[? _]]; done.
Qed.

End post.

(** ** A pass over tables that agree with staging *)

Section counts.
Context (now : Z) (run_id : string).

Lemma demote_counted Aq Wq q :
  (demote_question now run_id Aq Wq q 0%nat).2 ≠ 0%nat
  ↔ stale run_id Aq Wq q ∧ q_is_approved q = true.
Proof.
  destruct (decide (stale run_id Aq Wq q)) as [Hs|Hs].
  - rewrite demote_question_stale by done. cbn. destruct (q_is_approved q); naive_solver.
  - rewrite demote_question_fresh by done. cbn. naive_solver.
Qed.

Lemma demote_count_alt Aq Wq qs :
  demote_count now run_id Aq Wq qs
  = length (filter (λ q, stale run_id Aq Wq q ∧ q_is_approved q = true) qs).
Proof.
  unfold demote_count. f_equal. apply list_filter_iff. intros q.
  apply demote_counted.
Qed.

Lemma filter_nil_Forall {A} (P : A → Prop) `{!∀ x, Decision (P x)} (l : list A) :
  (∀ x, x ∈ l → ¬ P x) → filter P l = [].
Proof.
  intros Hall. apply elem_of_nil_inv. intros x [? ?]%list_elem_of_filter.
  by eapply Hall.
Qed.

Lemma filter_all {A} (P : A → Prop) `{!∀ x, Decision (P x)} (l : list A) :
  (∀ x, x ∈ l → P x) → filter P l = l.
Proof.
  induction l as [|x l IH]; intros Hall; [done|].
  rewrite filter_cons, decide_True by (apply Hall, elem_of_cons; by left).
  f_equal. apply IH. intros y Hy. apply Hall, elem_of_cons. by right.
Qed.

Lemma demote_count_zero Aq Wq qs :
  (∀ q, q ∈ qs → stale run_id Aq Wq q → q_is_approved q = false) →
  demote_count now run_id Aq Wq qs = 0%nat.
Proof.
  intros H. rewrite demote_count_alt, filter_nil_Forall; [done|].
  intros q Hq [Hs Ht]. rewrite (H q Hq Hs) in Ht. done.
Qed.

Lemma upsert_count_zero Wq m qs AQ :
  (∀ sq, sq ∈ AQ → upsert_counts Wq m qs sq = false) →
  upsert_count Wq m qs AQ = 0%nat.
Proof.
  intros H. unfold upsert_count. rewrite filter_nil_Forall; [done|].
  intros sq Hsq. by rewrite (H sq Hsq).
Qed.

End counts.

Section noop_questions.
Context (now : Z) (run_id : string) (st : Store).
Context (Hwf : store_wf st) (Hsync : questions_in_sync run_id st).

Abbreviation AQ := (approved_questions run_id st).
Abbreviation Aq := (approved_staging_question_ids run_id st).
Abbreviation Wq := (approved_questions_with_answers run_id st).
Abbreviation m0 := (staging_to_actual_question run_id (questions st)).
Abbreviation qs2 := (upserted_questions now run_id st).
Abbreviation qs4 := (synced_questions now run_id st).

Lemma in_sync_lookup sq :
  sq ∈ AQ →
  ∃ q, q ∈ questions st ∧ m0 !! qs_id sq = Some (q_id q)
       ∧ q_question_text q = qs_question_text sq
       ∧ q_is_approved q = bool_decide (qs_id sq ∈ Wq)
       ∧ q_tags q = qs_tags sq.
Proof.
  intros Hsq. destruct Hsync as [H1 _].
  destruct (H1 sq Hsq) as (q & Hm & ? & ? & ?). exists q.
  split_and!; try done.
  - by apply (mapped_Some run_id) in Hm as [? _].
  - by rewrite staging_map_lookup, Hm.
Qed.

Lemma noop_created ids : created now run_id Wq m0 ids AQ = [].
Proof.
  apply created_nil. intros sq Hsq.
  destruct (in_sync_lookup sq Hsq) as (q & _ & -> & _). eauto.
Qed.

Lemma noop_upserted_questions : qs2 = upserted now Wq m0 AQ <$> questions st.
Proof. unfold upserted_questions. by rewrite noop_created, app_nil_r. Qed.

Lemma question_eq_of_id q q' :
  q ∈ questions st → q' ∈ questions st → q_id q = q_id q' → q = q'.
Proof.
  intros Hq Hq' Hid. pose proof (NoDup_questions st Hwf) as Hnd.
  apply (find_question_elem _ _ Hnd) in Hq, Hq'. congruence.
Qed.

Lemma noop_upserted q :
  q ∈ questions st → q_content (upserted now Wq m0 AQ q) = q_content q.
Proof.
  intros Hq. destruct (upserted_spec now Wq m0 AQ q) as [->|(sq & Hsq & Hm & ->)];
    [done|].
  destruct (in_sync_lookup sq Hsq) as (q' & Hq' & Hm' & Ht & Hf & Htag).
  rewrite Hm in Hm'. injection Hm' as Hid.
  apply (question_eq_of_id q q' Hq Hq') in Hid as <-.
  unfold q_content, set_from. cbn. by rewrite Ht, Hf, Htag.
Qed.



Lemma noop_count : synced_count now run_id st = 0%nat.
Proof.
  unfold synced_count. rewrite upsert_count_zero, demote_count_zero; [done| |].
  - intros q2 Hq2 Hst. rewrite noop_upserted_questions in Hq2.
    apply list_elem_of_fmap in Hq2 as (q & -> & Hq).
    apply (stale_key run_id _ _ _ q) in Hst; [|apply upserted_key].
    destruct Hsync as [_ H2]. specialize (H2 q Hq Hst).
    pose proof (noop_upserted q Hq) as Hc.
    apply (f_equal q_is_approved) in Hc. cbn in Hc. congruence.
  - intros sq Hsq. unfold upsert_counts.
    destruct (in_sync_lookup sq Hsq) as (q & Hq & -> & _ & Hf & Htag). cbn.
    rewrite (find_question_elem _ _ (NoDup_questions st Hwf) Hq).
    rewrite Hf, Htag. apply orb_false_iff.
    split; apply bool_decide_eq_false; by intros H.
Qed.

End noop_questions.

(** ** Rows after the loop over the staging answers *)

Section answer_rows.
Context (now : Z) (run_id : string).

Lemma find_question_keys i qs qs' :
  q_key <$> qs = q_key <$> qs' →
  q_key <$> find_question i qs = q_key <$> find_question i qs'.
Proof.
  revert qs'. induction qs as [|q qs IH]; intros [|q' qs'] Hk; try done.
  rewrite !fmap_cons in Hk. injection Hk as Hi Hr Hs Hk.
  rewrite !find_question_cons, Hi. case_decide; [|by apply IH].
  cbn. unfold q_key. by rewrite Hi, Hr, Hs.
Qed.

Lemma target_keys Aq qs qs' sa :
  q_key <$> qs = q_key <$> qs' →
  target Aq (staging_to_actual_question run_id qs) qs sa
  = target Aq (staging_to_actual_question run_id qs') qs' sa.
Proof.
  intros Hk. unfold target. rewrite (stq_ext run_id qs qs' Hk).
  case_decide; [|done].
  destruct (staging_to_actual_question run_id qs' !! as_question_id sa) as [i|];
    [|done]. cbn.
  pose proof (find_question_keys i qs qs' Hk) as Hf.
  destruct (find_question i qs) as [q|], (find_question i qs') as [q'|];
    try done. cbn in *. injection Hf as -> _ _. done.
Qed.

Lemma target_Some Aq qs sa i :
  NoDup (q_id <$> qs) →
  target Aq (staging_to_actual_question run_id qs) qs sa = Some i →
  as_question_id sa ∈ Aq ∧ i ≠ 0
  ∧ ∃ q, mapped run_id qs (as_question_id sa) = Some q ∧ q_id q = i.
Proof.
  intros Hnd. unfold target. case_decide; [|done].
  rewrite stq_find by done.
  destruct (mapped run_id qs (as_question_id sa)) as [q|]; [|done]. cbn.
  destruct (q_id q =? 0) eqn:Hz; [done|]. cbn. intros [= <-].
  apply Z.eqb_neq in Hz. eauto.
Qed.


Lemma answered_spec tgt ans0 AA a :
  answered now run_id tgt ans0 AA a = a
  ∨ ∃ sa, sa ∈ AA ∧ hit run_id tgt ans0 sa = Some (a_id a)
          ∧ answered now run_id tgt ans0 AA a = set_text now sa a.
Proof.
  induction AA as [|sa AA IH]; [by left|]. cbn. case_decide.
  - right. exists sa. split_and!; [apply elem_of_cons; by left|done..].
  - destruct IH as [?|(sa' & ? & ? & ?)]; [by left|].
    right. exists sa'. split_and!; [apply elem_of_cons; by right|done..].
Qed.

Lemma hit_Some tgt ans0 sa j :
  hit run_id tgt ans0 sa = Some j →
  ∃ i a, tgt sa = Some i ∧ find_answer run_id i (as_id sa) ans0 = Some a ∧ a_id a = j.
Proof.
  unfold hit. destruct (tgt sa) as [i|]; [|done]. cbn.
  destruct (find_answer run_id i (as_id sa) ans0) as [a|] eqn:Hf; [|done].
  cbn. intros [= <-]. eauto.
Qed.

Lemma answered_hit tgt ans0 AA a sa :
  NoDup (as_id <$> AA) → NoDup (a_id <$> ans0) →
  sa ∈ AA → hit run_id tgt ans0 sa = Some (a_id a) →
  answered now run_id tgt ans0 AA a = set_text now sa a.
Proof.
  intros HAA Hans. induction AA as [|sa' AA IH]; [by intros ?%elem_of_nil|].
  rewrite fmap_cons, NoDup_cons in HAA. destruct HAA as [Hni HAA]. cbn.
  intros [->|Hin]%elem_of_cons Hh.
  - by rewrite decide_True.
  - rewrite decide_False; [by apply IH|]. intros Hh'.
    apply hit_Some in Hh as (i & e & _ & Hf & Hid).
    apply hit_Some in Hh' as (i' & e' & _ & Hf' & Hid').
    apply find_answer_Some in Hf as [He (_ & _ & Hs)].
    apply find_answer_Some in Hf' as [He' (_ & _ & Hs')].
    assert (e' = e) as -> by (apply (find_answer_elem_id ans0); congruence).
    apply Hni. rewrite Hs in Hs'. injection Hs' as <-.
    by apply list_elem_of_fmap_2.
Qed.

Lemma find_answer_filter (P : Answer → Prop) `{!∀ a, Decision (P a)} i s ans a :
  find_answer run_id i s ans = Some a → P a →
  find_answer run_id i s (filter P ans) = Some a.
Proof.
  induction ans as [|x ans IH]; [done|].
  rewrite find_answer_cons, filter_cons.
  destruct (decide (matches run_id i s x)) as [Hm|Hm].
  - intros [= ->] Ha. rewrite decide_True by done.
    by rewrite find_answer_cons, decide_True.
  - intros Hf Ha. destruct (decide (P x)); [|by apply IH].
    rewrite find_answer_cons, decide_False by done. by apply IH.
Qed.

Lemma elem_of_added_for tgt ans0 AA na :
  na ∈ added_for run_id tgt ans0 AA ↔
  ∃ sa i, sa ∈ AA ∧ tgt sa = Some i
          ∧ find_answer run_id i (as_id sa) ans0 = None
          ∧ na = mkNewAnswer i (as_id sa) (as_answer_text sa).
Proof.
  unfold added_for. rewrite list_elem_of_omap. split.
  - intros (sa & Hsa & H). destruct (tgt sa) as [i|] eqn:Ht; [|done].
    exists sa, i. cbn in H.
    destruct (find_answer run_id i (as_id sa) ans0) eqn:Hf; [done|].
    injection H as <-. done.
  - intros (sa & i & Hsa & Ht & Hf & ->). exists sa. split; [done|].
    rewrite Ht. cbn. by rewrite Hf.
Qed.


Lemma inserted_spec ids added a :
  a ∈ inserted now run_id ids added →
  ∃ na j, na ∈ added
          ∧ a = mkAnswer j run_id (na_question_id na) (Some (na_staging_id na))
                  (na_answer_text na) now.
Proof.
  revert ids. induction added as [|na added IH]; intros ids; cbn;
    [by intros ?%elem_of_nil|].
  intros [->|Hin]%elem_of_cons.
  - exists na, (next_rowid ids). split; [apply elem_of_cons; by left|done].
  - apply IH in Hin as (na' & j & ? & ?). exists na', j.
    split; [apply elem_of_cons; by right|done].
Qed.

Lemma inserted_complete ids added na :
  na ∈ added →
  ∃ j, mkAnswer j run_id (na_question_id na) (Some (na_staging_id na))
         (na_answer_text na) now ∈ inserted now run_id ids added.
Proof.
  revert ids. induction added as [|na' added IH]; intros ids;
    [by intros ?%elem_of_nil|].
  cbn. intros [->|Hin]%elem_of_cons.
  - exists (next_rowid ids). apply elem_of_cons. by left.
  - destruct (IH (ids ++ [next_rowid ids]) Hin) as [j Hj]. exists j.
    apply elem_of_cons. by right.
Qed.

Lemma inserted_pk ids added :
  pk_ok ids → pk_ok (ids ++ (a_id <$> inserted now run_id ids added)).
Proof.
  revert ids. induction added as [|na added IH]; intros ids Hok; cbn.
  { by rewrite app_nil_r. }
  rewrite cons_middle, (assoc_L (++)). apply IH. by apply pk_ok_snoc.
Qed.

End answer_rows.

(** ** The published answers after a pass *)

Section post_answers.
Context (now : Z) (run_id : string) (st : Store).
Context (Hwf : store_wf st).

Abbreviation AQ := (approved_questions run_id st).
Abbreviation AA := (approved_answers run_id st).
Abbreviation Aq := (approved_staging_question_ids run_id st).
Abbreviation Aa := (approved_staging_answer_ids run_id st).
Abbreviation Wq := (approved_questions_with_answers run_id st).
Abbreviation qs2 := (upserted_questions now run_id st).
Abbreviation qs4 := (synced_questions now run_id st).
Abbreviation tgt := (pass_target now run_id st).

Lemma AA_eq_of_id sa sa' : sa ∈ AA → sa' ∈ AA → as_id sa = as_id sa' → sa = sa'.
Proof.
  intros [i Hi]%list_elem_of_lookup [j Hj]%list_elem_of_lookup Hid.
  assert (i = j) as ->; [|congruence].
  eapply NoDup_lookup; [exact (NoDup_AA run_id st Hwf)| |]; rewrite list_lookup_fmap.
  - by rewrite Hi.
  - rewrite Hj. cbn. by rewrite Hid.
Qed.

Lemma target_synced sa :
  target Aq (staging_to_actual_question run_id qs4) qs4 sa = tgt sa.
Proof. apply target_keys, synced_questions_keys. Qed.

(** A row under the target of an approved staging answer is not due
    for deletion. *)
Lemma matching_row_kept sa i a :
  sa ∈ AA → tgt sa = Some i → matches run_id i (as_id sa) a →
  kept now run_id st a.
Proof.
  intros Hsa Ht (Hr & Hq & Hs) [_ Hd]. unfold should_delete in Hd.
  pose proof (upserted_questions_pk now run_id st Hwf) as [Hnd _].
  apply target_Some in Ht as (HAq & Hi & q2 & Hm & Hid); [|done].
  rewrite Hs, Hq in Hd. apply orb_true_iff in Hd as [Hd|Hd].
  - apply andb_true_iff in Hd as [_ Hd]. apply bool_decide_eq_true in Hd.
    apply Hd, elem_of_Aa. eauto.
  - apply andb_true_iff in Hd as [_ Hd].
    pose proof (find_question_keys i qs4 qs2 (synced_questions_keys now run_id st)) as Hk.
    apply (mapped_Some run_id) in Hm as (Hq2 & _ & Hs2).
    rewrite <- Hid, (find_question_elem _ _ Hnd Hq2) in Hk.
    destruct (find_question (q_id q2) qs4) as [q4|] eqn:Hq4; [|done].
    rewrite <- Hid, Hq4 in Hd. cbn in Hk. injection Hk as _ _ Hs4.
    rewrite Hs4, Hs2 in Hd. apply andb_true_iff in Hd as [_ Hd].
    apply bool_decide_eq_true in Hd. done.
Qed.

(** After the pass the published answers agree with staging. *)
Lemma synced_answers_in_sync :
  answers_in_sync run_id (synced_store now run_id st).
Proof.
  split.
  - intros sa i Hsa Ht.
    change (questions (synced_store now run_id st)) with qs4 in Ht.
    change (approved_staging_question_ids run_id (synced_store now run_id st))
      with Aq in Ht.
    change (approved_answers run_id (synced_store now run_id st)) with AA in Hsa.
    change (answers (synced_store now run_id st)) with (synced_answers now run_id st).
    rewrite target_synced in Ht. unfold synced_answers.
    destruct (find_answer run_id i (as_id sa) (answers st)) as [a0|] eqn:Hf.
    + exists (set_text now sa a0). split; [|done].
      apply find_answer_filter.
      * rewrite find_answer_app. unfold rewritten_answers.
        rewrite find_answer_fmap by (intros a; apply answered_key). rewrite Hf. cbn.
        f_equal. apply answered_hit;
          [exact (NoDup_AA run_id st Hwf)|exact (NoDup_answers st Hwf)|done|].
        unfold hit. rewrite Ht. cbn. by rewrite Hf.
      * apply (matching_row_kept sa i); [done..|].
        by apply find_answer_Some in Hf as [_ ?].
    + set (ins := inserted now run_id (a_id <$> answers st)
                    (pending_answers now run_id st)).
      assert (∃ a, find_answer run_id i (as_id sa) ins = Some a) as [a Ha].
      { destruct (inserted_complete now run_id (a_id <$> answers st)
                    (pending_answers now run_id st)
                    (mkNewAnswer i (as_id sa) (as_answer_text sa))) as [j Hj].
        { apply elem_of_added_for. exists sa, i. done. }
        destruct (find_answer run_id i (as_id sa) ins) as [a|] eqn:Hfi; [eauto|].
        exfalso. eapply find_answer_None; [exact Hfi|exact Hj|]. done. }
      exists a. split.
      * apply find_answer_filter.
        -- rewrite find_answer_app. unfold rewritten_answers.
           rewrite find_answer_fmap by (intros a'; apply answered_key).
           rewrite Hf. done.
        -- apply (matching_row_kept sa i); [done..|].
           by apply find_answer_Some in Ha as [_ ?].
      * apply find_answer_Some in Ha as [Hin (_ & _ & Hs)].
        apply inserted_spec in Hin as (na & j & Hna & ->). cbn in Hs |- *.
        apply elem_of_added_for in Hna as (sa' & i' & Hsa' & _ & _ & ->).
        cbn in Hs. injection Hs as Hs.
        by rewrite (AA_eq_of_id sa' sa Hsa' Hsa Hs).
  - intros a Ha Hr.
    change (answers (synced_store now run_id st))
      with (synced_answers now run_id st) in Ha.
    unfold synced_answers in Ha. apply list_elem_of_filter in Ha as [Hk _].
    unfold kept in Hk. cbn.
    destruct (should_delete _ _ _ a) eqn:Hd; [|done]. exfalso. by apply Hk.
Qed.

(** The pass keeps the primary keys of the store distinct and positive. *)
Lemma synced_store_wf : store_wf (synced_store now run_id st).
Proof.
  destruct Hwf as [Hqs Has Hq Ha]. split; cbn; [done|done| |].
  - by apply synced_questions_pk.
  - unfold synced_answers. pose proof (inserted_pk now run_id (a_id <$> answers st)
      (pending_answers now run_id st) Ha) as [Hnd Hpos].
    assert (a_id <$> rewritten_answers now run_id st = a_id <$> answers st) as Hids
      by apply answered_ids.
    split.
    + apply NoDup_fmap_filter. by rewrite fmap_app, Hids.
    + rewrite Forall_forall in Hpos |- *. intros x [a [-> Hin]]%list_elem_of_fmap.
      apply list_elem_of_filter in Hin as [_ Hin]. apply Hpos.
      apply elem_of_app. apply elem_of_app in Hin as [Hin|Hin].
      * left. rewrite <- Hids. by apply list_elem_of_fmap_2.
      * right. by apply list_elem_of_fmap_2.
Qed.

End post_answers.

Section noop_answers.
Context (now : Z) (run_id : string) (st : Store).
Context (Hwf : store_wf st).
Context (Hq : questions_in_sync run_id st) (Ha : answers_in_sync run_id st).







End noop_answers.

(** ** The pass in closed form *)

Section pass_closed.
Context (now : Z) (run_id : string) (st : Store).
Context (Hwf : store_wf st).

Abbreviation AQ := (approved_questions run_id st).
Abbreviation AA := (approved_answers run_id st).
Abbreviation Aq := (approved_staging_question_ids run_id st).
Abbreviation Aa := (approved_staging_answer_ids run_id st).
Abbreviation Wq := (approved_questions_with_answers run_id st).
Abbreviation qs4 := (synced_questions now run_id st).
Abbreviation rew := (rewritten_answers now run_id st).

(** The flush: among the rows the deletion loop saw, those not marked
    stay; the inserted rows stay, and would not have been marked. *)
Lemma flush_answers_closed :
  flush_answers now run_id rew (pending_answers now run_id st)
    (delete_stale run_id Aq Aa qs4 rew)
  = synced_answers now run_id st.
Proof.
  unfold flush_answers, synced_answers. rewrite foldl_insert_answer.
  assert (a_id <$> rew = a_id <$> answers st) as Hids by apply answered_ids.
  rewrite Hids. apply filter_ext_in. intros a [Ha|Ha]%elem_of_app.
  - unfold delete_stale. rewrite list_elem_of_fmap. split.
    + intros Hn Hmark. apply Hn. exists a. split; [done|].
      by apply list_elem_of_filter.
    + intros Hk (a' & Hid & [Hm Ha']%list_elem_of_filter).
      assert (a = a') as <-; [|by apply Hk].
      apply (find_answer_elem_id rew); [|done..].
      rewrite Hids. by destruct Hwf as [_ _ _ [? _]].
  - split; intros _.
    + apply inserted_spec in Ha as (na & j & Hna & ->).
      apply elem_of_added_for in Hna as (sa & i & Hsa & Ht & _ & ->).
      by apply (matching_row_kept now run_id st Hwf sa i).
    + unfold delete_stale.
      intros (a' & Hid & [_ Ha']%list_elem_of_filter)%list_elem_of_fmap.
      destruct (inserted_pk now run_id (a_id <$> answers st)
                  (pending_answers now run_id st) (wf_answers _ Hwf)) as [Hnd _].
      apply NoDup_app in Hnd as (_ & Hdisj & _).
      apply (Hdisj (a_id a)).
      * rewrite Hid, <- Hids. by apply list_elem_of_fmap_2.
      * by apply list_elem_of_fmap_2.
Qed.

Lemma sync_pass_closed :
  sync_pass now run_id None st
  = Some (synced_store now run_id st, synced_count now run_id st).
Proof.
  destruct Hwf as [[Hqs _] [Has _] [Hq _] [Ha _]].
  unfold sync_pass. rewrite !attempt_None.
  cbn [mbind option_bind].
  set (m0 := staging_to_actual_question run_id (questions st)).
  change (foldl _ (m0, questions st, 0%nat) AQ)
    with (upsert_all now run_id Wq AQ (m0, questions st, 0%nat)).
  assert (NoDup (qs_id <$> AQ)) as HAQ by (by apply NoDup_fmap_filter).
  assert (NoDup (as_id <$> AA)) as HAA by (by apply NoDup_fmap_filter).
  destruct (upsert_all_closed now run_id Wq AQ m0 (questions st) 0 eq_refl HAQ Hq)
    as [H2 Hn2].
  pose proof (upsert_all_stq now run_id Wq AQ (questions st) 0) as Hm.
  fold m0 in Hm.
  destruct (upsert_all now run_id Wq AQ (m0, questions st, 0%nat)) as [[m qs2] n2].
  cbn in H2, Hn2, Hm.
  change (foldl _ (answers st, []) AA)
    with (upsert_answers now run_id Aq m qs2 AA (answers st, [])).
  rewrite (upsert_answers_closed now run_id Aq m qs2 AA (answers st) [] HAA Ha).
  rewrite demote_stale_closed.
  subst m n2. rewrite H2. cbn [app].
  unfold synced_store. rewrite <- flush_answers_closed. done.
Qed.

Lemma sync_to_actual_closed run :
  find_run run_id st = Some run →
  sync_to_actual now run_id None st
  = (synced_store now run_id st,
     Ok (mkSyncResult now (synced_count now run_id st))).
Proof.
  intros Hrun. unfold sync_to_actual. by rewrite Hrun, sync_pass_closed.
Qed.

End pass_closed.

(** ** Idempotence *)

Lemma find_run_update run_id run_id' (f : Run → Run) st rs' :
  (∀ r, r_id (f r) = r_id r) →
  runs rs' = update_run run_id' f (runs st) →
  find_run run_id rs'
  = (if decide (run_id = run_id') then f else id) <$> find_run run_id st.
Proof.
  intros Hf Hr. unfold find_run. rewrite Hr. clear Hr.
  induction (runs st) as [|r rs IH]; [by case_decide|].
  unfold update_run in *. rewrite fmap_cons. cbn [list_find].
  destruct (decide (r_id r = run_id')) as [Hi|Hi].
  - rewrite Hf. destruct (decide (r_id r = run_id)) as [Hj|Hj].
    + cbn. rewrite decide_True by congruence. done.
    + destruct (list_find _ (_ <$> rs)) as [[]|], (list_find _ rs) as [[]|];
        cbn in *; congruence.
  - destruct (decide (r_id r = run_id)) as [Hj|Hj].
    + cbn. rewrite decide_False by congruence. done.
    + destruct (list_find _ (_ <$> rs)) as [[]|], (list_find _ rs) as [[]|];
        cbn in *; congruence.
Qed.

Lemma find_run_synced now run_id st :
  is_Some (find_run run_id st) →
  is_Some (find_run run_id (synced_store now run_id st)).
Proof.
  intros [run Hrun].
  rewrite (find_run_update run_id run_id
             (λ r, mkRun (r_id r) (r_summary r) now (Some now)
                     (r_last_staging_change_at r)) st); [|done..].
  rewrite Hrun. eauto.
Qed.

Lemma sync_to_actual_ok now run_id st st' res :
  store_wf st →
  sync_to_actual now run_id None st = (st', Ok res) →
  is_Some (find_run run_id st)
  ∧ st' = synced_store now run_id st
  ∧ res = mkSyncResult now (synced_count now run_id st).
Proof.
  intros Hwf. destruct (find_run run_id st) as [run|] eqn:Hrun.
  - rewrite (sync_to_actual_closed now run_id st Hwf run Hrun).
    intros [= <- <-]. eauto.
  - unfold sync_to_actual. rewrite Hrun. done.
Qed.

Ltac solve_store_wf := split; (split; vm_compute; compute_done).




(** ** What a pass never touches *)

Section frame.
Context (now : Z) (run_id : string).

Lemma upsert_question_prefix Wq sq m qs n :
  q_key <$> qs
  `prefix_of` q_key <$> (upsert_question now run_id Wq sq (m, qs, n)).1.2.
Proof.
  destruct (m !! qs_id sq ≫= (λ i, find_question i qs)) as [q|] eqn:H.
  - rewrite (upsert_question_existing _ _ _ _ _ _ _ _ H). cbn.
    by rewrite update_question_keys.
  - rewrite (upsert_question_new _ _ _ _ _ _ _ H). cbn.
    rewrite fmap_app. by apply prefix_app_r.
Qed.

Lemma upsert_all_prefix Wq AQ m qs n :
  q_key <$> qs `prefix_of` q_key <$> (upsert_all now run_id Wq AQ (m, qs, n)).1.2.
Proof.
  revert m qs n. induction AQ as [|sq AQ IH]; intros m qs n; [done|].
  rewrite upsert_all_cons.
  pose proof (upsert_question_prefix Wq sq m qs n) as Hp.
  destruct (upsert_question now run_id Wq sq (m, qs, n)) as [[m' qs'] n'].
  etrans; [exact Hp|]. apply IH.
Qed.

(** The questions a successful pass commits, for any store. *)
Lemma sync_pass_questions st st' n :
  sync_pass now run_id None st = Some (st', n) →
  questions st'
  = demoted now run_id (approved_staging_question_ids run_id st)
      (approved_questions_with_answers run_id st)
    <$> (upsert_all now run_id (approved_questions_with_answers run_id st)
           (approved_questions run_id st)
           (staging_to_actual_question run_id (questions st), questions st, 0%nat)).1.2
  ∧ question_staging st' = question_staging st
  ∧ answer_staging st' = answer_staging st
  ∧ tags st' = tags st.
Proof.
  unfold sync_pass. rewrite !attempt_None. cbn [mbind option_bind].
  fold (upsert_all now run_id (approved_questions_with_answers run_id st)
          (approved_questions run_id st)
          (staging_to_actual_question run_id (questions st), questions st, 0%nat)).
  destruct (upsert_all _ _ _ _ _) as [[m qs2] n2].
  destruct (foldl _ (answers st, []) _) as [ans3 added].
  rewrite demote_stale_closed. intros [= <- <-]. done.
Qed.

End frame.

(** C10. A pass never deletes a published question: the rows of the
    table before the pass are, in order and with the same primary key,
    run and [staging_id], the first rows of the table after it, whether
    the pass succeeds or fails; the staging tables are left as they
    were; and after a successful pass every stale question of the run
    (truthy [staging_id] that is not an approved staging question with
    an approved answer) is still there with its flag false. *)
Theorem sync_never_deletes_questions now run_id fault st :
  q_key <$> questions st
    `prefix_of` q_key <$> questions (sync_to_actual now run_id fault st).1
  ∧ question_staging (sync_to_actual now run_id fault st).1 = question_staging st
  ∧ answer_staging (sync_to_actual now run_id fault st).1 = answer_staging st
  ∧ ∀ res,
      (sync_to_actual now run_id fault st).2 = Ok res →
      ∀ q, q ∈ questions (sync_to_actual now run_id fault st).1 →
           stale run_id (approved_staging_question_ids run_id st)
             (approved_questions_with_answers run_id st) q →
           q_is_approved q = false.
Proof.
  unfold sync_to_actual. destruct (find_run run_id st) as [run|]; [|done].
  destruct fault as [s|].
  { rewrite sync_pass_fault. done. }
  destruct (sync_pass now run_id None st) as [[st' n]|] eqn:Hp; [|done].
  apply sync_pass_questions in Hp as (Hq & Hqs & Has & _). cbn.
  split_and!; [|done|done|].
  - rewrite Hq, <- list_fmap_compose.
    rewrite (list_fmap_ext (q_key ∘ demoted now run_id _ _) q_key _
               (λ _ q _, demoted_key now run_id _ _ q)).
    apply upsert_all_prefix.
  - intros _ _ q Hin Hst. rewrite Hq in Hin.
    apply list_elem_of_fmap in Hin as (q2 & -> & _).
    apply (stale_key _ _ _ _ q2) in Hst; [|apply demoted_key].
    destruct (demoted_spec now run_id (approved_staging_question_ids run_id st)
                (approved_questions_with_answers run_id st) q2)
      as [[_ ->]|[? _]]; done.
Qed.

Lemma sync_never_deletes_questions_witness :
  let q := mkQuestion 3 "r" (Some 3) "q3" false 5 ∅ in
  q ∈ questions (sync_to_actual 5 "r" None example_reviewed).1
  ∧ stale "r" (approved_staging_question_ids "r" example_reviewed)
      (approved_questions_with_answers "r" example_reviewed) q
  ∧ q_is_approved q = false.
Proof.
  cbn zeta.
  assert (mkQuestion 3 "r" (Some 3) "q3" false 5 ∅
            ∈ questions (sync_to_actual 5 "r" None example_reviewed).1) as Hin
    by compute_done.
  assert (stale "r" (approved_staging_question_ids "r" example_reviewed)
            (approved_questions_with_answers "r" example_reviewed)
            (mkQuestion 3 "r" (Some 3) "q3" false 5 ∅)) as Hst.
  { split; [done|]. exists 3. split_and!; [done|done|]. right. compute_done. }
  split_and!; [exact Hin|exact Hst|].
  exact (proj2 (proj2 (proj2
           (sync_never_deletes_questions 5 "r" None example_reviewed)))
           (mkSyncResult 5 1) eq_refl _ Hin Hst).
Defined.

(** ** Rows without a staging id *)

Section null_rows.
Context (now : Z) (run_id : string) (st : Store).
Context (Hwf : store_wf st).

Abbreviation AQ := (approved_questions run_id st).
Abbreviation AA := (approved_answers run_id st).
Abbreviation Aq := (approved_staging_question_ids run_id st).
Abbreviation Aa := (approved_staging_answer_ids run_id st).
Abbreviation Wq := (approved_questions_with_answers run_id st).
Abbreviation m0 := (staging_to_actual_question run_id (questions st)).
Abbreviation qs2 := (upserted_questions now run_id st).
Abbreviation qs4 := (synced_questions now run_id st).

(** A row the upsert loop rewrites is the row of the dictionary for
    its own staging id. *)
Lemma upserted_changed q :
  q ∈ questions st → upserted now Wq m0 AQ q ≠ q →
  ∃ sq, sq ∈ AQ ∧ q_run_id q = run_id ∧ q_staging_id q = Some (qs_id sq)
        ∧ mapped run_id (questions st) (qs_id sq) = Some q
        ∧ upserted now Wq m0 AQ q = set_from now Wq sq q.
Proof.
  intros Hq Hne.
  destruct (upserted_spec now Wq m0 AQ q) as [?|(sq & Hsq & Hm & Hu)]; [done|].
  exists sq. rewrite staging_map_lookup in Hm.
  destruct (mapped run_id (questions st) (qs_id sq)) as [q'|] eqn:Hq'; [|done].
  injection Hm as Hid. pose proof Hq' as (Hin & Hr & Hs)%mapped_Some.
  assert (q' = q) as ->.
  { pose proof (NoDup_questions st Hwf) as Hnd.
    apply (find_question_elem _ _ Hnd) in Hq, Hin. congruence. }
  done.
Qed.

Lemma synced_null_question q :
  q ∈ questions st → q_staging_id q = None → q ∈ qs4.
Proof.
  intros Hq Hs. unfold synced_questions, upserted_questions.
  apply list_elem_of_fmap. exists q. split; [|apply elem_of_app; left].
  - destruct (demoted_spec now run_id Aq Wq q) as [[(_ & s & Hs' & _) _]|[_ ->]];
      [congruence|done].
  - apply list_elem_of_fmap. exists q. split; [|done].
    destruct (decide (upserted now Wq m0 AQ q = q)) as [->|Hne]; [done|].
    apply upserted_changed in Hne as (sq & _ & _ & Hs' & _); [congruence|done].
Qed.

Lemma answered_changed a :
  a ∈ answers st →
  answered now run_id (pass_target now run_id st) (answers st) AA a ≠ a →
  ∃ sa, sa ∈ AA ∧ a_staging_id a = Some (as_id sa).
Proof.
  intros Ha Hne.
  destruct (answered_spec now run_id (pass_target now run_id st) (answers st) AA a)
    as [?|(sa & Hsa & Hh & _)]; [done|].
  exists sa. split; [done|].
  apply hit_Some in Hh as (i & a' & _ & Hf & Hid).
  apply find_answer_Some in Hf as [Hin (_ & _ & Hs)].
  by rewrite <- (find_answer_elem_id (answers st) a' a (NoDup_answers st Hwf) Hin Ha Hid).
Qed.

Lemma find_question_synced i :
  find_question i qs4
  = demoted now run_id Aq Wq
    <$> match upserted now Wq m0 AQ <$> find_question i (questions st) with
        | Some q => Some q
        | None => find_question i (created now run_id Wq m0 (q_id <$> questions st) AQ)
        end.
Proof.
  unfold synced_questions, upserted_questions.
  rewrite find_question_fmap by (intros q; by injection (demoted_key now run_id Aq Wq q)).
  rewrite find_question_app.
  rewrite find_question_fmap by (intros q; apply upserted_id). done.
Qed.

(** The deletion flag read on the tables before the pass. *)
Lemma should_delete_synced a :
  should_delete Aq Aa qs4 a = should_delete Aq Aa (questions st) a.
Proof.
  unfold should_delete. f_equal. f_equal. rewrite find_question_synced.
  destruct (find_question (a_question_id a) (questions st)) as [q|]; cbn.
  - pose proof (demoted_key now run_id Aq Wq (upserted now Wq m0 AQ q)) as Hk.
    rewrite upserted_key in Hk. injection Hk as _ _ ->. done.
  - destruct (find_question _ (created _ _ _ _ _ _)) as [qc|] eqn:Hc; [|done]. cbn.
    apply find_question_Some in Hc as [Hc _].
    apply created_spec in Hc as (sq & i & Hsq & _ & -> & _).
    pose proof (demoted_key now run_id Aq Wq (new_question now run_id Wq i sq)) as Hk.
    injection Hk as _ _ ->. cbn.
    rewrite bool_decide_eq_false_2, andb_false_r; [done|].
    intros Hn. apply Hn, elem_of_Aq. eauto.
Qed.

Lemma should_delete_null a :
  a_staging_id a = None →
  should_delete Aq Aa (questions st) a = true ↔ owner_unapproved run_id st a.
Proof.
  intros Hs. unfold should_delete, owner_unapproved. rewrite Hs. cbn.
  rewrite andb_true_iff, negb_true_iff, Z.eqb_neq.
  destruct (find_question (a_question_id a) (questions st)) as [q|].
  2:{ split; [by intros [_ ?]|]. by intros (_ & q & s & ? & _). }
  destruct (q_staging_id q) as [s|] eqn:Hq.
  2:{ split; [by intros [_ ?]|]. intros (_ & q' & s & [= <-] & ? & _). congruence. }
  cbn. rewrite andb_true_iff, negb_true_iff, Z.eqb_neq, bool_decide_eq_true.
  split.
  - intros (? & ? & ?). split; [done|]. exists q, s. done.
  - intros (? & q' & s' & [= <-] & Hs' & ? & ?). rewrite Hq in Hs'.
    injection Hs' as <-. done.
Qed.

Lemma synced_null_answer a :
  a ∈ answers st → a_staging_id a = None →
  a ∈ synced_answers now run_id st
  ↔ ¬ (a_run_id a = run_id ∧ owner_unapproved run_id st a).
Proof.
  intros Ha Hs. unfold synced_answers. rewrite list_elem_of_filter.
  unfold kept. rewrite should_delete_synced, (should_delete_null a Hs).
  split; [by intros [? _]|]. intros Hk. split; [done|].
  apply elem_of_app. left. unfold rewritten_answers.
  apply list_elem_of_fmap. exists a. split; [|done].
  destruct (decide (answered now run_id (pass_target now run_id st) (answers st) AA a = a))
    as [->|Hne]; [done|].
  apply answered_changed in Hne as (sa & _ & Hs'); [congruence|done].
Qed.

End null_rows.

(** C3, as the code has it. A pass never deletes and never changes a
    published question whose [staging_id] is null, and never changes a
    published answer whose [staging_id] is null; such an answer is
    deleted exactly when it belongs to the run and hangs under a
    published question whose own [staging_id] is truthy and no longer
    an approved staging question (the second rule of the deletion
    loop), and is otherwise still present, unchanged. *)
Theorem sync_keeps_null_staging_rows now run_id st st' res :
  store_wf st →
  sync_to_actual now run_id None st = (st', Ok res) →
  (∀ q, q ∈ questions st → q_staging_id q = None → q ∈ questions st')
  ∧ (∀ a, a ∈ answers st → a_staging_id a = None →
       a ∈ answers st'
       ↔ ¬ (a_run_id a = run_id ∧ owner_unapproved run_id st a)).
Proof.
  intros Hwf (_ & -> & _)%sync_to_actual_ok; [|done]. split.
  - intros q. by apply synced_null_question.
  - intros a. by apply synced_null_answer.
Qed.

Lemma sync_keeps_null_staging_rows_witness :
  (∀ q, q ∈ questions example_reviewed → q_staging_id q = None →
     q ∈ questions (sync_to_actual 5 "r" None example_reviewed).1)
  ∧ (∀ a, a ∈ answers example_reviewed → a_staging_id a = None →
       a ∈ answers (sync_to_actual 5 "r" None example_reviewed).1
       ↔ ¬ (a_run_id a = "r" ∧ owner_unapproved "r" example_reviewed a)).
Proof.
  apply (sync_keeps_null_staging_rows 5 "r" example_reviewed _ (mkSyncResult 5 1)).
  - solve_store_wf.
  - by vm_compute.
Defined.

(** C3 as stated fails: a published answer with a null [staging_id]
    under a published question whose staging question was rejected is
    deleted by the pass. *)
Lemma sync_deletes_null_staging_answer :
  let a := mkAnswer 1 "r" 1 None "seeded answer" 0 in
  a ∈ answers example_orphan ∧ a_staging_id a = None
  ∧ (∃ res, (sync_to_actual 5 "r" None example_orphan).2 = Ok res)
  ∧ a ∉ answers (sync_to_actual 5 "r" None example_orphan).1.
Proof.
  cbn zeta. split_and!.
  - compute_done.
  - done.
  - eexists. by vm_compute.
  - vm_compute. by intros ?%elem_of_nil.
Qed.

(** ** Staging mutations *)

Lemma find_run_Some run_id st run :
  find_run run_id st = Some run → run ∈ runs st ∧ r_id run = run_id.
Proof.
  unfold find_run. destruct (list_find _ _) as [[i r]|] eqn:Hf; [|done].
  intros [= <-]. apply list_find_Some in Hf as (Hi & ? & _).
  split; [by eapply list_elem_of_lookup_2|done].
Qed.

Lemma generate_questions_runs now llm run_id n st :
  runs (generate_questions now llm run_id n st).1 = runs st.
Proof.
  unfold generate_questions. destruct llm as [llm|]; [|done].
  destruct (find_run run_id st) as [run|]; [|done].
  by destruct (llm_generate_questions llm (r_summary run) n).
Qed.

Lemma generate_answers_runs now llm run_id st :
  runs (generate_answers now llm run_id st).1 = runs st.
Proof.
  unfold generate_answers. destruct llm as [llm|]; [|done].
  destruct (find_run run_id st) as [run|]; [|done].
  destruct (approved_questions run_id st); [done|].
  by destruct (generate_answers_loop _ _ _ _ _ _) as [[? ?]|].
Qed.

Lemma touch_staging_spec now run_id rs r :
  r ∈ touch_staging now run_id rs → r_id r = run_id →
  r_last_staging_change_at r = Some now.
Proof.
  unfold touch_staging, update_run. intros (r0 & -> & _)%list_elem_of_fmap.
  case_decide; [done|]. congruence.
Qed.

(** The three review endpoints stamp the owning run. *)
Lemma update_question_approval_touches now question_id b st st' question r :
  update_question_approval now question_id b st = (st', Ok question) →
  r ∈ runs st' → r_id r = qs_run_id question →
  r_last_staging_change_at r = Some now.
Proof.
  unfold update_question_approval.
  destruct (find_staging_question question_id st) as [q|]; [|done].
  intros [= <- <-]. cbn. apply touch_staging_spec.
Qed.

Lemma update_answer_approval_touches now answer_id b st st' answer r :
  update_answer_approval now answer_id b st = (st', Ok answer) →
  r ∈ runs st' → r_id r = as_run_id answer →
  r_last_staging_change_at r = Some now.
Proof.
  unfold update_answer_approval.
  destruct (find_staging_answer answer_id st) as [a|]; [|done].
  intros [= <- <-]. cbn. apply touch_staging_spec.
Qed.

Lemma update_question_tags_touches now question_id names st st' ts question r :
  update_question_tags now question_id names st = (st', Ok ts) →
  find_staging_question question_id st = Some question →
  r ∈ runs st' → r_id r = qs_run_id question →
  r_last_staging_change_at r = Some now.
Proof.
  unfold update_question_tags. intros H Hq. rewrite Hq in H.
  destruct (foldl _ _ names) as [[ts' flushed] tag_objects].
  case_decide; [|done]. injection H as <- _. cbn. apply touch_staging_spec.
Qed.

(** C6 fails on the code: [generate_questions] and [generate_answers]
    insert staging rows (and [generate_answers] deletes rejected ones)
    without writing [last_staging_change_at].  Here the run was last
    changed at time 0 resp. 2, the requests run at time 9 and succeed,
    and the run still carries the old time. *)
Theorem generation_leaves_last_staging_change_at :
  (∃ created,
     (generate_questions 9 (Some example_llm) "r" 3 example_store).2 = Ok created
     ∧ length created = 3%nat)
  ∧ r_last_staging_change_at
      <$> runs (generate_questions 9 (Some example_llm) "r" 3 example_store).1
    = [Some 0]
  ∧ (∃ created,
       (generate_answers 9 (Some example_llm) "r" example_approved).2 = Ok created
       ∧ length created = 1%nat)
  ∧ answer_staging (generate_answers 9 (Some example_llm) "r" example_approved).1
    ≠ answer_staging example_approved
  ∧ r_last_staging_change_at
      <$> runs (generate_answers 9 (Some example_llm) "r" example_approved).1
    = [Some 2].
Proof.
  split_and!.
  - eexists. split; [by vm_compute|done].
  - by rewrite generate_questions_runs.
  - eexists. split; [by vm_compute|done].
  - vm_compute. discriminate.
  - by rewrite generate_answers_runs.
Qed.

(** ** Answer generation *)

Section generate.
Context (now : Z) (llm : LLMService) (run : Run) (st : Store).

Lemma has_non_rejected_false question :
  existsb (λ ans, bool_decide (as_is_approved ans ≠ Some false))
          (existing_answers st question) = false
  ↔ regenerated st question.
Proof.
  unfold regenerated. induction (existing_answers st question) as [|a l IH]; cbn.
  - split; [by constructor|done].
  - rewrite orb_false_iff, IH, Forall_cons, bool_decide_eq_false.
    destruct (decide (as_is_approved a = Some false)); naive_solver.
Qed.

Lemma generate_answer_for_spec question deleted added acc' :
  generate_answer_for now llm run st question (deleted, added) = Some acc' →
  (regenerated st question
   ∧ ∃ text, acc' = (deleted ++ (as_id <$> existing_answers st question),
                     added ++ [mkAnswerStaging 0 (r_id run) (qs_id question) text
                                 None now]))
  ∨ (¬ regenerated st question ∧ acc' = (deleted, added)).
Proof.
  unfold generate_answer_for. fold (existing_answers st question).
  destruct (existsb _ _) eqn:He.
  - intros [= <-]. right. split; [|done].
    rewrite <- has_non_rejected_false. by rewrite He.
  - apply has_non_rejected_false in He.
    destruct (llm_generate_answer llm _ _) as [text|]; [|done]. cbn.
    intros [= <-]. left. eauto.
Qed.

Lemma generate_answers_loop_spec approved deleted added deleted' added' :
  generate_answers_loop now llm run st approved (deleted, added)
  = Some (deleted', added') →
  (∀ i, i ∈ deleted' ↔
        i ∈ deleted
        ∨ ∃ q a, q ∈ approved ∧ regenerated st q
                 ∧ a ∈ existing_answers st q ∧ as_id a = i)
  ∧ ∃ news, added' = added ++ news
            ∧ as_question_id <$> news = qs_id <$> filter (regenerated st) approved
            ∧ Forall (λ a, as_is_approved a = None ∧ as_run_id a = r_id run) news.
Proof.
  revert deleted added. induction approved as [|q approved IH]; intros deleted added.
  { cbn. intros [= <- <-]. split.
    - intros i. split; [by left|]. intros [?|(q & a & ?%elem_of_nil & _)]; done.
    - exists []. by rewrite app_nil_r. }
  cbn [generate_answers_loop].
  destruct (generate_answer_for now llm run st q (deleted, added)) as [[d1 a1]|] eqn:Hq;
    [|done].
  cbn [mbind option_bind]. intros Hloop. apply IH in Hloop as (Hdel & news & -> & Hq' & Hun).
  apply generate_answer_for_spec in Hq as [(Hreg & text & [= -> ->])|(Hreg & [= -> ->])].
  - split.
    + intros i. rewrite Hdel, elem_of_app, list_elem_of_fmap. split.
      * intros [[?|(a & -> & Ha)]|(q' & a & Hin & ?)]; [by left| |].
        -- right. exists q, a. split_and!; [apply elem_of_cons; by left|done..].
        -- right. exists q', a. split; [apply elem_of_cons; by right|done].
      * intros [?|(q' & a & [->|Hin]%elem_of_cons & ? & ? & ?)]; [by left; left| |].
        -- left. right. by exists a.
        -- right. exists q', a. done.
    + exists (mkAnswerStaging 0 (r_id run) (qs_id q) text None now :: news).
      rewrite filter_cons, decide_True by done.
      split_and!; [by rewrite <- app_assoc|by rewrite !fmap_cons, Hq'|].
      by apply Forall_cons.
  - split.
    + intros i. rewrite Hdel. split.
      * intros [?|(q' & a & Hin & ?)]; [by left|].
        right. exists q', a. split; [apply elem_of_cons; by right|done].
      * intros [?|(q' & a & [->|Hin]%elem_of_cons & ? & ? & ?)]; [by left|done|].
        right. exists q', a. done.
    + exists news. rewrite filter_cons, decide_False by done. done.
Qed.

Lemma foldl_insert_staging_answer ans added :
  foldl insert_staging_answer ans added
  = ans ++ inserted_staging (as_id <$> ans) added.
Proof.
  revert ans. induction added as [|a added IH]; intros ans.
  { cbn. by rewrite app_nil_r. }
  cbn [foldl inserted_staging]. rewrite IH. unfold insert_staging_answer.
  rewrite fmap_app, <- app_assoc. done.
Qed.

Lemma inserted_staging_spec ids added :
  as_question_id <$> inserted_staging ids added = as_question_id <$> added
  ∧ as_is_approved <$> inserted_staging ids added = as_is_approved <$> added
  ∧ ∀ a, a ∈ inserted_staging ids added → ∀ x, x ∈ ids → x < as_id a.
Proof.
  revert ids. induction added as [|a added IH]; intros ids.
  { split_and!; [done..|]. by intros a ?%elem_of_nil. }
  cbn. destruct (IH (ids ++ [next_rowid ids])) as (H1 & H2 & H3).
  rewrite H1, H2. split_and!; [done..|].
  intros a' [->|Hin]%elem_of_cons x Hx.
  - by apply next_rowid_gt.
  - apply (H3 a' Hin), elem_of_app. by left.
Qed.

End generate.

Lemma inserted_staging_elem ids added a :
  a ∈ inserted_staging ids added →
  ∃ a0, a0 ∈ added ∧ as_question_id a = as_question_id a0
        ∧ as_is_approved a = as_is_approved a0 ∧ as_run_id a = as_run_id a0.
Proof.
  revert ids. induction added as [|a0 added IH]; intros ids;
    [by intros ?%elem_of_nil|].
  cbn. intros [->|Hin]%elem_of_cons.
  - exists a0. split; [apply elem_of_cons; by left|done].
  - apply IH in Hin as (a1 & ? & ?). exists a1.
    split; [apply elem_of_cons; by right|done].
Qed.

Lemma filter_filter_implied {A} (P Q : A → Prop)
    `{!∀ x, Decision (P x), !∀ x, Decision (Q x)} (l : list A) :
  (∀ x, x ∈ l → P x → Q x) → filter P (filter Q l) = filter P l.
Proof.
  induction l as [|x l IH]; intros Himp; [done|].
  assert (filter P (filter Q l) = filter P l) as IH'.
  { apply IH. intros y Hy. apply Himp, elem_of_cons. by right. }
  rewrite (filter_cons Q), (filter_cons P).
  destruct (decide (Q x)) as [HQ|HQ].
  - by rewrite filter_cons, IH'.
  - rewrite IH'. rewrite decide_False; [done|].
    intros HP. apply HQ. apply Himp; [apply elem_of_cons; by left|done].
Qed.

Lemma NoDup_filter_eq_length (k : Z) (l : list Z) :
  NoDup l → length (filter (λ x, x = k) l) = if decide (k ∈ l) then 1%nat else 0%nat.
Proof.
  induction 1 as [|x l Hx Hnd IH]; [done|].
  rewrite filter_cons. destruct (decide (x = k)) as [->|Hne]; cbn; rewrite IH.
  - rewrite decide_False by done. rewrite decide_True by (apply elem_of_cons; by left).
    done.
  - destruct (decide (k ∈ l)) as [Hk|Hk].
    + rewrite decide_True by (apply elem_of_cons; by right). done.
    + rewrite decide_False; [done|]. intros [->|?]%elem_of_cons; done.
Qed.

Lemma length_filter_fmap_eq {A} (f : A → Z) (k : Z) (l : list A) :
  length (filter (λ a, f a = k) l) = length (filter (λ x, x = k) (f <$> l)).
Proof.
  induction l as [|a l IH]; [done|].
  rewrite fmap_cons, !filter_cons. case_decide; cbn; by rewrite IH.
Qed.

Section generate_answers_call.
Context (now : Z) (llm : LLMService) (run_id : string) (st st' : Store).
Context (created : list AnswerStaging).
Context (Hwf : store_wf st).
Context (Hcall : generate_answers now (Some llm) run_id st = (st', Ok created)).

Lemma generate_answers_inv :
  ∃ run deleted added,
    find_run run_id st = Some run
    ∧ approved_questions run_id st ≠ []
    ∧ generate_answers_loop now llm run st (approved_questions run_id st) ([], [])
      = Some (deleted, added)
    ∧ created = inserted_staging (as_id <$> answer_staging st) added
    ∧ st' = mkStore (runs st) (question_staging st)
              (filter (λ a, as_id a ∉ deleted) (answer_staging st ++ created))
              (questions st) (answers st) (tags st).
Proof.
  revert Hcall. unfold generate_answers.
  destruct (find_run run_id st) as [run|]; [|done].
  destruct (approved_questions run_id st) as [|q0 AQ0] eqn:HAQ; [done|].
  destruct (generate_answers_loop _ _ _ _ _ _) as [[deleted added]|] eqn:Hloop; [|done].
  rewrite foldl_insert_staging_answer, drop_app_length.
  intros [= <- <-]. exists run, deleted, added. done.
Qed.

Lemma staging_answer_eq_of_id a a' :
  a ∈ answer_staging st → a' ∈ answer_staging st → as_id a = as_id a' → a = a'.
Proof.
  intros [i Hi]%list_elem_of_lookup [j Hj]%list_elem_of_lookup Hid.
  assert (i = j) as ->; [|congruence].
  destruct Hwf as [_ [Hnd _] _ _].
  eapply NoDup_lookup; [exact Hnd| |]; rewrite list_lookup_fmap.
  - by rewrite Hi.
  - rewrite Hj. cbn. by rewrite Hid.
Qed.

(** What the call does for one approved question of the run. *)
Lemma generate_answers_question question :
  question ∈ approved_questions run_id st →
  (regenerated st question →
     (∃ a, existing_answers st' question = [a] ∧ as_is_approved a = None
           ∧ a ∈ created ∧ as_id a ∉ as_id <$> answer_staging st)
     ∧ ∀ a, a ∈ existing_answers st question → a ∉ answer_staging st')
  ∧ (¬ regenerated st question →
       existing_answers st' question = existing_answers st question
       ∧ ∀ a, a ∈ created → as_question_id a ≠ qs_id question).
Proof.
  intros Hq.
  destruct generate_answers_inv as (run & deleted & added & Hrun & _ & Hloop & Hcr & ->).
  apply generate_answers_loop_spec in Hloop as (Hdel & news & Hadd & Hqid & Hun).
  cbn in Hadd. subst added.
  destruct (inserted_staging_spec (as_id <$> answer_staging st) news)
    as (Hiq & _ & Hfresh). rewrite <- Hcr in Hiq, Hfresh.
  pose proof (NoDup_AQ run_id st Hwf) as HndAQ.
  (* the inserted rows are never among the deleted ones *)
  assert (∀ a, a ∈ created → as_id a ∉ deleted) as Hkeep.
  { intros a Ha Hd. apply Hdel in Hd as [?%elem_of_nil|(q' & a0 & _ & _ & Ha0 & Hid)];
      [done|].
    apply list_elem_of_filter in Ha0 as [_ Ha0].
    assert (as_id a0 < as_id a) by (apply (Hfresh a Ha); by apply list_elem_of_fmap_2).
    lia. }
  assert (filter (λ a, as_id a ∉ deleted) created = created) as Hkc
    by (by apply filter_all).
  (* the rows of the question among the inserted ones *)
  assert (length (filter (λ a, as_question_id a = qs_id question) created)
          = if decide (regenerated st question) then 1%nat else 0%nat) as Hlen.
  { rewrite length_filter_fmap_eq, Hiq, Hqid, NoDup_filter_eq_length
      by (by apply NoDup_fmap_filter).
    destruct (decide (regenerated st question)) as [Hr|Hr].
    - rewrite decide_True; [done|]. apply list_elem_of_fmap_2.
      apply list_elem_of_filter. done.
    - rewrite decide_False; [done|].
      intros (q' & Hid & [Hr' Hq']%list_elem_of_filter)%list_elem_of_fmap.
      by rewrite (AQ_eq_of_id run_id st Hwf question q' Hq Hq' Hid) in Hr. }
  unfold existing_answers in *. cbn [answer_staging].
  rewrite !filter_app, Hkc.
  split.
  - intros Hr. rewrite decide_True in Hlen by done.
    assert (filter (λ a, as_question_id a = qs_id question)
              (filter (λ a, as_id a ∉ deleted) (answer_staging st)) = []) as ->.
    { apply filter_nil_Forall. intros a [Hk Ha]%list_elem_of_filter Hqa.
      apply Hk, Hdel. right. exists question, a.
      split_and!; [done..| |done]. by apply list_elem_of_filter. }
    destruct (filter (λ a, as_question_id a = qs_id question) created)
      as [|a [|]] eqn:Hf; try done.
    assert (a ∈ created) as Ha.
    { assert (a ∈ filter (λ a, as_question_id a = qs_id question) created) as Hin
        by (rewrite Hf; apply elem_of_cons; by left).
      by apply list_elem_of_filter in Hin as [_ ?]. }
    split.
    + exists a. split_and!; [done| |done|].
      * rewrite Hcr in Ha. apply inserted_staging_elem in Ha as (a0 & Ha0 & _ & -> & _).
        rewrite Forall_forall in Hun. by apply Hun.
      * intros (a0 & Hid & Ha0)%list_elem_of_fmap.
        assert (as_id a0 < as_id a) by (apply (Hfresh a Ha); by apply list_elem_of_fmap_2).
        lia.
    + intros a0 Ha0 [Hin|Hin]%elem_of_app.
      * apply list_elem_of_filter in Hin as [Hk Hin].
        apply Hk, Hdel. right. exists question, a0. done.
      * apply list_elem_of_filter in Ha0 as [_ Ha0].
        assert (as_id a0 < as_id a0)
          by (apply (Hfresh a0 Hin); by apply list_elem_of_fmap_2).
        lia.
  - intros Hr. rewrite decide_False in Hlen by done.
    apply nil_length_inv in Hlen. rewrite Hlen, app_nil_r. split.
    + apply filter_filter_implied. intros a Ha Hqa Hd.
      apply Hdel in Hd as [?%elem_of_nil|(q' & a' & Hq' & Hr' & Ha' & Hid)]; [done|].
      apply list_elem_of_filter in Ha' as [Hqa' Ha'].
      apply (staging_answer_eq_of_id a' a Ha' Ha) in Hid as ->.
      rewrite Hqa in Hqa'.
      by rewrite (AQ_eq_of_id run_id st Hwf question q' Hq Hq' Hqa') in Hr.
    + intros a Ha Hqa.
      assert (a ∈ filter (λ a, as_question_id a = qs_id question) created) as Hin
        by (by apply list_elem_of_filter).
      rewrite Hlen in Hin. by apply elem_of_nil in Hin.
Qed.

Lemma generate_answers_loop_skip now' llm' run' st0 approved acc :
  (∀ q, q ∈ approved → ¬ regenerated st0 q) →
  generate_answers_loop now' llm' run' st0 approved acc = Some acc.
Proof.
  induction approved as [|q approved IH]; intros Hall; [done|].
  cbn [generate_answers_loop]. destruct acc as [deleted added].
  unfold generate_answer_for. fold (existing_answers st0 q).
  destruct (existsb _ _) eqn:He.
  - cbn. apply IH. intros q' Hq'. apply Hall, elem_of_cons. by right.
  - apply has_non_rejected_false in He. exfalso.
    apply (Hall q); [apply elem_of_cons; by left|done].
Qed.

(** After a successful call every approved question of the run has an
    answer that is pending or approved. *)
Lemma generate_answers_settled question :
  question ∈ approved_questions run_id st → ¬ regenerated st' question.
Proof.
  intros Hq Hr'. destruct (generate_answers_question question Hq) as [H1 H2].
  destruct (decide (regenerated st question)) as [Hr|Hr].
  - destruct (H1 Hr) as [(a & Ha & Hnone & _) _]. unfold regenerated in Hr'.
    rewrite Ha, Forall_singleton in Hr'. congruence.
  - destruct (H2 Hr) as [He _]. unfold regenerated in Hr', Hr. by rewrite He in Hr'.
Qed.

(** A second call creates nothing and leaves the store as it is. *)
Lemma generate_answers_again now' llm' :
  generate_answers now' (Some llm') run_id st' = (st', Ok []).
Proof.
  pose proof generate_answers_settled as Hset.
  destruct generate_answers_inv as (run & deleted & added & Hrun & HAQ & _ & _ & Hst).
  assert (find_run run_id st' = Some run) as Hrun' by (by rewrite Hst).
  assert (approved_questions run_id st' = approved_questions run_id st) as HAQ'
    by (by rewrite Hst).
  unfold generate_answers. rewrite Hrun', HAQ'.
  destruct (approved_questions run_id st) as [|q0 AQ0] eqn:HAQ0; [done|].
  rewrite generate_answers_loop_skip by done.
  cbn [foldl]. rewrite drop_all, filter_all by (intros a _ ?%elem_of_nil; done).
  by destruct st'.
Qed.

End generate_answers_call.

(** C7. Answer regeneration gating: in a successful call of
    generate-answers, an approved question of the run whose existing
    staging answers are all rejected (one rejected answer, several, or
    none at all) loses those answers and gets exactly one new staging
    answer, pending; a question with an answer that is pending or
    approved keeps its answers and gets none; and a second call finds
    nothing to do: it creates no answer and leaves the store as it
    is. *)
Theorem generate_answers_gating now llm run_id st st' created question :
  store_wf st →
  generate_answers now (Some llm) run_id st = (st', Ok created) →
  question ∈ approved_questions run_id st →
  (Forall (λ a, as_is_approved a = Some false) (existing_answers st question) →
     (∃ a, existing_answers st' question = [a] ∧ as_is_approved a = None
           ∧ a ∈ created ∧ as_id a ∉ as_id <$> answer_staging st)
     ∧ ∀ a, a ∈ existing_answers st question → a ∉ answer_staging st')
  ∧ (¬ Forall (λ a, as_is_approved a = Some false) (existing_answers st question) →
       existing_answers st' question = existing_answers st question
       ∧ ∀ a, a ∈ created → as_question_id a ≠ qs_id question)
  ∧ (∀ now' llm', generate_answers now' (Some llm') run_id st' = (st', Ok [])).
Proof.
  intros Hwf Hcall Hq.
  destruct (generate_answers_question now llm run_id st st' created Hwf Hcall
              question Hq) as [H1 H2].
  split_and!; [exact H1|exact H2|].
  intros now' llm'. by eapply generate_answers_again.
Qed.

Lemma generate_answers_gating_witness :
  let question := mkQuestionStaging 1 "r" "q1" (Some true) 2 ∅ in
  let st' := (generate_answers 9 (Some example_llm) "r" example_approved).1 in
  (∃ a, existing_answers st' question = [a] ∧ as_is_approved a = None
        ∧ as_id a ∉ as_id <$> answer_staging example_approved)
  ∧ (∀ a, a ∈ existing_answers example_approved question → a ∉ answer_staging st')
  ∧ generate_answers 10 (Some example_llm) "r" st' = (st', Ok []).
Proof.
  cbn zeta.
  destruct (generate_answers_gating 9 example_llm "r" example_approved
              (generate_answers 9 (Some example_llm) "r" example_approved).1
              [mkAnswerStaging 3 "r" 1 "answer to q1" None 9]
              (mkQuestionStaging 1 "r" "q1" (Some true) 2 ∅))
    as (H1 & _ & H3).
  - solve_store_wf.
  - by vm_compute.
  - compute_done.
  - destruct H1 as [(a & ? & ? & _ & ?) ?].
    + unfold regenerated. compute_done.
    + split_and!; [by exists a|done|apply H3].
Defined.

(** ** Rejecting a question *)

Lemma find_staging_question_Some i st q :
  find_staging_question i st = Some q → q ∈ question_staging st ∧ qs_id q = i.
Proof.
  unfold find_staging_question. destruct (list_find _ _) as [[j r]|] eqn:Hf; [|done].
  intros [= <-]. apply list_find_Some in Hf as (Hi & ? & _).
  split; [by eapply list_elem_of_lookup_2|done].
Qed.

Lemma find_staging_answer_Some i st a :
  find_staging_answer i st = Some a → a ∈ answer_staging st ∧ as_id a = i.
Proof.
  unfold find_staging_answer. destruct (list_find _ _) as [[j r]|] eqn:Hf; [|done].
  intros [= <-]. apply list_find_Some in Hf as (Hi & ? & _).
  split; [by eapply list_elem_of_lookup_2|done].
Qed.

Lemma update_staging_question_ids i f l :
  (∀ q, qs_id q = i → qs_id (f q) = i) →
  qs_id <$> update_staging_question i f l = qs_id <$> l.
Proof.
  intros Hf. unfold update_staging_question. rewrite <- list_fmap_compose.
  apply list_fmap_ext. intros _ q _. cbn. case_decide; [|done].
  rewrite Hf; done.
Qed.

Lemma update_staging_answer_ids i f l :
  (∀ a, as_id a = i → as_id (f a) = i) →
  as_id <$> update_staging_answer i f l = as_id <$> l.
Proof.
  intros Hf. unfold update_staging_answer. rewrite <- list_fmap_compose.
  apply list_fmap_ext. intros _ a _. cbn. case_decide; [|done].
  rewrite Hf; done.
Qed.

Lemma pk_ok_filter {A} (f : A → Z) (P : A → Prop) `{!∀ x, Decision (P x)}
    (l : list A) :
  pk_ok (f <$> l) → pk_ok (f <$> filter P l).
Proof.
  intros [Hnd Hpos]. split; [by apply NoDup_fmap_filter|].
  rewrite Forall_forall in Hpos |- *. intros x (a & -> & Ha)%list_elem_of_fmap.
  apply list_elem_of_filter in Ha as [_ Ha]. apply Hpos. by apply list_elem_of_fmap_2.
Qed.

Lemma pk_ok_pos {A} (f : A → Z) (l : list A) x :
  pk_ok (f <$> l) → x ∈ l → 0 < f x.
Proof.
  intros [_ Hpos] Hx. rewrite Forall_forall in Hpos.
  by apply Hpos, list_elem_of_fmap_2.
Qed.

Section reject.
Context (now : Z) (question_id : Z) (b : bool) (st st1 : Store).
Context (question : QuestionStaging).
Context (Hwf : store_wf st).
Context (Hcall : update_question_approval now question_id b st = (st1, Ok question)).

Lemma update_question_approval_inv :
  ∃ q0, q0 ∈ question_staging st ∧ qs_id q0 = question_id
        ∧ question = mkQuestionStaging (qs_id q0) (qs_run_id q0)
                       (qs_question_text q0) (Some b) now (qs_tags q0)
        ∧ st1 = mkStore
                  (touch_staging now (qs_run_id q0) (runs st))
                  (update_staging_question (qs_id q0) (λ _, question)
                     (question_staging st))
                  (if b then answer_staging st
                   else filter (λ a, as_question_id a ≠ question_id)
                          (answer_staging st))
                  (questions st) (answers st) (tags st).
Proof.
  revert Hcall. unfold update_question_approval.
  destruct (find_staging_question question_id st) as [q0|] eqn:Hq0; [|done].
  intros [= Hst Hq]. apply find_staging_question_Some in Hq0 as [? ?].
  exists q0. by rewrite <- Hst, <- Hq.
Qed.

Lemma update_question_approval_wf : store_wf st1.
Proof.
  destruct update_question_approval_inv as (q0 & _ & _ & Hq & Hst). rewrite Hst.
  destruct Hwf as [Hqs Has Hq' Ha]. split; cbn; [|destruct b|done|done].
  - rewrite update_staging_question_ids; [done|]. intros q' _. by rewrite Hq.
  - done.
  - by apply pk_ok_filter.
Qed.

(** Every staging row carrying the id now has the new state. *)
Lemma update_question_approval_state sq :
  sq ∈ question_staging st1 → qs_id sq = question_id →
  qs_is_approved sq = Some b.
Proof.
  destruct update_question_approval_inv as (q0 & _ & Hid & Hq & Hst).
  rewrite Hst. cbn.
  unfold update_staging_question. intros (sq0 & -> & _)%list_elem_of_fmap.
  case_decide; [by rewrite Hq|]. congruence.
Qed.

Lemma update_question_approval_published :
  questions st1 = questions st ∧ answers st1 = answers st.
Proof. destruct update_question_approval_inv as (q0 & _ & _ & _ & Hst). by rewrite Hst. Qed.

End reject.

Section unapproved.
Context (now : Z) (run_id : string) (st : Store).
Context (Hwf : store_wf st).
Context (q : Question) (s : Z).
Context (Hq : q ∈ synced_questions now run_id st).
Context (Hs : q_staging_id q = Some s) (Hs0 : s ≠ 0).
Context (HAq : s ∉ approved_staging_question_ids run_id st).

(** The answers of the run under a published question whose staging
    question is not approved are gone after the pass. *)
Lemma synced_answers_under_unapproved a :
  a ∈ synced_answers now run_id st → a_run_id a = run_id →
  a_question_id a ≠ q_id q.
Proof.
  intros Ha Hr Hqa. unfold synced_answers in Ha.
  apply list_elem_of_filter in Ha as [Hk _]. apply Hk. split; [done|].
  unfold should_delete. apply orb_true_iff. right.
  pose proof (synced_questions_pk now run_id st Hwf) as Hpk.
  rewrite Hqa, (find_question_elem _ _ (proj1 Hpk) Hq), Hs.
  assert (0 < q_id q) by (by apply (pk_ok_pos q_id _ q Hpk)).
  unfold truthy.
  rewrite !andb_true_iff, !negb_true_iff, !Z.eqb_neq, bool_decide_eq_true.
  split_and!; [lia|done..].
Qed.

Lemma synced_answers_in_run a :
  answers_in_run st → q_run_id q = run_id →
  a ∈ synced_answers now run_id st → a_question_id a = q_id q →
  a_run_id a = run_id.
Proof.
  intros Hint Hr Ha Hqa. unfold synced_answers in Ha.
  apply list_elem_of_filter in Ha as [_ [Ha|Ha]%elem_of_app].
  - unfold rewritten_answers in Ha. apply list_elem_of_fmap in Ha as (a0 & -> & Ha0).
    pose proof (answered_key now run_id (pass_target now run_id st) (answers st)
                  (approved_answers run_id st) a0) as Hk.
    injection Hk as _ Hkr Hkq _. rewrite Hkr. rewrite Hkq in Hqa.
    unfold synced_questions in Hq. apply list_elem_of_fmap in Hq as (q2 & -> & Hq2).
    pose proof (demoted_key now run_id (approved_staging_question_ids run_id st)
                  (approved_questions_with_answers run_id st) q2) as Hk2.
    injection Hk2 as Hi2 Hr2 Hs2. rewrite Hi2 in Hqa. rewrite Hr2 in Hr.
    rewrite Hs2 in Hs.
    unfold upserted_questions in Hq2. apply elem_of_app in Hq2 as [Hq2|Hq2].
    + apply list_elem_of_fmap in Hq2 as (q0 & -> & Hq0).
      pose proof (upserted_key now (approved_questions_with_answers run_id st)
                    (staging_to_actual_question run_id (questions st))
                    (approved_questions run_id st) q0) as Hk0.
      injection Hk0 as Hi0 Hr0 _. rewrite Hi0 in Hqa. rewrite Hr0 in Hr.
      rewrite <- Hr. by apply Hint.
    + apply created_spec in Hq2 as (sq & i & Hsq & _ & -> & _). cbn in Hs.
      injection Hs as <-. exfalso. apply HAq, elem_of_Aq. eauto.
  - apply inserted_spec in Ha as (na & j & _ & ->). done.
Qed.

End unapproved.

(** C4. Rejection cascade: rejecting a staging question deletes every
    staging answer of that question; and after the next successful pass
    over the question's run, every published question derived from it
    has its flag false and no published answer of the run hangs under
    it, whatever happened to the question before (approval, answer
    generation, answer approval, earlier passes).  Where every
    published answer belongs to the run of its question, no published
    answer at all hangs under it. *)
Theorem rejection_cascade now1 now2 question_id st st1 question st2 res :
  store_wf st →
  update_question_approval now1 question_id false st = (st1, Ok question) →
  sync_to_actual now2 (qs_run_id question) None st1 = (st2, Ok res) →
  (∀ a, a ∈ answer_staging st1 → as_question_id a ≠ question_id)
  ∧ ∀ q, q ∈ questions st2 → q_run_id q = qs_run_id question →
         q_staging_id q = Some question_id →
         q_is_approved q = false
         ∧ (∀ a, a ∈ answers st2 → a_run_id a = qs_run_id question →
                 a_question_id a ≠ q_id q)
         ∧ (answers_in_run st → ∀ a, a ∈ answers st2 → a_question_id a ≠ q_id q).
Proof.
  intros Hwf Hrej Hsync.
  pose proof (update_question_approval_wf _ _ _ _ _ _ Hwf Hrej) as Hwf1.
  pose proof (update_question_approval_state _ _ _ _ _ _ Hrej) as Hstate.
  destruct (update_question_approval_published _ _ _ _ _ _ Hrej) as [Hpq Hpa].
  destruct (update_question_approval_inv _ _ _ _ _ _ Hrej)
    as (q0 & Hq0 & Hid & Hquestion & Hst1).
  apply sync_to_actual_ok in Hsync as (_ & -> & _); [|done].
  set (run_id := qs_run_id question) in *.
  assert (question_id ≠ 0) as Hne.
  { destruct Hwf as [Hpk _ _ _]. pose proof (pk_ok_pos qs_id _ q0 Hpk Hq0). lia. }
  assert (question_id ∉ approved_staging_question_ids run_id st1) as HAq.
  { intros (sq & (Hsq & _ & Happ)%elem_of_approved_questions & Hsid)%elem_of_Aq.
    rewrite (Hstate sq Hsq Hsid) in Happ. done. }
  split.
  - rewrite Hst1. cbn. by intros a [? _]%list_elem_of_filter.
  - intros q Hq Hr Hs. cbn in Hq. split_and!.
    + destruct (synced_questions_in_sync now2 run_id st1 Hwf1) as [_ H2].
      apply (H2 q Hq). split; [done|]. exists question_id. auto.
    + intros a Ha. cbn in Ha.
      by apply (synced_answers_under_unapproved now2 run_id st1 Hwf1 q question_id).
    + intros Hint a Ha Hqa. cbn in Ha.
      apply (synced_answers_under_unapproved now2 run_id st1 Hwf1 q question_id
               Hq Hs Hne HAq a Ha); [|done].
      apply (synced_answers_in_run now2 run_id st1 q question_id Hq Hs Hne HAq);
        [|done..].
      unfold answers_in_run. by rewrite Hpq, Hpa.
Qed.

Lemma rejection_cascade_witness :
  (∀ a, a ∈ answer_staging (update_question_approval 6 1 false example_published).1 →
        as_question_id a ≠ 1)
  ∧ ∃ q, q ∈ questions
             (sync_to_actual 7 "r" None
                (update_question_approval 6 1 false example_published).1).1
         ∧ q_staging_id q = Some 1
         ∧ q_is_approved q = false
         ∧ ∀ a, a ∈ answers
                  (sync_to_actual 7 "r" None
                     (update_question_approval 6 1 false example_published).1).1 →
                a_run_id a = "r" → a_question_id a ≠ q_id q.
Proof.
  destruct (rejection_cascade 6 7 1 example_published
              (update_question_approval 6 1 false example_published).1
              (mkQuestionStaging 1 "r" "q1" (Some false) 6 ∅)
              (sync_to_actual 7 "r" None
                 (update_question_approval 6 1 false example_published).1).1
              (mkSyncResult 7 1)) as [H1 H2].
  - solve_store_wf.
  - by vm_compute.
  - by vm_compute.
  - split; [exact H1|].
    exists (mkQuestion 1 "r" (Some 1) "q1" false 7 ∅).
    destruct (H2 (mkQuestion 1 "r" (Some 1) "q1" false 7 ∅)) as (? & ? & _);
      [compute_done|done|done|].
    split_and!; [compute_done|done..].
Defined.

(** ** Tag mirroring *)

Lemma find_tag_cons name t ts :
  find_tag name (t :: ts)
  = if decide (tag_name t = name) then Some t else find_tag name ts.
Proof.
  unfold find_tag. cbn. case_decide; [done|].
  by destruct (list_find _ ts) as [[]|].
Qed.

Lemma find_tag_snoc name ts t :
  find_tag name (ts ++ [t])
  = match find_tag name ts with
    | Some x => Some x
    | None => if decide (tag_name t = name) then Some t else None
    end.
Proof.
  induction ts as [|t' ts IH]; cbn [app].
  - rewrite find_tag_cons. change (find_tag name []) with (@None Tag).
    by destruct (decide (tag_name t = name)).
  - rewrite !find_tag_cons.
    destruct (decide (tag_name t' = name)); [done|apply IH].
Qed.

(** Resolving a name that needs no stripping: the tag is found, or
    created at the end of the table. *)
Lemma resolve_tag_plain ts flushed objs name :
  strip name = name → name ≠ EmptyString →
  ∃ t ts' flushed',
    resolve_tag (ts, flushed, objs) name = (ts', flushed', objs ++ [tag_id t])
    ∧ find_tag name ts' = Some t
    ∧ ∀ name' t', find_tag name' ts = Some t' → find_tag name' ts' = Some t'.
Proof.
  intros Hstrip Hne. unfold resolve_tag. rewrite Hstrip, decide_False by done.
  destruct (find_tag name ts) as [t|] eqn:Hf.
  - exists t, ts, flushed. done.
  - exists (mkTag (next_rowid (tag_id <$> ts)) name), (ts ++ [mkTag (next_rowid (tag_id <$> ts)) name]), true.
    split_and!; [done| |].
    + rewrite find_tag_snoc, Hf. by rewrite decide_True.
    + intros name' t' Hf'. by rewrite find_tag_snoc, Hf'.
Qed.

Section tags_call.
Context (now : Z) (question_id : Z) (names : list string) (st st' : Store).
Context (ts : gset Z).
Context (Hwf : store_wf st).
Context (Hcall : update_question_tags now question_id names st = (st', Ok ts)).

Lemma update_question_tags_inv :
  ∃ q0 tbl flushed objs,
    q0 ∈ question_staging st ∧ qs_id q0 = question_id
    ∧ foldl (resolve_tag) (tags st, false, []) names = (tbl, flushed, objs)
    ∧ ts = list_to_set objs
    ∧ st' = mkStore
              (touch_staging now (qs_run_id q0) (runs st))
              (update_staging_question (qs_id q0)
                 (λ _, mkQuestionStaging (qs_id q0) (qs_run_id q0)
                         (qs_question_text q0) (qs_is_approved q0) now
                         (list_to_set objs))
                 (question_staging st))
              (answer_staging st) (questions st) (answers st) tbl.
Proof.
  revert Hcall. unfold update_question_tags.
  destruct (find_staging_question question_id st) as [q0|] eqn:Hq0; [|done].
  destruct (foldl _ _ names) as [[tbl flushed] objs] eqn:Hfold.
  case_decide; [|done]. intros [= Hst Hts].
  apply find_staging_question_Some in Hq0 as [? ?].
  exists q0, tbl, flushed, objs. by rewrite <- Hst, <- Hts.
Qed.

Lemma staging_question_eq_of_id q q' :
  q ∈ question_staging st → q' ∈ question_staging st → qs_id q = qs_id q' → q = q'.
Proof.
  intros [i Hi]%list_elem_of_lookup [j Hj]%list_elem_of_lookup Hid.
  assert (i = j) as ->; [|congruence].
  destruct Hwf as [[Hnd _] _ _ _].
  eapply NoDup_lookup; [exact Hnd| |]; rewrite list_lookup_fmap.
  - by rewrite Hi.
  - rewrite Hj. cbn. by rewrite Hid.
Qed.

Lemma update_question_tags_wf : store_wf st'.
Proof.
  destruct Hwf as [Hqs Has Hq Ha].
  destruct update_question_tags_inv as (q0 & tbl & fl & objs & _ & _ & _ & _ & Hst).
  rewrite Hst. split; cbn; [|done..].
  rewrite update_staging_question_ids; done.
Qed.

(** The staging row of the question after the call. *)
Lemma update_question_tags_row q0 :
  q0 ∈ question_staging st → qs_id q0 = question_id →
  ∃ q1 flushed objs,
    q1 ∈ question_staging st' ∧ qs_id q1 = question_id
    ∧ qs_run_id q1 = qs_run_id q0 ∧ qs_is_approved q1 = qs_is_approved q0
    ∧ qs_tags q1 = list_to_set objs
    ∧ foldl resolve_tag (tags st, false, []) names = (tags st', flushed, objs).
Proof.
  intros Hq0 Hid.
  destruct update_question_tags_inv
    as (q0' & tbl & fl & objs & Hq0' & Hid' & Hfold & Hts & Hst).
  rewrite Hst, Hfold. cbn.
  exists (if decide (qs_id q0 = qs_id q0')
          then mkQuestionStaging (qs_id q0') (qs_run_id q0') (qs_question_text q0')
                 (qs_is_approved q0') now (list_to_set objs)
          else q0), fl, objs.
  split.
  - unfold update_staging_question. apply list_elem_of_fmap. by exists q0.
  - rewrite decide_True by congruence. cbn.
    by rewrite (staging_question_eq_of_id q0 q0' Hq0 Hq0') by congruence.
Qed.

End tags_call.

Lemma sync_mirrors_tags now run_id st st' res sq :
  store_wf st →
  sync_to_actual now run_id None st = (st', Ok res) →
  sq ∈ approved_questions run_id st →
  ∃ q, q ∈ questions st'
       ∧ mapped run_id (questions st') (qs_id sq) = Some q
       ∧ q_tags q = qs_tags sq.
Proof.
  intros Hwf (_ & -> & _)%sync_to_actual_ok Hsq; [|done].
  destruct (synced_questions_in_sync now run_id st Hwf) as [H1 _].
  destruct (H1 sq Hsq) as (q & Hm & _ & _ & Htags). exists q.
  split_and!; [|done..]. by apply (mapped_Some run_id) in Hm as [? _].
Qed.

(** C8. Tag mirroring: after a successful pass the published question
    of every approved staging question of the run (the row the pass
    found or created for its [staging_id]) carries exactly the tag set
    the staging question has at that time, whatever tags the published
    row carried before.  In particular, for an approved staging
    question: setting its tags to a and b, syncing, setting them to b
    and c and syncing again leaves the published question with exactly
    the tags named b and c. *)
Theorem tag_mirroring :
  (∀ now run_id st st' res sq,
     store_wf st →
     sync_to_actual now run_id None st = (st', Ok res) →
     sq ∈ approved_questions run_id st →
     ∃ q, q ∈ questions st'
          ∧ mapped run_id (questions st') (qs_id sq) = Some q
          ∧ q_tags q = qs_tags sq)
  ∧ (∀ now1 now2 now3 now4 run_id question_id st q0 st1 ts1 st2 r2 st3 ts3 st4 r4,
       store_wf st →
       q0 ∈ question_staging st → qs_id q0 = question_id →
       qs_run_id q0 = run_id → qs_is_approved q0 = Some true →
       update_question_tags now1 question_id ["a"; "b"]%string st = (st1, Ok ts1) →
       sync_to_actual now2 run_id None st1 = (st2, Ok r2) →
       update_question_tags now3 question_id ["b"; "c"]%string st2 = (st3, Ok ts3) →
       sync_to_actual now4 run_id None st3 = (st4, Ok r4) →
       ∃ q tb tc,
         q ∈ questions st4
         ∧ mapped run_id (questions st4) question_id = Some q
         ∧ find_tag "b" (tags st4) = Some tb
         ∧ find_tag "c" (tags st4) = Some tc
         ∧ q_tags q = {[tag_id tb; tag_id tc]}).
Proof.
  split; [exact sync_mirrors_tags|].
  intros now1 now2 now3 now4 run_id question_id st q0 st1 ts1 st2 r2 st3 ts3 st4 r4
    Hwf Hq0 Hid Hrun Happ Ht1 Hs2 Ht3 Hs4.
  pose proof (update_question_tags_wf _ _ _ _ _ _ Hwf Ht1) as Hwf1.
  destruct (update_question_tags_row _ _ _ _ _ _ Hwf Ht1 q0 Hq0 Hid)
    as (q1 & _ & _ & Hq1 & Hid1 & Hrun1 & Happ1 & _).
  pose proof Hs2 as (_ & Hst2 & _)%sync_to_actual_ok; [|done].
  assert (store_wf st2) as Hwf2 by (rewrite Hst2; by apply synced_store_wf).
  assert (q1 ∈ question_staging st2) as Hq1' by (by rewrite Hst2).
  pose proof (update_question_tags_wf _ _ _ _ _ _ Hwf2 Ht3) as Hwf3.
  destruct (update_question_tags_row _ _ _ _ _ _ Hwf2 Ht3 q1 Hq1' Hid1)
    as (q3 & fl & objs & Hq3 & Hid3 & Hrun3 & Happ3 & Htags3 & Hfold).
  (* the two names resolve to the tags b and c of the final table *)
  cbn [foldl] in Hfold.
  destruct (resolve_tag_plain (tags st2) false [] "b") as (tb & T1 & f1 & Hb & Hfb & Hp1);
    [done..|].
  rewrite Hb in Hfold.
  destruct (resolve_tag_plain T1 f1 ([] ++ [tag_id tb]) "c")
    as (tc & T2 & f2 & Hc & Hfc & Hp2); [done..|].
  rewrite Hc in Hfold. injection Hfold as HT _ Hobjs.
  (* the last pass mirrors the staging tags *)
  assert (q3 ∈ approved_questions run_id st3) as HAQ.
  { apply elem_of_approved_questions. split_and!; [done|congruence..]. }
  destruct (sync_mirrors_tags now4 run_id st3 st4 r4 q3 Hwf3 Hs4 HAQ)
    as (q & Hq & Hm & Htags).
  apply sync_to_actual_ok in Hs4 as (_ & -> & _); [|done].
  exists q, tb, tc. rewrite Hid3 in Hm.
  change (tags (synced_store now4 run_id st3)) with (tags st3). rewrite <- HT.
  split_and!; [done|done|by apply Hp2|done|].
  rewrite Htags, Htags3, <- Hobjs. cbn. set_solver.
Qed.

Lemma tag_mirroring_witness :
  ∃ q tb tc,
    q ∈ questions
          (sync_to_actual 13 "r" None
             (update_question_tags 12 1 ["b"; "c"]%string
                (sync_to_actual 11 "r" None
                   (update_question_tags 10 1 ["a"; "b"]%string
                      example_published).1).1).1).1
    ∧ mapped "r"
        (questions
           (sync_to_actual 13 "r" None
              (update_question_tags 12 1 ["b"; "c"]%string
                 (sync_to_actual 11 "r" None
                    (update_question_tags 10 1 ["a"; "b"]%string
                       example_published).1).1).1).1) 1 = Some q
    ∧ find_tag "b"
        (tags
           (sync_to_actual 13 "r" None
              (update_question_tags 12 1 ["b"; "c"]%string
                 (sync_to_actual 11 "r" None
                    (update_question_tags 10 1 ["a"; "b"]%string
                       example_published).1).1).1).1) = Some tb
    ∧ find_tag "c"
        (tags
           (sync_to_actual 13 "r" None
              (update_question_tags 12 1 ["b"; "c"]%string
                 (sync_to_actual 11 "r" None
                    (update_question_tags 10 1 ["a"; "b"]%string
                       example_published).1).1).1).1) = Some tc
    ∧ q_tags q = {[tag_id tb; tag_id tc]}.
Proof.
  apply (proj2 tag_mirroring 10 11 12 13 "r" 1 example_published
           (mkQuestionStaging 1 "r" "q1" (Some true) 2 ∅)
           (update_question_tags 10 1 ["a"; "b"]%string example_published).1
           {[1; 2]}
           (sync_to_actual 11 "r" None
              (update_question_tags 10 1 ["a"; "b"]%string example_published).1).1
           (mkSyncResult 11 1)
           (update_question_tags 12 1 ["b"; "c"]%string
              (sync_to_actual 11 "r" None
                 (update_question_tags 10 1 ["a"; "b"]%string
                    example_published).1).1).1
           {[2; 3]}
           _ (mkSyncResult 13 1)).
  - solve_store_wf.
  - compute_done.
  - done.
  - done.
  - done.
  - by vm_compute.
  - by vm_compute.
  - by vm_compute.
  - by vm_compute.
Defined.

(** ** The reconciliation key *)

Section unique.
Context (now : Z) (run_id : string) (st : Store).
Context (Hwf : store_wf st).

Abbreviation AQ := (approved_questions run_id st).
Abbreviation Aq := (approved_staging_question_ids run_id st).
Abbreviation Wq := (approved_questions_with_answers run_id st).
Abbreviation m0 := (staging_to_actual_question run_id (questions st)).
Abbreviation qs2 := (upserted_questions now run_id st).
Abbreviation qs4 := (synced_questions now run_id st).

Lemma unique_staging_ids_keys qs qs' :
  q_key <$> qs = q_key <$> qs' →
  unique_staging_ids run_id qs → unique_staging_ids run_id qs'.
Proof.
  intros Hk Hu q q' Hq Hq' Hr Hr' Hs Hn.
  assert (∀ x, x ∈ qs' → ∃ y, y ∈ qs ∧ q_key y = q_key x) as Hback.
  { intros x Hx. apply (list_elem_of_fmap_2 q_key) in Hx. rewrite <- Hk in Hx.
    apply list_elem_of_fmap in Hx as (y & ? & ?). eauto. }
  destruct (Hback q Hq) as (y & Hy & [= Hi Hyr Hys]).
  destruct (Hback q' Hq') as (y' & Hy' & [= Hi' Hyr' Hys']).
  rewrite <- Hi, <- Hi'. apply Hu; congruence.
Qed.

(** Under the key, the dictionary holds every keyed row of the run. *)
Lemma mapped_unique qs q s :
  NoDup (q_id <$> qs) → unique_staging_ids run_id qs →
  q ∈ qs → q_run_id q = run_id → q_staging_id q = Some s →
  mapped run_id qs s = Some q.
Proof.
  intros Hnd Hu Hq Hr Hs.
  destruct (mapped run_id qs s) as [q'|] eqn:Hm.
  - pose proof Hm as (Hq' & Hr' & Hs')%mapped_Some. f_equal.
    assert (q_id q' = q_id q) as Hid by (apply Hu; congruence).
    apply (find_question_elem _ _ Hnd) in Hq, Hq'. congruence.
  - exfalso. by apply (proj1 (mapped_None run_id qs s) Hm q).
Qed.

Lemma unique_upserted :
  unique_staging_ids run_id (questions st) → unique_staging_ids run_id qs2.
Proof.
  intros Hu q q' Hq Hq' Hr Hr' Hs Hn.
  destruct (q_staging_id q) as [s|] eqn:Hqs; [|done]. symmetry in Hs.
  assert (∀ x, x ∈ qs2 → q_run_id x = run_id → q_staging_id x = Some s →
            (∃ x0, x0 ∈ questions st ∧ q_key x0 = q_key x)
            ∨ ∃ sq i, sq ∈ AQ ∧ m0 !! qs_id sq = None ∧ qs_id sq = s
                      ∧ x = new_question now run_id Wq i sq
                      ∧ x ∈ created now run_id Wq m0 (q_id <$> questions st) AQ)
    as Hcase.
  { intros x Hx Hxr Hxs. unfold upserted_questions in Hx.
    apply elem_of_app in Hx as [Hx|Hx].
    - left. apply list_elem_of_fmap in Hx as (x0 & -> & Hx0). exists x0.
      split; [done|]. symmetry. apply upserted_key.
    - right. pose proof Hx as (sq & i & Hsq & Hm & -> & _)%created_spec.
      exists sq, i. cbn in Hxs. injection Hxs as Hxs. done. }
  destruct (Hcase q Hq Hr Hqs) as [(x0 & Hx0 & [= Hi0 Hr0 Hs0])
                                  |(sq & i & Hsq & Hm & Hsid & Hnew & Hc)];
  destruct (Hcase q' Hq' Hr' Hs) as [(x0' & Hx0' & [= Hi0' Hr0' Hs0'])
                                    |(sq' & i' & Hsq' & Hm' & Hsid' & Hnew' & Hc')].
  - rewrite <- Hi0, <- Hi0'. apply Hu; congruence.
  - exfalso. rewrite staging_map_lookup in Hm'.
    destruct (mapped run_id (questions st) (qs_id sq')) eqn:Hmm; [done|].
    apply (proj1 (mapped_None run_id _ _) Hmm x0 Hx0); congruence.
  - exfalso. rewrite staging_map_lookup in Hm.
    destruct (mapped run_id (questions st) (qs_id sq)) eqn:Hmm; [done|].
    apply (proj1 (mapped_None run_id _ _) Hmm x0' Hx0'); congruence.
  - destruct (created_filter now run_id Wq m0 (q_id <$> questions st) AQ sq
                (NoDup_AQ run_id st Hwf) Hsq Hm) as [j Hf].
    assert (∀ x, x ∈ created now run_id Wq m0 (q_id <$> questions st) AQ →
              q_staging_id x = Some (qs_id sq) → q_run_id x = run_id →
              x = new_question now run_id Wq j sq) as Hone.
    { intros x Hx Hxs Hxr.
      assert (x ∈ filter (λ q, q_run_id q = run_id ∧ q_staging_id q = Some (qs_id sq))
                (created now run_id Wq m0 (q_id <$> questions st) AQ)) as Hin
        by (by apply list_elem_of_filter).
      rewrite Hf in Hin. by apply list_elem_of_singleton in Hin. }
    rewrite (Hone q Hc), (Hone q' Hc'); [done|congruence..].
Qed.

Lemma unique_synced :
  unique_staging_ids run_id (questions st) → unique_staging_ids run_id qs4.
Proof.
  intros Hu. apply (unique_staging_ids_keys qs2); [|by apply unique_upserted].
  symmetry. apply synced_questions_keys.
Qed.

End unique.

(** ** Counting a demotion *)

Lemma sync_to_actual_noop now run_id st :
  store_wf st → questions_in_sync run_id st → is_Some (find_run run_id st) →
  sync_to_actual now run_id None st
  = (synced_store now run_id st, Ok (mkSyncResult now 0)).
Proof.
  intros Hwf Hq [run Hrun].
  rewrite (sync_to_actual_closed now run_id st Hwf run Hrun).
  by rewrite (noop_count now run_id st Hwf Hq).
Qed.

(** A row whose flag is already false adds nothing to the count, in
    the upsert loop (when its tags agree) and in the demotion loop. *)
Lemma upsert_question_false now run_id Wq sq m qs n q :
  m !! qs_id sq ≫= (λ i, find_question i qs) = Some q →
  q_is_approved q = false → qs_id sq ∉ Wq → q_tags q = qs_tags sq →
  (upsert_question now run_id Wq sq (m, qs, n)).2 = n.
Proof.
  intros Hm Hf HW Ht. rewrite (upsert_question_existing _ _ _ _ _ _ _ _ Hm). cbn.
  unfold upsert_counts. rewrite Hm, Hf, Ht.
  rewrite (bool_decide_eq_false_2 (qs_id sq ∈ Wq)) by done.
  rewrite !bool_decide_eq_false_2 by (intros Hne; by apply Hne). done.
Qed.

Lemma demote_question_false now run_id Aq Wq q n :
  q_is_approved q = false → (demote_question now run_id Aq Wq q n).2 = n.
Proof.
  intros Hf. unfold demote_question. rewrite Hf.
  repeat (case_decide || case_match); done.
Qed.

Section demotion.
Context (now : Z) (run_id : string) (st : Store).
Context (Hwf : store_wf st).
Context (Hu : unique_staging_ids run_id (questions st)).

Abbreviation AQ := (approved_questions run_id st).
Abbreviation Aq := (approved_staging_question_ids run_id st).
Abbreviation Wq := (approved_questions_with_answers run_id st).
Abbreviation m0 := (staging_to_actual_question run_id (questions st)).
Abbreviation qs2 := (upserted_questions now run_id st).

(** Under the reconciliation key, the row of an approved staging
    question is the one the upsert loop rewrites. *)
Lemma unique_lookup q s :
  q ∈ questions st → q_run_id q = run_id → q_staging_id q = Some s →
  m0 !! s = Some (q_id q).
Proof.
  intros Hq Hr Hs. rewrite staging_map_lookup.
  rewrite (mapped_unique run_id (questions st) q s); [done| |done..].
  by destruct Hwf as [_ _ [? _] _].
Qed.

Lemma unique_hit q s :
  q ∈ questions st → q_run_id q = run_id → q_staging_id q = Some s → s ∈ Aq →
  ∃ sq, sq ∈ AQ ∧ qs_id sq = s ∧ upserted now Wq m0 AQ q = set_from now Wq sq q.
Proof.
  intros Hq Hr Hs (sq & Hsq & Hid)%elem_of_Aq.
  exists sq. split_and!; [done..|].
  apply upserted_hit; [by apply NoDup_AQ| |done|].
  - intros s1 s2 i. apply stq_inj. by destruct Hwf as [_ _ [? _] _].
  - rewrite Hid. by apply unique_lookup.
Qed.

Lemma unapproved_not_hit q s :
  q ∈ questions st → q_staging_id q = Some s → s ∉ Aq →
  upserted now Wq m0 AQ q = q.
Proof.
  intros Hq Hs HAq. apply upserted_not_hit. intros sq Hsq Hm.
  apply stq_Some in Hm as (q' & Hq' & Hid & _ & Hs').
  assert (q' = q) as -> by (by apply (question_eq_of_id st Hwf)).
  apply HAq, elem_of_Aq. exists sq. split; [done|congruence].
Qed.

(** The demotion loop counts only rows the upsert loop left alone:
    rows whose staging question is not approved. *)
Lemma counted_demotion q :
  q ∈ qs2 → stale run_id Aq Wq q → q_is_approved q = true →
  q ∈ questions st ∧ ∃ s, q_staging_id q = Some s ∧ s ≠ 0 ∧ s ∉ Aq.
Proof.
  unfold upserted_questions. intros [Hq|Hq]%elem_of_app Hst Hf.
  - apply list_elem_of_fmap in Hq as (q0 & -> & Hq0).
    apply (stale_key run_id _ _ _ q0) in Hst; [|apply upserted_key].
    destruct Hst as (Hr & s & Hs & Hs0 & Hor).
    destruct (decide (s ∈ Aq)) as [HAq|HAq].
    + exfalso. destruct (unique_hit q0 s Hq0 Hr Hs HAq) as (sq & _ & Hid & Hup).
      rewrite Hup in Hf. cbn in Hf. apply bool_decide_eq_true in Hf.
      rewrite Hid in Hf. tauto.
    + rewrite (unapproved_not_hit q0 s) by done. eauto.
  - exfalso. apply created_spec in Hq as (sq & i & Hsq & _ & -> & _).
    cbn in Hf. apply bool_decide_eq_true in Hf.
    destruct Hst as (_ & s & [= <-] & _ & [HAq|HW]); [|done].
    by apply HAq, Wq_subseteq_Aq.
Qed.

End demotion.

(** Rejecting the approved answer of a question in a store whose
    published tables agree with staging: the next pass counts that
    question once. *)
Section rejected_answer.
Context (now : Z) (run_id : string) (st1 st2 : Store) (sa : AnswerStaging).
Context (Hwf : store_wf st1) (Hwf2 : store_wf st2).
Context (Hu : unique_staging_ids run_id (questions st1)).
Context (Hsync : questions_in_sync run_id st1).
Context (Hsa : sa ∈ approved_answers run_id st1).
Context (HAq : as_question_id sa ∈ approved_staging_question_ids run_id st1).
Context (Honly : ∀ a, a ∈ approved_answers run_id st1 →
                   as_question_id a = as_question_id sa → as_id a = as_id sa).
Context (Hqs : question_staging st2 = question_staging st1).
Context (Hq : questions st2 = questions st1).
Context (HAA : ∀ a, a ∈ approved_answers run_id st2
                   ↔ a ∈ approved_answers run_id st1 ∧ as_id a ≠ as_id sa).

Lemma rejected_AQ : approved_questions run_id st2 = approved_questions run_id st1.
Proof. unfold approved_questions. by rewrite Hqs. Qed.

Lemma rejected_Aq :
  approved_staging_question_ids run_id st2 = approved_staging_question_ids run_id st1.
Proof. unfold approved_staging_question_ids. by rewrite rejected_AQ. Qed.

Lemma rejected_Wq s :
  s ∈ approved_questions_with_answers run_id st2
  ↔ s ∈ approved_questions_with_answers run_id st1 ∧ s ≠ as_question_id sa.
Proof.
  rewrite !elem_of_Wq, rejected_Aq. split.
  - intros (Hs & a & [Ha Hne]%HAA & Hqa). split; [eauto|].
    intros ->. by apply Hne, Honly.
  - intros [(Hs & a & Ha & Hqa) Hne]. split; [done|]. exists a. split; [|done].
    apply HAA. split; [done|]. intros Hid. apply Hne.
    by rewrite <- Hqa, (AA_eq_of_id run_id st1 Hwf a sa Ha Hsa Hid).
Qed.

Lemma rejected_upsert_counts sq :
  sq ∈ approved_questions run_id st1 →
  upsert_counts (approved_questions_with_answers run_id st2)
    (staging_to_actual_question run_id (questions st1)) (questions st1) sq = true
  ↔ qs_id sq = as_question_id sa.
Proof.
  intros Hsq.
  destruct (in_sync_lookup run_id st1 Hsync sq Hsq)
    as (q & Hqin & Hm & _ & Hf & Ht).
  unfold upsert_counts. rewrite Hm. cbn.
  rewrite (find_question_elem _ _ (proj1 (wf_questions _ Hwf)) Hqin), Hf, Ht.
  rewrite orb_true_iff, !bool_decide_eq_true.
  split.
  - intros [Hne|Hne]; [|done].
    destruct (decide (qs_id sq = as_question_id sa)) as [|Hd]; [done|].
    exfalso. apply Hne. apply bool_decide_ext. rewrite rejected_Wq. tauto.
  - intros Hid. left.
    rewrite (bool_decide_eq_true_2 (qs_id sq ∈ approved_questions_with_answers run_id st1)),
            (bool_decide_eq_false_2 (qs_id sq ∈ approved_questions_with_answers run_id st2));
      [done| |].
    + rewrite rejected_Wq. tauto.
    + rewrite Hid. apply elem_of_Wq. eauto.
Qed.

Lemma rejected_count : synced_count now run_id st2 = 1%nat.
Proof.
  unfold synced_count.
  assert (demote_count now run_id (approved_staging_question_ids run_id st2)
            (approved_questions_with_answers run_id st2)
            (upserted_questions now run_id st2) = 0%nat) as ->.
  { apply demote_count_zero. intros q Hqin Hst.
    destruct (q_is_approved q) eqn:Hf; [exfalso|done].
    assert (unique_staging_ids run_id (questions st2)) as Hu2 by (by rewrite Hq).
    destruct (counted_demotion now run_id st2 Hwf2 Hu2 q Hqin Hst Hf)
      as (Hq1 & s & Hs & Hs0 & Hn).
    rewrite Hq in Hq1. rewrite rejected_Aq in Hn.
    destruct Hsync as [_ Hdem]. rewrite (Hdem q Hq1) in Hf; [done|].
    split; [apply Hst|]. eauto. }
  rewrite Nat.add_0_r. unfold upsert_count. rewrite rejected_AQ, Hq.
  rewrite (filter_ext_in _ (λ sq, qs_id sq = as_question_id sa)).
  - rewrite length_filter_fmap_eq, NoDup_filter_eq_length
      by apply (NoDup_AQ run_id st1 Hwf).
    rewrite decide_True; [done|].
    unfold approved_staging_question_ids in HAq. by apply elem_of_list_to_set in HAq.
  - intros sq Hsq. by apply rejected_upsert_counts.
Qed.

End rejected_answer.

(** *** Rejecting an answer *)

Lemma find_staging_answer_elem st a :
  NoDup (as_id <$> answer_staging st) → a ∈ answer_staging st →
  find_staging_answer (as_id a) st = Some a.
Proof.
  intros Hnd Ha. destruct (find_staging_answer (as_id a) st) as [a'|] eqn:Hf.
  - apply find_staging_answer_Some in Hf as [Ha' Hid]. f_equal.
    apply list_elem_of_lookup in Ha as [i Hi], Ha' as [j Hj].
    assert (j = i) as ->; [|congruence].
    eapply NoDup_lookup; [exact Hnd| |]; rewrite list_lookup_fmap.
    + by rewrite Hj.
    + rewrite Hi. cbn. by rewrite Hid.
  - exfalso. unfold find_staging_answer in Hf.
    destruct (list_find _ _) as [[]|] eqn:Hl; [done|].
    apply list_find_None in Hl. rewrite Forall_forall in Hl. by apply (Hl a).
Qed.

Section answer_approval.
Context (now : Z) (b : bool) (st : Store) (sa : AnswerStaging).
Context (Hwf : store_wf st) (Hsa : sa ∈ answer_staging st).

Lemma update_answer_approval_elem :
  update_answer_approval now (as_id sa) b st
  = (mkStore (touch_staging now (as_run_id sa) (runs st)) (question_staging st)
       (update_staging_answer (as_id sa) (λ _, set_answer_approval now b sa)
          (answer_staging st))
       (questions st) (answers st) (tags st),
     Ok (set_answer_approval now b sa)).
Proof.
  unfold update_answer_approval.
  rewrite find_staging_answer_elem; [done| |done]. by destruct Hwf as [_ [? _] _ _].
Qed.

Lemma update_answer_approval_wf :
  store_wf (update_answer_approval now (as_id sa) b st).1.
Proof.
  rewrite update_answer_approval_elem. destruct Hwf as [? ? ? ?].
  split; cbn; [done| |done..]. by rewrite update_staging_answer_ids.
Qed.

Lemma update_answer_approval_run run_id :
  is_Some (find_run run_id st) →
  is_Some (find_run run_id (update_answer_approval now (as_id sa) b st).1).
Proof.
  intros [run Hrun]. rewrite update_answer_approval_elem.
  rewrite (find_run_update run_id (as_run_id sa)
             (λ r, mkRun (r_id r) (r_summary r) now (r_last_sync_at r) (Some now)) st);
    [|done..].
  rewrite Hrun. eauto.
Qed.

End answer_approval.

(** The approved answers of the run once [sa] is rejected. *)
Lemma approved_answers_rejected now run_id st sa a :
  store_wf st → sa ∈ answer_staging st →
  a ∈ approved_answers run_id (update_answer_approval now (as_id sa) false st).1
  ↔ a ∈ approved_answers run_id st ∧ as_id a ≠ as_id sa.
Proof.
  intros Hwf Hsa. rewrite update_answer_approval_elem by done.
  rewrite !elem_of_approved_answers. cbn. unfold update_staging_answer.
  rewrite list_elem_of_fmap. split.
  - intros ((a0 & -> & Ha0) & Hr & Hf). case_decide; [done|]. done.
  - intros [(Ha & Hr & Hf) Hne]. split; [|done]. exists a.
    by rewrite decide_False.
Qed.

(** *** One question in the count *)

Lemma length_filter_except {A} (f : A → Z) (P : A → Prop) `{!∀ x, Decision (P x)}
    (x : A) (l : list A) :
  NoDup (f <$> l) → x ∈ l →
  length (filter P l)
  = ((if decide (P x) then 1 else 0)
     + length (filter P (filter (λ y, f y ≠ f x) l)))%nat.
Proof.
  induction l as [|y l IH]; [by intros _ ?%elem_of_nil|].
  rewrite fmap_cons, NoDup_cons. intros [Hni Hnd] Hin.
  destruct (decide (f y = f x)) as [Hyx|Hyx].
  - assert (y = x) as ->.
    { apply elem_of_cons in Hin as [->|Hin]; [done|]. exfalso.
      apply Hni. rewrite Hyx. by apply list_elem_of_fmap_2. }
    rewrite (filter_cons_False (λ y, f y ≠ f x)) by (intros Hne; by apply Hne).
    rewrite (filter_all (λ y, f y ≠ f x) l).
    + rewrite filter_cons. by destruct (decide (P x)).
    + intros y Hy Heq. apply Hni. rewrite <- Heq. by apply list_elem_of_fmap_2.
  - assert (x ∈ l) as Hx.
    { apply elem_of_cons in Hin as [->|Hin]; [done|done]. }
    rewrite (filter_cons_True (λ y, f y ≠ f x)) by done.
    rewrite !(filter_cons P). destruct (decide (P y)); cbn; rewrite (IH Hnd Hx); lia.
Qed.

(** The iteration of the upsert loop on a row whose flag is false and
    stays false counts exactly a change of the tag set. *)
Lemma upsert_question_unflagged now run_id Wq sq m qs n q :
  m !! qs_id sq ≫= (λ i, find_question i qs) = Some q →
  q_is_approved q = false → qs_id sq ∉ Wq →
  (upsert_question now run_id Wq sq (m, qs, n)).2
  = if decide (q_tags q = qs_tags sq) then n else S n.
Proof.
  intros Hm Hf HW. rewrite (upsert_question_existing _ _ _ _ _ _ _ _ Hm). cbn.
  unfold upsert_counts. rewrite Hm, Hf.
  rewrite (bool_decide_eq_false_2 (qs_id sq ∈ Wq)) by done.
  rewrite (bool_decide_eq_false_2 (false ≠ false)) by (intros Hne; by apply Hne).
  cbn. case_decide.
  - by rewrite bool_decide_eq_false_2 by (intros Hne; by apply Hne).
  - by rewrite bool_decide_eq_true_2.
Qed.

Section counted_once.
Context (now : Z) (run_id : string) (st : Store).
Context (Hwf : store_wf st).
Context (Hu : unique_staging_ids run_id (questions st)).
Context (sq : QuestionStaging) (q : Question).
Context (Hsq : sq ∈ approved_questions run_id st).
Context (Hq : q ∈ questions st) (Hr : q_run_id q = run_id).
Context (Hs : q_staging_id q = Some (qs_id sq)).
Context (Hf : q_is_approved q = true).
Context (HW : qs_id sq ∉ approved_questions_with_answers run_id st).

(** The upsert loop counts the question: its flag changes. *)
Lemma demotion_upsert_counts :
  upsert_counts (approved_questions_with_answers run_id st)
    (staging_to_actual_question run_id (questions st)) (questions st) sq = true.
Proof.
  unfold upsert_counts.
  rewrite (unique_lookup run_id st Hwf Hu q (qs_id sq) Hq Hr Hs). cbn.
  rewrite (find_question_elem _ _ (proj1 (wf_questions _ Hwf)) Hq), Hf.
  rewrite (bool_decide_eq_false_2 (qs_id sq ∈ _)) by done.
  by rewrite bool_decide_eq_true_2.
Qed.

(** The demotion loop finds the flag already false. *)
Lemma demotion_upserted :
  upserted now (approved_questions_with_answers run_id st)
    (staging_to_actual_question run_id (questions st))
    (approved_questions run_id st) q ∈ upserted_questions now run_id st
  ∧ q_is_approved
      (upserted now (approved_questions_with_answers run_id st)
         (staging_to_actual_question run_id (questions st))
         (approved_questions run_id st) q) = false.
Proof.
  split.
  - unfold upserted_questions. apply elem_of_app. left. by apply list_elem_of_fmap_2.
  - destruct (unique_hit now run_id st Hwf Hu q (qs_id sq) Hq Hr Hs)
      as (sq' & _ & Hid & ->); [apply elem_of_Aq; eauto|].
    cbn. rewrite Hid. by apply bool_decide_eq_false_2.
Qed.

Lemma synced_count_demotion :
  synced_count now run_id st = S (counted_elsewhere now run_id st sq q).
Proof.
  destruct demotion_upserted as [Hin Hflag].
  unfold synced_count, counted_elsewhere, upsert_count, demote_count.
  rewrite (length_filter_except qs_id _ sq (approved_questions run_id st))
    by (done || by apply NoDup_AQ).
  rewrite decide_True by apply demotion_upsert_counts.
  rewrite (length_filter_except q_id _ _ (upserted_questions now run_id st)
             (proj1 (upserted_questions_pk now run_id st Hwf)) Hin).
  rewrite decide_False, upserted_id; [lia|].
  intros Hn. apply Hn. by apply demote_question_false.
Qed.

End counted_once.

(** C5 (as amended).  Demotion counting.  In tables that satisfy their
    primary keys and the reconciliation key, take a published question
    [q] of the run whose flag is true, derived from an approved staging
    question [sq] whose only approved answer is [sa].  Rejecting [sa]
    leaves the question approved, and the next pass counts the question
    exactly once: it reports 1 plus what the other approved staging
    questions and the other published rows add, which is nothing when
    the published questions agreed with staging before the rejection;
    the upsert loop counts the change of the flag, and the demotion
    loop, which then sees the flag already false, does not count the
    row again.  The pass leaves the flag false, and a further pass
    reports 0.  A row whose flag is false before an iteration and false
    after it is never counted by the demotion loop, and is counted by
    the upsert loop exactly when its tag set differs from the one in
    staging. *)
Theorem demotion_counting now1 now2 now3 run_id st sq sa q :
  store_wf st →
  unique_staging_ids run_id (questions st) →
  is_Some (find_run run_id st) →
  sq ∈ approved_questions run_id st →
  sa ∈ approved_answers run_id st → as_question_id sa = qs_id sq →
  (∀ a, a ∈ approved_answers run_id st →
        as_question_id a = qs_id sq → as_id a = as_id sa) →
  q ∈ questions st → q_run_id q = run_id → q_staging_id q = Some (qs_id sq) →
  q_is_approved q = true →
  (∃ st1 st2 st3,
     update_answer_approval now1 (as_id sa) false st
     = (st1, Ok (set_answer_approval now1 false sa))
     ∧ sq ∈ approved_questions run_id st1
     ∧ q ∈ questions st1
     ∧ sync_to_actual now2 run_id None st1
       = (st2, Ok (mkSyncResult now2 (1 + counted_elsewhere now2 run_id st1 sq q)))
     ∧ (questions_in_sync run_id st → counted_elsewhere now2 run_id st1 sq q = 0%nat)
     ∧ (∀ q', q' ∈ questions st2 → q_run_id q' = run_id →
              q_staging_id q' = Some (qs_id sq) → q_is_approved q' = false)
     ∧ sync_to_actual now3 run_id None st2 = (st3, Ok (mkSyncResult now3 0)))
  ∧ (∀ now Aq Wq q n,
       q_is_approved q = false → (demote_question now run_id Aq Wq q n).2 = n)
  ∧ (∀ now Wq sq m qs n q,
       m !! qs_id sq ≫= (λ i, find_question i qs) = Some q →
       q_is_approved q = false → qs_id sq ∉ Wq →
       (upsert_question now run_id Wq sq (m, qs, n)).2
       = if decide (q_tags q = qs_tags sq) then n else S n).
Proof.
  intros Hwf Hu Hrun Hsq Hsa Hqa Honly Hq Hr Hs Hf.
  split_and!; [|intros; by apply demote_question_false
               |intros; by eapply upsert_question_unflagged].
  assert (sa ∈ answer_staging st) as Hin
    by (by apply elem_of_approved_answers in Hsa as [? _]).
  set (st1 := (update_answer_approval now1 (as_id sa) false st).1).
  assert (update_answer_approval now1 (as_id sa) false st
          = (st1, Ok (set_answer_approval now1 false sa))) as H1
    by (unfold st1; by rewrite update_answer_approval_elem).
  assert (question_staging st1 = question_staging st) as Hqs1
    by (unfold st1; by rewrite update_answer_approval_elem).
  assert (questions st1 = questions st) as Hq1
    by (unfold st1; by rewrite update_answer_approval_elem).
  assert (store_wf st1) as Hwf1 by (by apply update_answer_approval_wf).
  assert (unique_staging_ids run_id (questions st1)) as Hu1 by (by rewrite Hq1).
  assert (is_Some (find_run run_id st1)) as [run1 Hrun1]
    by (by apply update_answer_approval_run).
  assert (approved_questions run_id st1 = approved_questions run_id st) as HAQ1
    by (unfold approved_questions; by rewrite Hqs1).
  assert (∀ a, a ∈ approved_answers run_id st1
               ↔ a ∈ approved_answers run_id st ∧ as_id a ≠ as_id sa) as HAA1
    by (intros a; by apply approved_answers_rejected).
  assert (qs_id sq ∉ approved_questions_with_answers run_id st1) as HW1.
  { intros (_ & a & [Ha Hne]%HAA1 & Hqa')%elem_of_Wq. by apply Hne, Honly. }
  assert (sq ∈ approved_questions run_id st1) as Hsq1 by (by rewrite HAQ1).
  assert (q ∈ questions st1) as Hqin1 by (by rewrite Hq1).
  pose proof (synced_count_demotion now2 run_id st1 Hwf1 Hu1 sq q Hsq1 Hqin1 Hr Hs Hf HW1)
    as Hcount.
  exists st1, (synced_store now2 run_id st1),
    (synced_store now3 run_id (synced_store now2 run_id st1)).
  split_and!; [done..| | | |].
  - rewrite (sync_to_actual_closed now2 run_id st1 Hwf1 run1 Hrun1). by rewrite Hcount.
  - intros Hsync.
    assert (synced_count now2 run_id st1 = 1%nat) as Hone; [|lia].
    apply (rejected_count now2 run_id st st1 sa); try done.
    + apply elem_of_Aq. exists sq. done.
    + intros a Ha Hqa'. apply Honly; [done|congruence].
  - intros q' Hq' Hr' Hs'.
    pose proof (synced_questions_in_sync now2 run_id st1 Hwf1) as [_ Hdem].
    apply Hdem; [done|]. split; [done|]. exists (qs_id sq). split_and!; [done| |].
    + apply elem_of_approved_questions in Hsq as [Hsqin _].
      pose proof (pk_ok_pos qs_id _ sq (wf_question_staging _ Hwf) Hsqin). lia.
    + by right.
  - apply sync_to_actual_noop.
    + by apply synced_store_wf.
    + by apply synced_questions_in_sync.
    + apply find_run_synced. eauto.
Qed.

Lemma demotion_counting_witness :
  ∃ st1 st2 st3,
    update_answer_approval 6 1 false (sync_to_actual 5 "r" None example_reviewed).1
    = (st1, Ok (mkAnswerStaging 1 "r" 1 "answer to q1" (Some false) 6))
    ∧ sync_to_actual 7 "r" None st1 = (st2, Ok (mkSyncResult 7 1))
    ∧ (∀ q', q' ∈ questions st2 → q_run_id q' = "r"%string →
             q_staging_id q' = Some 1 → q_is_approved q' = false)
    ∧ sync_to_actual 8 "r" None st2 = (st3, Ok (mkSyncResult 8 0)).
Proof.
  destruct (demotion_counting 6 7 8 "r" (sync_to_actual 5 "r" None example_reviewed).1
              (mkQuestionStaging 1 "r" "q1" (Some true) 3 {[1; 2]})
              (mkAnswerStaging 1 "r" 1 "answer to q1" (Some true) 4)
              (mkQuestion 1 "r" (Some 1) "q1" true 5 {[1; 2]}))
    as ((st1 & st2 & st3 & H1 & _ & _ & H2 & H0 & Hflag & H3) & _).
  - solve_store_wf.
  - intros q q' Hq Hq'. vm_compute in Hq, Hq'.
    repeat (apply elem_of_cons in Hq as [->|Hq]); try (by apply elem_of_nil in Hq);
      repeat (apply elem_of_cons in Hq' as [->|Hq']); try (by apply elem_of_nil in Hq');
      cbn; congruence.
  - eexists. by vm_compute.
  - compute_done.
  - compute_done.
  - done.
  - intros a Ha. vm_compute in Ha. apply list_elem_of_singleton in Ha as ->. done.
  - compute_done.
  - done.
  - done.
  - done.
  - exists st1, st2, st3. split_and!; [exact H1| |exact Hflag|exact H3].
    rewrite H0 in H2; [exact H2|].
    apply (synced_questions_in_sync 5 "r" example_reviewed). solve_store_wf.
Defined.

(** C5 as stated fails in its last clause: a published question whose
    flag is false before the pass and false after it is counted when
    its tags changed.  Question 1 is approved and published without an
    answer, then tagged; the next pass reports 1. *)
Lemma sync_counts_unflagged_tag_change :
  questions (serve empty_store example_retag_requests)
  = [mkQuestion 1 "r" (Some 1) "What is light?" false 4 ∅]
  ∧ ∃ st',
      sync_to_actual 6 "r" None (serve empty_store example_retag_requests)
      = (st', Ok (mkSyncResult 6 1))
      ∧ questions st' = [mkQuestion 1 "r" (Some 1) "What is light?" false 6 {[1]}].
Proof.
  split; [by vm_compute|].
  exists (sync_to_actual 6 "r" None (serve empty_store example_retag_requests)).1.
  split; by vm_compute.
Qed.

(** ** Published answers and the flag *)

Section invariant.
Context (now : Z) (run_id : string) (st : Store).
Context (Hwf : store_wf st).
Context (Hu : unique_staging_ids run_id (questions st)).

Abbreviation AQ := (approved_questions run_id st).
Abbreviation AA := (approved_answers run_id st).
Abbreviation Aq := (approved_staging_question_ids run_id st).
Abbreviation Aa := (approved_staging_answer_ids run_id st).
Abbreviation Wq := (approved_questions_with_answers run_id st).
Abbreviation qs2 := (upserted_questions now run_id st).
Abbreviation qs4 := (synced_questions now run_id st).

Context (q : Question) (s : Z).
Context (Hq : q ∈ qs4) (Hr : q_run_id q = run_id).
Context (Hs : q_staging_id q = Some s) (Hs0 : s ≠ 0).

Lemma synced_mapped : mapped run_id qs4 s = Some q.
Proof.
  apply mapped_unique; [|by apply unique_synced|done..].
  apply (synced_questions_pk now run_id st Hwf).
Qed.

(** After the pass the flag of a derived row says whether its staging
    question is approved and has an approved answer. *)
Lemma synced_flag : q_is_approved q = true ↔ s ∈ Wq.
Proof.
  destruct (synced_questions_in_sync now run_id st Hwf) as [Hup Hdem].
  destruct (decide (s ∈ Aq)) as [HAq|HAq].
  - apply elem_of_Aq in HAq as (sq & Hsq & Hid).
    destruct (Hup sq Hsq) as (q' & Hm & _ & Hf & _).
    rewrite Hid in Hm, Hf.
    change (mapped run_id qs4 s = Some q') in Hm. rewrite synced_mapped in Hm.
    injection Hm as <-. rewrite Hf. apply bool_decide_eq_true.
  - rewrite (Hdem q Hq).
    + split; [done|]. by intros ?%Wq_subseteq_Aq.
    + split; [done|]. eauto.
Qed.

Lemma synced_target sa :
  as_question_id sa = s → s ∈ Aq →
  target Aq (staging_to_actual_question run_id qs4) qs4 sa = Some (q_id q).
Proof.
  intros Hsa HAq. unfold target. rewrite decide_True by (by rewrite Hsa).
  pose proof (synced_questions_pk now run_id st Hwf) as Hpk.
  rewrite (stq_find run_id _ _ (proj1 Hpk)), Hsa, synced_mapped. cbn.
  assert (0 < q_id q) by (by apply (pk_ok_pos q_id _ q Hpk)).
  destruct (q_id q =? 0) eqn:E; [lia|done].
Qed.

(** A row with its flag set has the answer of an approved staging
    answer under it. *)
Lemma synced_flag_answer :
  q_is_approved q = true →
  ∃ a sa, a ∈ synced_answers now run_id st ∧ a_question_id a = q_id q
          ∧ sa ∈ AA ∧ as_question_id sa = s
          ∧ a_staging_id a = Some (as_id sa) ∧ a_answer_text a = as_answer_text sa.
Proof.
  intros (HAq & sa & Hsa & Hqa)%synced_flag%elem_of_Wq.
  destruct (synced_answers_in_sync now run_id st Hwf) as [Hup _].
  destruct (Hup sa (q_id q) Hsa (synced_target sa Hqa HAq)) as (a & Hf & Ht).
  apply find_answer_Some in Hf as (Ha & _ & Hi & Hsid).
  exists a, sa. done.
Qed.

Context (Hl : answers_linked run_id st).

(** The pass keeps the published answers linked. *)
Lemma synced_answers_linked : answers_linked run_id (synced_store now run_id st).
Proof.
  intros a Ha. cbn in Ha. unfold synced_answers in Ha.
  apply list_elem_of_filter in Ha as [_ [Ha|Ha]%elem_of_app].
  - unfold rewritten_answers in Ha. apply list_elem_of_fmap in Ha as (a0 & -> & Ha0).
    pose proof (answered_key now run_id (pass_target now run_id st) (answers st) AA a0)
      as [= Hki Hkr Hkq Hks].
    destruct (Hl a0 Ha0) as (q0 & Hq0 & Hqa & Hc).
    exists (demoted now run_id Aq Wq (upserted now Wq
              (staging_to_actual_question run_id (questions st)) AQ q0)).
    pose proof (demoted_key now run_id Aq Wq (upserted now Wq
              (staging_to_actual_question run_id (questions st)) AQ q0))
      as [= Hdi Hdr Hds].
    pose proof (upserted_key now Wq (staging_to_actual_question run_id (questions st))
                  AQ q0) as [= Hui Hur Hus].
    split_and!.
    + cbn. unfold synced_questions, upserted_questions.
      apply list_elem_of_fmap_2, elem_of_app. left. by apply list_elem_of_fmap_2.
    + congruence.
    + intros s' Hr' Hs' Hs0'. rewrite Hkr, Hks. apply Hc; congruence.
  - apply inserted_spec in Ha as (na & j & Hna & ->).
    apply elem_of_added_for in Hna as (sa & i & Hsa & Ht & _ & ->). cbn.
    pose proof (upserted_questions_pk now run_id st Hwf) as Hpk2.
    apply (target_Some run_id _ _ _ _ (proj1 Hpk2)) in Ht as (HAq & Hi0 & q2 & Hm & Hid).
    apply mapped_Some in Hm as (Hq2 & Hr2 & Hs2).
    pose proof (demoted_key now run_id Aq Wq q2) as [= Hdi Hdr Hds].
    exists (demoted now run_id Aq Wq q2). split_and!.
    + unfold synced_questions. by apply list_elem_of_fmap_2.
    + congruence.
    + intros s' Hr' Hs' Hs0'. split; [done|]. exists (as_id sa). split_and!.
      * done.
      * apply elem_of_approved_answers in Hsa as [Hin _].
        pose proof (pk_ok_pos as_id _ sa (wf_answer_staging _ Hwf) Hin). lia.
      * intros sa' Hsa' Hid'.
        rewrite (AA_eq_of_id run_id st Hwf sa' sa Hsa' Hsa Hid'). congruence.
Qed.

(** An answer under a derived row comes from an approved staging answer
    of the row's staging question. *)
Lemma synced_answer_flag a :
  a ∈ synced_answers now run_id st → a_question_id a = q_id q → s ∈ Wq.
Proof.
  intros Ha Hqa.
  destruct (synced_answers_linked a Ha) as (q' & Hq' & Hqa' & Hc).
  pose proof (synced_store_wf now run_id st Hwf) as Hwf'.
  assert (q' = q) as ->.
  { apply (question_eq_of_id (synced_store now run_id st) Hwf'); [done..|congruence]. }
  destruct (Hc s Hr Hs Hs0) as (Hra & sid & Hsid & Hsid0 & Hlink).
  destruct (synced_answers_in_sync now run_id st Hwf) as [_ Hdel].
  specialize (Hdel a Ha Hra). unfold should_delete in Hdel.
  apply orb_false_iff in Hdel as [Hd1 Hd2].
  pose proof (synced_questions_pk now run_id st Hwf) as Hpk.
  assert (0 < q_id q) by (by apply (pk_ok_pos q_id _ q Hpk)).
  rewrite Hqa in Hd2.
  change (questions (synced_store now run_id st)) with qs4 in Hd2.
  rewrite (find_question_elem _ _ (proj1 Hpk) Hq), Hs in Hd2.
  rewrite Hsid in Hd1. unfold truthy in Hd1, Hd2.
  destruct (sid =? 0) eqn:E1; [lia|]. destruct (s =? 0) eqn:E2; [lia|].
  destruct (q_id q =? 0) eqn:E3; [lia|]. cbn in Hd1, Hd2.
  apply bool_decide_eq_false in Hd1, Hd2.
  apply dec_stable in Hd1, Hd2.
  apply elem_of_Aa in Hd1 as (sa & Hsa & Hid).
  apply elem_of_Wq. split; [done|]. exists sa. split; [done|]. by apply Hlink.
Qed.

End invariant.

Ltac solve_elem_of_two Hq :=
  cbn in Hq; apply elem_of_cons in Hq as [->|Hq];
  [|apply list_elem_of_singleton in Hq as ->].

(** Where the published answers are linked to their staging answers
    ([answers_linked]), the pass establishes the invariant for every
    published question of the run that was derived from staging (its
    [staging_id] is set and not 0): a published answer hangs under it
    if and only if its flag is true, and its flag is true if and only
    if an approved staging answer of the run answers an approved
    staging question of the run which is the one the published question
    was derived from.  The pass preserves the primary keys, the
    reconciliation key and the linkage. *)
Lemma published_answer_invariant now run_id st st' res q s :
  store_wf st →
  unique_staging_ids run_id (questions st) →
  answers_linked run_id st →
  sync_to_actual now run_id None st = (st', Ok res) →
  q ∈ questions st' → q_run_id q = run_id → q_staging_id q = Some s → s ≠ 0 →
  ((∃ a, a ∈ answers st' ∧ a_question_id a = q_id q) ↔ q_is_approved q = true)
  ∧ (q_is_approved q = true ↔
     ∃ sa sq, sa ∈ approved_answers run_id st' ∧ sq ∈ approved_questions run_id st'
              ∧ as_question_id sa = qs_id sq ∧ q_staging_id q = Some (qs_id sq))
  ∧ store_wf st' ∧ unique_staging_ids run_id (questions st')
  ∧ answers_linked run_id st'.
Proof.
  intros Hwf Hu Hl H1 Hq Hr Hs Hs0.
  apply sync_to_actual_ok in H1 as (_ & -> & _); [|done].
  pose proof (synced_flag now run_id st Hwf Hu q s Hq Hr Hs Hs0) as Hflag.
  split_and!.
  - split.
    + intros (a & Ha & Hqa). apply Hflag.
      by apply (synced_answer_flag now run_id st Hwf q s Hq Hr Hs Hs0 Hl a).
    + intros Hf.
      destruct (synced_flag_answer now run_id st Hwf Hu q s Hq Hr Hs Hs0 Hf)
        as (a & sa & Ha & Hqa & _).
      eauto.
  - rewrite Hflag, elem_of_Wq. split.
    + intros ((sq & Hsq & Hid)%elem_of_Aq & sa & Hsa & Hqa).
      exists sa, sq. split_and!; [done..|congruence|congruence].
    + intros (sa & sq & Hsa & Hsq & Hqa & Hs').
      assert (qs_id sq = s) as Hid by congruence. split.
      * apply elem_of_Aq. eauto.
      * exists sa. split; [done|congruence].
  - by apply synced_store_wf.
  - by apply unique_synced.
  - by apply synced_answers_linked.
Qed.

Lemma published_answer_invariant_witness :
  let st' := (sync_to_actual 5 "r" None example_reviewed).1 in
  let q := mkQuestion 1 "r" (Some 1) "q1" true 5 {[1; 2]} in
  ((∃ a, a ∈ answers st' ∧ a_question_id a = q_id q) ↔ q_is_approved q = true)
  ∧ (q_is_approved q = true ↔
     ∃ sa sq, sa ∈ approved_answers "r" st' ∧ sq ∈ approved_questions "r" st'
              ∧ as_question_id sa = qs_id sq ∧ q_staging_id q = Some (qs_id sq))
  ∧ store_wf st' ∧ unique_staging_ids "r" (questions st')
  ∧ answers_linked "r" st'.
Proof.
  apply (published_answer_invariant 5 "r" example_reviewed _ (mkSyncResult 5 1) _ 1).
  - solve_store_wf.
  - intros q q' Hq Hq'. solve_elem_of_two Hq; solve_elem_of_two Hq'; cbn; congruence.
  - intros a Ha. cbn in Ha. apply list_elem_of_singleton in Ha as ->.
    exists (mkQuestion 2 "r" None "seeded" true 0 ∅). split_and!.
    + compute_done.
    + done.
    + intros s _ [=].
  - by vm_compute.
  - compute_done.
  - done.
  - done.
  - done.
Defined.

(** A published question seeded from outside is left alone by the
    pass: its flag stays true with no published answer under it and no
    approved staging answer at all. *)
Lemma sync_keeps_flag_without_answer :
  let st' := (sync_to_actual 5 "r" None example_seeded).1 in
  let q := mkQuestion 1 "r" None "seeded" true 0 ∅ in
  (∃ res, (sync_to_actual 5 "r" None example_seeded).2 = Ok res)
  ∧ q ∈ questions st' ∧ q_run_id q = "r"%string ∧ q_is_approved q = true
  ∧ ¬ (∃ a, a ∈ answers st' ∧ a_question_id a = q_id q)
  ∧ ¬ (∃ sa, sa ∈ approved_answers "r" st').
Proof.
  cbn zeta. split_and!.
  - eexists. by vm_compute.
  - compute_done.
  - done.
  - done.
  - intros (a & Ha & _). vm_compute in Ha. by apply elem_of_nil in Ha.
  - intros (sa & Hsa). vm_compute in Hsa. by apply elem_of_nil in Hsa.
Qed.

(** The linkage does not hold in every store the endpoints reach.  The
    rowid of a deleted staging answer is given out again.  In
    [example_reused] published answer 1 carries the id of a staging
    answer that now answers question 2: the pass finds that id among
    the approved answers and the owner among the approved questions,
    and keeps the answer under a question whose flag it sets to
    false. *)
Lemma sync_keeps_answer_of_reused_rowid :
  let st' := (sync_to_actual 11 "r" None example_reused).1 in
  let q := mkQuestion 1 "r" (Some 1) "q1" false 11 ∅ in
  store_wf example_reused
  ∧ unique_staging_ids "r" (questions example_reused)
  ∧ ¬ answers_linked "r" example_reused
  ∧ (sync_to_actual 11 "r" None example_reused).2 = Ok (mkSyncResult 11 2)
  ∧ q ∈ questions st'
  ∧ mkAnswer 1 "r" 1 (Some 1) "answer to q1" 5 ∈ answers st'.
Proof.
  cbn zeta. split_and!.
  - solve_store_wf.
  - intros q q' Hq Hq'. vm_compute in Hq, Hq'.
    apply list_elem_of_singleton in Hq as ->, Hq' as ->. done.
  - intros Hl.
    destruct (Hl (mkAnswer 1 "r" 1 (Some 1) "answer to q1" 5)) as (q & Hq & Hqa & Hc);
      [compute_done|].
    vm_compute in Hq. apply list_elem_of_singleton in Hq as ->.
    destruct (Hc 1) as (_ & sid & [= <-] & _ & Hlink); [done..|].
    specialize (Hlink (mkAnswerStaging 1 "r" 2 "answer to q2" (Some true) 9)).
    cbn in Hlink. assert (2 = 1) as Habs; [apply Hlink; [compute_done|done]|lia].
  - by vm_compute.
  - compute_done.
  - compute_done.
Qed.

(** C2.  The invariant fails in a database reached through the
    endpoints alone.  After the requests of [example_reuse_requests]
    staging answer 1 answers question 2, and published answer 1, made
    from the former staging answer 1, still hangs under the published
    question of question 1.  The pass succeeds and sets the flag of
    that question to false, since no approved staging answer answers
    question 1, but keeps the published answer under it: the deletion
    loop finds the [staging_id] of the answer among the approved
    staging answers and the [staging_id] of its question among the
    approved staging questions. *)
Theorem sync_keeps_stale_answer :
  ∃ st' res q a,
    sync_to_actual 12 "r" None (serve empty_store example_reuse_requests)
    = (st', Ok res)
    ∧ q ∈ questions st' ∧ q_run_id q = "r"%string ∧ q_staging_id q = Some 1
    ∧ q_is_approved q = false
    ∧ a ∈ answers st' ∧ a_run_id a = "r"%string ∧ a_question_id a = q_id q
    ∧ ¬ (∃ sa, sa ∈ approved_answers "r" st' ∧ as_question_id sa = 1).
Proof.
  exists (sync_to_actual 12 "r" None (serve empty_store example_reuse_requests)).1,
    (mkSyncResult 12 2),
    (mkQuestion 1 "r" (Some 1) "What is light?" false 12 ∅),
    (mkAnswer 1 "r" 1 (Some 1) "It depends." 6).
  split_and!; [by vm_compute|compute_done|done|done|done|compute_done|done|done|].
  intros (sa & Hsa & Hqa). vm_compute in Hsa.
  apply list_elem_of_singleton in Hsa as ->. done.
Qed.

(** * Further properties *)

(** ** Stripping and splitting *)

Lemma chars_inj s t : String.list_ascii_of_string s = String.list_ascii_of_string t → s = t.
Proof.
  intros H. rewrite <- (String.string_of_list_ascii_of_string s),
    <- (String.string_of_list_ascii_of_string t). by rewrite H.
Qed.

Lemma chars_app s t :
  String.list_ascii_of_string (s +:+ t) = String.list_ascii_of_string s ++ String.list_ascii_of_string t.
Proof. induction s as [|c s IH]; [done|]. cbn. by rewrite <- IH. Qed.

Lemma chars_nil s : String.list_ascii_of_string s = [] ↔ s = EmptyString.
Proof. by destruct s. Qed.

Lemma chars_lstrip s :
  String.list_ascii_of_string (lstrip s) = drop_while py_isspace (String.list_ascii_of_string s).
Proof. induction s as [|c s IH]; [done|]. cbn. by destruct (py_isspace c). Qed.

Lemma chars_rev_app s t :
  String.list_ascii_of_string (String.rev_app s t)
  = reverse (String.list_ascii_of_string s) ++ String.list_ascii_of_string t.
Proof.
  revert t. induction s as [|c s IH]; intros t; [done|].
  cbn [String.rev_app String.list_ascii_of_string].
  rewrite IH, reverse_cons, <- app_assoc. done.
Qed.

Lemma chars_rev s :
  String.list_ascii_of_string (String.rev s) = reverse (String.list_ascii_of_string s).
Proof. unfold String.rev. by rewrite chars_rev_app, app_nil_r. Qed.

Lemma chars_strip s : String.list_ascii_of_string (strip s) = trim (String.list_ascii_of_string s).
Proof. unfold strip, trim. by rewrite chars_rev, chars_lstrip, chars_rev, chars_lstrip. Qed.

Section drop_while.
Context {A : Type} (p : A → bool).


Lemma drop_while_head l x : head (drop_while p l) = Some x → p x = false.
Proof.
  induction l as [|y l IH]; [done|]. cbn. destruct (p y) eqn:Hy; [done|].
  cbn. by intros [= <-].
Qed.

Lemma drop_while_keep l :
  (∀ x, head l = Some x → p x = false) → drop_while p l = l.
Proof. destruct l as [|x l]; [done|]. intros H. cbn. by rewrite (H x). Qed.

Lemma drop_while_last l x :
  last l = Some x → p x = false → last (drop_while p l) = Some x.
Proof.
  induction l as [|y l IH]; [done|]. intros Hl Hx. cbn.
  destruct (p y) eqn:Hy; [|done].
  destruct l as [|z l]; [cbn in Hl; congruence|]. apply IH; [|done].
  by rewrite last_cons_cons in Hl.
Qed.


End drop_while.


Lemma trimmed_trim l : trimmed (trim l).
Proof.
  unfold trim. set (l1 := drop_while py_isspace l). split; intros c Hc.
  - rewrite head_reverse in Hc.
    destruct (head l1) as [x|] eqn:Hx.
    + pose proof (drop_while_head py_isspace l x Hx) as Hsp.
      rewrite (drop_while_last py_isspace (reverse l1) x) in Hc;
        [congruence| |done].
      by rewrite last_reverse.
    + apply head_None in Hx. rewrite Hx in Hc. done.
  - rewrite last_reverse in Hc. by apply drop_while_head in Hc.
Qed.

Lemma trim_trimmed l : trimmed l → trim l = l.
Proof.
  intros [Hh Hl]. unfold trim. rewrite (drop_while_keep _ l Hh).
  rewrite drop_while_keep; [apply reverse_involutive|].
  intros x. rewrite head_reverse. apply Hl.
Qed.



Lemma strip_trimmed s : trimmed (String.list_ascii_of_string s) ↔ strip s = s.
Proof.
  split.
  - intros H. apply chars_inj. by rewrite chars_strip, trim_trimmed.
  - intros <-. rewrite chars_strip. apply trimmed_trim.
Qed.



Lemma split_cons sep c s :
  split sep (String c s)
  = if Ascii.eqb c sep then EmptyString :: split sep s
    else match split sep s with
         | [] => [String c EmptyString]
         | piece :: pieces => String c piece :: pieces
         end.
Proof. done. Qed.


Lemma split_no_sep sep s :
  sep ∉ String.list_ascii_of_string s → split sep s = [s].
Proof.
  induction s as [|c s IH]; [done|]. cbn [String.list_ascii_of_string].
  intros [Hc Hs]%not_elem_of_cons. rewrite split_cons.
  assert (Ascii.eqb c sep = false) as -> by (apply Ascii.eqb_neq; congruence).
  by rewrite IH.
Qed.

Lemma split_app sep s rest :
  sep ∉ String.list_ascii_of_string s →
  split sep (s +:+ String sep rest) = s :: split sep rest.
Proof.
  induction s as [|c s IH].
  - intros _. change (EmptyString +:+ String sep rest) with (String sep rest).
    by rewrite split_cons, Ascii.eqb_refl.
  - cbn [String.list_ascii_of_string]. intros [Hc Hs]%not_elem_of_cons.
    change (String c s +:+ String sep rest) with (String c (s +:+ String sep rest)).
    rewrite split_cons.
    assert (Ascii.eqb c sep = false) as -> by (apply Ascii.eqb_neq; congruence).
    by rewrite IH.
Qed.

(** Splitting what was joined gives the lines back. *)
Lemma split_join_lines lines :
  lines ≠ [] →
  Forall (λ line, newline ∉ String.list_ascii_of_string line) lines →
  split newline (join_lines lines) = lines.
Proof.
  induction lines as [|line lines IH]; [done|]. intros _ Hall.
  inversion Hall as [|? ? Hl Hls]; subst.
  destruct lines as [|line' lines].
  - cbn. by apply split_no_sep.
  - change (join_lines (line :: line' :: lines))
      with (line +:+ String newline (join_lines (line' :: lines))).
    rewrite split_app by done. f_equal. by apply IH.
Qed.

(** ** The reply parser of [LLMService.generate_questions] *)








(** *** Numbered replies *)

Lemma numbered_not_space c :
  py_isdigit c || Ascii.eqb c "-" = true → py_isspace c = false.
Proof. by destruct c as [[] [] [] [] [] [] [] []]. Qed.

Lemma lstrip_chars_app set p q :
  lstrip_chars set p = EmptyString →
  lstrip_chars set (p +:+ q) = lstrip_chars set q.
Proof.
  induction p as [|c p IH]; [done|]. cbn [lstrip_chars].
  change (String c p +:+ q) with (String c (p +:+ q)). cbn [lstrip_chars].
  destruct (string_mem c set); [done|]. discriminate.
Qed.

Lemma lstrip_chars_nil_elem set p c :
  lstrip_chars set p = EmptyString → c ∈ String.list_ascii_of_string p →
  string_mem c set = true.
Proof.
  induction p as [|d p IH]; [by intros _ ?%elem_of_nil|]. cbn.
  destruct (string_mem d set) eqn:Hd; [|discriminate].
  intros Hp [->|Hc]%elem_of_cons; [done|]. by apply IH.
Qed.

Section numbered_line.
Context (p q : string) (Hp : numbering p) (Hq : plain_question q).

Lemma numbered_line_trimmed : trimmed (String.list_ascii_of_string (p +:+ q)).
Proof.
  destruct Hp as [Hnum _], Hq as [(Hne & Hstrip%strip_trimmed & _) _].
  rewrite chars_app. split; intros c Hc.
  - destruct p as [|d p']; [done|]. cbn in Hc. injection Hc as <-.
    by apply numbered_not_space.
  - rewrite last_app in Hc. destruct (last (String.list_ascii_of_string q)) as [d|] eqn:Hl.
    + injection Hc as <-. by apply Hstrip.
    + apply last_None, chars_nil in Hl. done.
Qed.

Lemma numbered_line_no_newline : newline ∉ String.list_ascii_of_string (p +:+ q).
Proof.
  destruct Hp as [_ Hset], Hq as [(_ & _ & Hnl) _].
  rewrite chars_app. intros [Hin|Hin]%elem_of_app; [|done].
  by apply (lstrip_chars_nil_elem _ _ _ Hset) in Hin.
Qed.

Lemma numbered_line_nonempty : p +:+ q ≠ EmptyString.
Proof. destruct Hp as [Hnum _]. by destruct p. Qed.

Lemma parse_line_numbered : parse_line (p +:+ q) = Some q.
Proof.
  unfold parse_line.
  rewrite (proj1 (strip_trimmed _) numbered_line_trimmed).
  destruct Hp as [Hnum Hset], Hq as [(Hne & Hstrip & _) Hkeep].
  assert (numbered (p +:+ q) = true) as -> by (by destruct p).
  rewrite (lstrip_chars_app _ _ _ Hset), Hkeep, Hstrip.
  by rewrite decide_False.
Qed.

End numbered_line.

Lemma join_lines_cons line line' lines :
  join_lines (line :: line' :: lines)
  = line +:+ String newline (join_lines (line' :: lines)).
Proof. done. Qed.

Lemma join_lines_trimmed lines :
  Forall (λ line, line ≠ EmptyString ∧ trimmed (String.list_ascii_of_string line)) lines →
  trimmed (String.list_ascii_of_string (join_lines lines))
  ∧ (lines ≠ [] → join_lines lines ≠ EmptyString).
Proof.
  induction lines as [|line lines IH]; [done|]. intros Hall.
  inversion Hall as [|? ? [Hne [Hh Hl]] Hls]; subst.
  destruct lines as [|line' lines]; [done|].
  destruct (IH Hls) as [[_ Hl'] Hne']. rewrite join_lines_cons. split.
  - rewrite chars_app. split; intros c Hc.
    + apply Hh. destruct line; [done|]. done.
    + rewrite last_app in Hc. cbn [String.list_ascii_of_string] in Hc.
      destruct (String.list_ascii_of_string (join_lines (line' :: lines)))
        as [|d l] eqn:HJ.
      * apply chars_nil in HJ. by apply Hne' in HJ.
      * rewrite last_cons_cons in Hc. apply Hl'.
        destruct (last (d :: l)) eqn:Hld; [done|]. by apply last_None in Hld.
  - intros _. by destruct line.
Qed.

(** X2. A reply that is a list of numbered questions, one a line, is
    parsed into exactly those questions, in order, cut to
    [num_questions]: the numbering is any text that starts with a digit
    or a dash and consists of digits, dots, dashes and blanks, and a
    question is a non-empty line without white space at its ends that
    does not itself start with such a character. *)
Theorem parse_questions_numbered (numbered_questions : list (string * string)) n :
  Forall (λ pq, numbering pq.1 ∧ plain_question pq.2) numbered_questions →
  parse_questions (join_lines ((λ pq, pq.1 +:+ pq.2) <$> numbered_questions)) n
  = slice_to n (numbered_questions.*2).
Proof.
  intros Hall. unfold parse_questions.
  set (lines := (λ pq, pq.1 +:+ pq.2) <$> numbered_questions).
  destruct numbered_questions as [|pq pqs]; [by destruct (0 <=? n)|].
  assert (Forall (λ line, line ≠ EmptyString
                          ∧ trimmed (String.list_ascii_of_string line)) lines) as Htr.
  { apply Forall_fmap, (Forall_impl _ _ _ Hall). intros [p q] [Hp Hq]. cbn. split.
    - by apply numbered_line_nonempty.
    - by apply numbered_line_trimmed. }
  assert (Forall (λ line, newline ∉ String.list_ascii_of_string line) lines) as Hnl.
  { apply Forall_fmap, (Forall_impl _ _ _ Hall). intros [p q] [Hp Hq]. cbn.
    by apply numbered_line_no_newline. }
  rewrite (proj1 (strip_trimmed _) (proj1 (join_lines_trimmed lines Htr))).
  rewrite split_join_lines by done.
  assert (omap parse_line lines = (pq :: pqs).*2) as ->.
  { unfold lines. clear -Hall. induction Hall as [|[p q] l [Hp Hq] _ IH]; [done|].
    cbn. rewrite parse_line_numbered by done. cbn. by f_equal. }
  done.
Qed.

Lemma parse_questions_numbered_witness :
  parse_questions
    (join_lines ["1. What is light?"; "2. Why is it green?"; "- 3. Who asks?"]%string) 5
  = ["What is light?"; "Why is it green?"; "Who asks?"]%string.
Proof.
  apply (parse_questions_numbered
           [("1. ", "What is light?"); ("2. ", "Why is it green?");
            ("- 3. ", "Who asks?")]%string 5).
  repeat (apply List.Forall_cons;
          [split; [split; by vm_compute
                  |split; [split_and!; [done|by vm_compute|compute_done]
                          |by vm_compute]]|]).
  apply List.Forall_nil.
Defined.

(** ** Generating questions ([generate_questions], [get_questions]) *)

Lemma foldl_add_staging_question now run_id acc texts :
  foldl (add_staging_question now run_id) acc texts
  = acc ++ new_staging_questions now run_id (qs_id <$> acc) texts.
Proof.
  revert acc. induction texts as [|t texts IH]; intros acc; cbn.
  - by rewrite app_nil_r.
  - rewrite IH. unfold add_staging_question.
    rewrite fmap_app, <- app_assoc. done.
Qed.

Lemma new_staging_questions_spec now run_id ids texts :
  qs_question_text <$> new_staging_questions now run_id ids texts = texts
  ∧ Forall (pending_question now run_id) (new_staging_questions now run_id ids texts)
  ∧ (∀ q, q ∈ new_staging_questions now run_id ids texts → ∀ x, x ∈ ids → x < qs_id q)
  ∧ NoDup (qs_id <$> new_staging_questions now run_id ids texts).
Proof.
  revert ids. induction texts as [|t texts IH]; intros ids; cbn.
  - split_and!; [done|done| |apply NoDup_nil_2]. by intros q ?%elem_of_nil.
  - destruct (IH (ids ++ [next_rowid ids])) as (Ht & Hp & Hgt & Hnd).
    split_and!.
    + by rewrite Ht.
    + by constructor.
    + intros q [->|Hq]%elem_of_cons x Hx; cbn.
      * by apply next_rowid_gt.
      * apply (Hgt q Hq). apply elem_of_app. by left.
    + apply NoDup_cons. split; [|done].
      intros (q & Hid & Hq)%list_elem_of_fmap.
      specialize (Hgt q Hq (next_rowid ids)). rewrite <- Hid in Hgt.
      assert (next_rowid ids < next_rowid ids); [|lia].
      apply Hgt, elem_of_app. right. by apply list_elem_of_singleton.
Qed.

Lemma new_staging_questions_pk now run_id ids texts :
  pk_ok ids →
  pk_ok (ids ++ (qs_id <$> new_staging_questions now run_id ids texts)).
Proof.
  revert ids. induction texts as [|t texts IH]; intros ids Hpk; cbn.
  - by rewrite app_nil_r.
  - rewrite cons_middle, (assoc_L (++)). apply IH. by apply pk_ok_snoc.
Qed.

Section generate_questions_call.
Context (now : Z) (llm : LLMService) (run_id : string) (n : Z) (st st' : Store).
Context (created : list QuestionStaging).
Context (Hcall : generate_questions now (Some llm) run_id n st = (st', Ok created)).

Lemma generate_questions_inv :
  ∃ run texts,
    find_run run_id st = Some run
    ∧ llm_generate_questions llm (r_summary run) n = Some texts
    ∧ created = new_staging_questions now run_id (qs_id <$> question_staging st) texts
    ∧ st' = mkStore (runs st) (question_staging st ++ created) (answer_staging st)
              (questions st) (answers st) (tags st).
Proof.
  revert Hcall. unfold generate_questions.
  destruct (find_run run_id st) as [run|] eqn:Hrun; [|done].
  destruct (llm_generate_questions llm (r_summary run) n) as [texts|] eqn:Ht; [|done].
  rewrite foldl_add_staging_question, drop_app_length. intros [= <- <-].
  exists run, texts. done.
Qed.

Lemma generate_questions_wf : store_wf st → store_wf st'.
Proof.
  destruct generate_questions_inv as (run & texts & _ & _ & Hc & Hst).
  intros [? ? ? ?]. rewrite Hst. split; cbn; [|done..].
  rewrite fmap_app, Hc. by apply new_staging_questions_pk.
Qed.

End generate_questions_call.

(** X3. A successful generate-questions request appends one pending
    staging question per text the service returned, in that order, to
    the staging table: the rows that were there are kept as they were,
    the new rows belong to the run, carry no tag, and receive rowids
    that are distinct and larger than every rowid of the table; no
    other table changes.  The response is the list of the new rows, and
    listing the questions of the run afterwards gives the former
    listing followed by them. *)
Theorem generate_questions_appends now llm run_id n st st' created :
  generate_questions now (Some llm) run_id n st = (st', Ok created) →
  (∃ run, find_run run_id st = Some run
          ∧ llm_generate_questions llm (r_summary run) n
            = Some (qs_question_text <$> created))
  ∧ question_staging st' = question_staging st ++ created
  ∧ Forall (pending_question now run_id) created
  ∧ NoDup (qs_id <$> created)
  ∧ (∀ q q0, q ∈ created → q0 ∈ question_staging st → qs_id q0 < qs_id q)
  ∧ (runs st', answer_staging st', questions st', answers st', tags st')
    = (runs st, answer_staging st, questions st, answers st, tags st)
  ∧ (∃ listed, get_questions run_id st = Ok listed
               ∧ get_questions run_id st' = Ok (listed ++ created)).
Proof.
  intros Hcall.
  destruct (generate_questions_inv _ _ _ _ _ _ _ Hcall) as (run & texts & Hrun & Ht & Hc & Hst).
  destruct (new_staging_questions_spec now run_id (qs_id <$> question_staging st) texts)
    as (Htexts & Hp & Hgt & Hnd).
  rewrite <- Hc in Htexts, Hp, Hgt, Hnd.
  split_and!.
  - exists run. by rewrite Htexts.
  - by rewrite Hst.
  - done.
  - done.
  - intros q q0 Hq Hq0. apply (Hgt q Hq). by apply list_elem_of_fmap_2.
  - by rewrite Hst.
  - exists (filter (λ q, qs_run_id q = run_id) (question_staging st)).
    unfold get_questions. rewrite Hrun.
    assert (find_run run_id st' = Some run) as -> by (by rewrite Hst).
    split; [done|]. rewrite Hst. cbn. rewrite filter_app. do 2 f_equal.
    apply filter_all. intros q Hq. rewrite Forall_forall in Hp. by apply Hp.
Qed.

Lemma generate_questions_appends_witness :
  let st' := (generate_questions 5 (Some example_llm) "r" 3 example_reviewed).1 in
  qs_id <$> question_staging st' = [1; 2; 3; 4; 5; 6]
  ∧ (∃ listed, get_questions "r" example_reviewed = Ok listed
               ∧ get_questions "r" st'
                 = Ok (listed ++ [mkQuestionStaging 4 "r" "q1" None 5 ∅;
                                  mkQuestionStaging 5 "r" "q2" None 5 ∅;
                                  mkQuestionStaging 6 "r" "q3" None 5 ∅])).
Proof.
  cbn zeta.
  destruct (generate_questions_appends 5 example_llm "r" 3 example_reviewed
              (generate_questions 5 (Some example_llm) "r" 3 example_reviewed).1
              [mkQuestionStaging 4 "r" "q1" None 5 ∅;
               mkQuestionStaging 5 "r" "q2" None 5 ∅;
               mkQuestionStaging 6 "r" "q3" None 5 ∅])
    as (_ & Htable & _ & _ & _ & _ & Hlist).
  - by vm_compute.
  - split; [by rewrite Htable|exact Hlist].
Defined.



(** ** Keys under every request *)

Lemma update_run_ids run_id (f : Run → Run) rs :
  (∀ r, r_id (f r) = r_id r) → r_id <$> update_run run_id f rs = r_id <$> rs.
Proof.
  intros Hf. unfold update_run. rewrite <- list_fmap_compose.
  apply list_fmap_ext. intros _ r _. cbn. by case_decide.
Qed.

Lemma touch_staging_ids now run_id rs : r_id <$> touch_staging now run_id rs = r_id <$> rs.
Proof. by apply update_run_ids. Qed.

Lemma find_tag_None name ts : find_tag name ts = None ↔ name ∉ tag_name <$> ts.
Proof.
  induction ts as [|t ts IH].
  - split; [|done]. by intros _ ?%elem_of_nil.
  - rewrite find_tag_cons, fmap_cons, not_elem_of_cons. case_decide.
    + split; [done|]. intros [? _]. congruence.
    + rewrite IH. split; [intros ?; split; congruence|by intros [_ ?]].
Qed.

Lemma find_tag_Some name ts t : find_tag name ts = Some t → t ∈ ts ∧ tag_name t = name.
Proof.
  induction ts as [|t' ts IH]; [done|]. rewrite find_tag_cons. case_decide.
  - intros [= ->]. split; [apply elem_of_cons; by left|done].
  - intros [? ?]%IH. split; [apply elem_of_cons; by right|done].
Qed.

(** The loop of [update_question_tags] over the names: the tag table
    only grows, keeps its keys, and every collected id is in it. *)
Lemma resolve_tags_spec names ts flushed objs ts' flushed' objs' :
  foldl resolve_tag (ts, flushed, objs) names = (ts', flushed', objs') →
  pk_ok (tag_id <$> ts) → NoDup (tag_name <$> ts) →
  (∀ i, i ∈ objs → i ∈ tag_id <$> ts) →
  pk_ok (tag_id <$> ts') ∧ NoDup (tag_name <$> ts')
  ∧ ts `prefix_of` ts'
  ∧ (∀ i, i ∈ objs' → i ∈ tag_id <$> ts').
Proof.
  revert ts flushed objs. induction names as [|name names IH]; intros ts flushed objs.
  { cbn. intros [= <- <- <-]. done. }
  cbn [foldl]. unfold resolve_tag at 2.
  destruct (decide (strip name = EmptyString)) as [|Hne]; [apply IH|].
  destruct (find_tag (strip name) ts) as [t|] eqn:Hf.
  - intros Hfold Hpk Hnd Hobjs.
    apply (IH _ _ _ Hfold Hpk Hnd). intros i [Hi| ->%list_elem_of_singleton]%elem_of_app.
    + by apply Hobjs.
    + apply find_tag_Some in Hf as [Ht _]. by apply list_elem_of_fmap_2.
  - intros Hfold Hpk Hnd Hobjs.
    destruct (IH _ _ _ Hfold) as (Hpk' & Hnd' & Hpre & Hobjs').
    + rewrite fmap_app. by apply pk_ok_snoc.
    + rewrite fmap_app. apply NoDup_app. split_and!; [done| |apply NoDup_singleton].
      intros x Hx ->%list_elem_of_singleton. by apply find_tag_None in Hf.
    + intros i [Hi| ->%list_elem_of_singleton]%elem_of_app.
      * rewrite fmap_app. apply elem_of_app. left. by apply Hobjs.
      * rewrite fmap_app. apply elem_of_app. right. by apply list_elem_of_singleton.
    + split_and!; [done..| |done].
      etrans; [|exact Hpre]. by apply prefix_app_r.
Qed.

Lemma inserted_staging_pk ids added :
  pk_ok ids → pk_ok (ids ++ (as_id <$> inserted_staging ids added)).
Proof.
  revert ids. induction added as [|a added IH]; intros ids Hpk; cbn.
  - by rewrite app_nil_r.
  - rewrite cons_middle, (assoc_L (++)). apply IH. by apply pk_ok_snoc.
Qed.

Lemma find_staging_answer_update st a :
  find_staging_answer (as_id a) st = Some a → a ∈ answer_staging st.
Proof. by intros [? _]%find_staging_answer_Some. Qed.

Section keys.
Context (now : Z) (st : Store) (Hk : keys_ok st).

Lemma keys_ok_create_run new_id summary :
  keys_ok (create_run now new_id summary st).1.
Proof.
  unfold create_run. case_decide as Hin; [done|].
  destruct Hk as [[? ? ? ?] Hr ? ?]. split; [done| |done..]. cbn.
  rewrite fmap_app. apply NoDup_app. split_and!; [done| |apply NoDup_singleton].
  by intros x Hx ->%list_elem_of_singleton.
Qed.

Lemma keys_ok_generate_questions llm run_id n :
  keys_ok (generate_questions now llm run_id n st).1.
Proof.
  destruct (generate_questions now llm run_id n st) as [st' [created|code]] eqn:Hcall.
  - destruct llm as [llm|]; [|done].
    pose proof (generate_questions_wf _ _ _ _ _ _ _ Hcall (keys_store _ Hk)) as Hwf.
    destruct (generate_questions_inv _ _ _ _ _ _ _ Hcall) as (_ & _ & _ & _ & _ & Hst).
    destruct Hk as [_ ? ? ?]. split; [done|..]; by rewrite Hst.
  - revert Hcall. unfold generate_questions.
    destruct llm as [llm|]; [|by intros [= <- _]].
    destruct (find_run run_id st) as [run|]; [|by intros [= <- _]].
    destruct (llm_generate_questions llm _ _); [done|by intros [= <- _]].
Qed.

Lemma keys_ok_update_question_approval question_id b :
  keys_ok (update_question_approval now question_id b st).1.
Proof.
  destruct (update_question_approval now question_id b st) as [st' [question|code]]
    eqn:Hcall.
  - pose proof (update_question_approval_wf _ _ _ _ _ _ (keys_store _ Hk) Hcall) as Hwf.
    destruct (update_question_approval_inv _ _ _ _ _ _ Hcall) as (q0 & _ & _ & _ & Hst).
    destruct Hk as [_ ? ? ?]. split; [done|..]; rewrite Hst; cbn; [|done..].
    by rewrite touch_staging_ids.
  - revert Hcall. unfold update_question_approval.
    destruct (find_staging_question question_id st); [done|by intros [= <- _]].
Qed.

Lemma keys_ok_generate_answers llm run_id :
  keys_ok (generate_answers now llm run_id st).1.
Proof.
  destruct (generate_answers now llm run_id st) as [st' [created|code]] eqn:Hcall.
  - destruct llm as [llm|]; [|done].
    destruct (generate_answers_inv _ _ _ _ _ _ Hcall)
      as (run & deleted & added & _ & _ & _ & Hc & Hst).
    destruct Hk as [[? ? ? ?] ? ? ?]. rewrite Hst. split; [split|..]; cbn; try done.
    apply pk_ok_filter. rewrite fmap_app, Hc. by apply inserted_staging_pk.
  - revert Hcall. unfold generate_answers.
    destruct llm as [llm|]; [|by intros [= <- _]].
    destruct (find_run run_id st) as [run|]; [|by intros [= <- _]].
    destruct (approved_questions run_id st); [by intros [= <- _]|].
    destruct (generate_answers_loop _ _ _ _ _ _) as [[]|]; [done|by intros [= <- _]].
Qed.

Lemma keys_ok_update_answer_approval answer_id b :
  keys_ok (update_answer_approval now answer_id b st).1.
Proof.
  unfold update_answer_approval.
  destruct (find_staging_answer answer_id st) as [answer|] eqn:Hf; [|done].
  destruct Hk as [[? ? ? ?] ? ? ?]. split; [split|..]; cbn; try done.
  - by rewrite update_staging_answer_ids.
  - by rewrite touch_staging_ids.
Qed.

Lemma keys_ok_update_question_tags question_id names :
  keys_ok (update_question_tags now question_id names st).1.
Proof.
  destruct (update_question_tags now question_id names st) as [st' [ts|code]] eqn:Hcall.
  - pose proof (update_question_tags_wf _ _ _ _ _ _ (keys_store _ Hk) Hcall) as Hwf.
    destruct (update_question_tags_inv _ _ _ _ _ _ Hcall)
      as (q0 & tbl & fl & objs & _ & _ & Hfold & _ & Hst).
    destruct Hk as [_ ? Hpk Hnd].
    destruct (resolve_tags_spec _ _ _ _ _ _ _ Hfold Hpk Hnd) as (? & ? & _).
    { by intros i ?%elem_of_nil. }
    split; [done|..]; rewrite Hst; cbn; [|done..].
    by rewrite touch_staging_ids.
  - revert Hcall. unfold update_question_tags.
    destruct (find_staging_question question_id st); [|by intros [= <- _]].
    destruct (foldl _ _ names) as [[? ?] ?]. case_decide; [done|by intros [= <- _]].
Qed.

Lemma keys_ok_sync_to_actual run_id fault :
  keys_ok (sync_to_actual now run_id fault st).1.
Proof.
  destruct fault as [s|].
  - unfold sync_to_actual. destruct (find_run run_id st); [|done].
    by rewrite sync_pass_fault.
  - destruct (find_run run_id st) as [run|] eqn:Hrun.
    + rewrite (sync_to_actual_closed now run_id st (keys_store _ Hk) run Hrun).
      destruct Hk as [? ? ? ?]. split; cbn; [by apply synced_store_wf| |done..].
      by rewrite update_run_ids.
    + unfold sync_to_actual. by rewrite Hrun.
Qed.

Lemma keys_ok_handle r : keys_ok (handle now r st).1.
Proof.
  destruct r; cbn [handle]; unfold prod_map; cbn [fst].
  - apply keys_ok_create_run.
  - apply keys_ok_generate_questions.
  - apply keys_ok_update_question_approval.
  - apply keys_ok_generate_answers.
  - apply keys_ok_update_answer_approval.
  - apply keys_ok_update_question_tags.
  - apply keys_ok_sync_to_actual.
Qed.

End keys.

Lemma keys_ok_serve st requests : keys_ok st → keys_ok (serve st requests).
Proof.
  revert st. induction requests as [|[now r] requests IH]; intros st Hk; [done|].
  cbn. apply IH. by apply keys_ok_handle.
Qed.

(** ** What a request does to the store *)

Lemma elem_of_update_staging_question i f l sq' :
  sq' ∈ update_staging_question i f l
  ↔ ∃ sq, sq ∈ l ∧ sq' = if decide (qs_id sq = i) then f sq else sq.
Proof.
  unfold update_staging_question. rewrite list_elem_of_fmap. naive_solver.
Qed.

Lemma elem_of_update_staging_answer i f l sa' :
  sa' ∈ update_staging_answer i f l
  ↔ ∃ sa, sa ∈ l ∧ sa' = if decide (as_id sa = i) then f sa else sa.
Proof.
  unfold update_staging_answer. rewrite list_elem_of_fmap. naive_solver.
Qed.

Lemma find_staging_question_elem st q :
  NoDup (qs_id <$> question_staging st) → q ∈ question_staging st →
  find_staging_question (qs_id q) st = Some q.
Proof.
  intros Hnd Hq. destruct (find_staging_question (qs_id q) st) as [q'|] eqn:Hf.
  - apply find_staging_question_Some in Hf as [Hq' Hid]. f_equal.
    apply list_elem_of_lookup in Hq as [i Hi], Hq' as [j Hj].
    assert (j = i) as ->; [|congruence].
    eapply NoDup_lookup; [exact Hnd| |]; rewrite list_lookup_fmap.
    + by rewrite Hj.
    + rewrite Hi. cbn. by rewrite Hid.
  - exfalso. unfold find_staging_question in Hf.
    destruct (list_find _ _) as [[]|] eqn:Hl; [done|].
    apply list_find_None in Hl. rewrite Forall_forall in Hl. by apply (Hl q).
Qed.

Section cases.
Context (now : Z) (st : Store).

Lemma create_run_cases new_id summary :
  (create_run now new_id summary st).1 = st
  ∨ ((new_id ∉ r_id <$> runs st)
     ∧ (create_run now new_id summary st).1
       = mkStore (runs st ++ [mkRun new_id summary now None (Some now)])
           (question_staging st) (answer_staging st) (questions st) (answers st)
           (tags st)).
Proof. unfold create_run. case_decide; [by left|by right]. Qed.

Lemma generate_questions_cases llm run_id n :
  (generate_questions now llm run_id n st).1 = st
  ∨ ∃ run texts,
      find_run run_id st = Some run
      ∧ (generate_questions now llm run_id n st).1
        = mkStore (runs st)
            (question_staging st
             ++ new_staging_questions now run_id (qs_id <$> question_staging st) texts)
            (answer_staging st) (questions st) (answers st) (tags st).
Proof.
  unfold generate_questions. destruct llm as [llm|]; [|by left].
  destruct (find_run run_id st) as [run|] eqn:Hrun; [|by left].
  destruct (llm_generate_questions llm _ _) as [texts|]; [|by left].
  right. exists run, texts. by rewrite foldl_add_staging_question.
Qed.

Lemma update_question_approval_cases question_id b :
  (update_question_approval now question_id b st).1 = st
  ∨ ∃ q0, q0 ∈ question_staging st ∧ qs_id q0 = question_id
      ∧ (update_question_approval now question_id b st).1
        = mkStore (touch_staging now (qs_run_id q0) (runs st))
            (update_staging_question question_id
               (λ _, mkQuestionStaging question_id (qs_run_id q0)
                       (qs_question_text q0) (Some b) now (qs_tags q0))
               (question_staging st))
            (if b then answer_staging st
             else filter (λ a, as_question_id a ≠ question_id) (answer_staging st))
            (questions st) (answers st) (tags st).
Proof.
  unfold update_question_approval.
  destruct (find_staging_question question_id st) as [q0|] eqn:Hq0; [|by left].
  apply find_staging_question_Some in Hq0 as [Hin Hid]. right. exists q0.
  by rewrite Hid.
Qed.

Lemma generate_answers_cases llm run_id :
  (generate_answers now llm run_id st).1 = st
  ∨ ∃ llm' run deleted added,
      llm = Some llm' ∧ find_run run_id st = Some run
      ∧ generate_answers_loop now llm' run st (approved_questions run_id st) ([], [])
        = Some (deleted, added)
      ∧ (generate_answers now llm run_id st).1
        = mkStore (runs st) (question_staging st)
            (filter (λ a, as_id a ∉ deleted)
               (answer_staging st
                ++ inserted_staging (as_id <$> answer_staging st) added))
            (questions st) (answers st) (tags st).
Proof.
  unfold generate_answers. destruct llm as [llm|]; [|by left].
  destruct (find_run run_id st) as [run|] eqn:Hrun; [|by left].
  destruct (approved_questions run_id st) as [|q0 AQ0] eqn:HAQ; [by left|].
  destruct (generate_answers_loop _ _ _ _ _ _) as [[deleted added]|] eqn:Hloop;
    [|by left].
  right. exists llm, run, deleted, added. by rewrite foldl_insert_staging_answer.
Qed.

Lemma update_answer_approval_cases answer_id b :
  (update_answer_approval now answer_id b st).1 = st
  ∨ ∃ a0, a0 ∈ answer_staging st ∧ as_id a0 = answer_id
      ∧ (update_answer_approval now answer_id b st).1
        = mkStore (touch_staging now (as_run_id a0) (runs st)) (question_staging st)
            (update_staging_answer answer_id (λ _, set_answer_approval now b a0)
               (answer_staging st))
            (questions st) (answers st) (tags st).
Proof.
  unfold update_answer_approval.
  destruct (find_staging_answer answer_id st) as [a0|] eqn:Ha0; [|by left].
  apply find_staging_answer_Some in Ha0 as [Hin Hid]. right. exists a0.
  by rewrite <- Hid.
Qed.

Lemma update_question_tags_cases question_id names :
  (update_question_tags now question_id names st).1 = st
  ∨ ∃ q0 tbl flushed objs,
      q0 ∈ question_staging st ∧ qs_id q0 = question_id
      ∧ foldl resolve_tag (tags st, false, []) names = (tbl, flushed, objs)
      ∧ (update_question_tags now question_id names st).1
        = mkStore (touch_staging now (qs_run_id q0) (runs st))
            (update_staging_question question_id
               (λ _, mkQuestionStaging question_id (qs_run_id q0)
                       (qs_question_text q0) (qs_is_approved q0) now
                       (list_to_set objs))
               (question_staging st))
            (answer_staging st) (questions st) (answers st) tbl.
Proof.
  unfold update_question_tags.
  destruct (find_staging_question question_id st) as [q0|] eqn:Hq0; [|by left].
  destruct (foldl _ _ names) as [[tbl flushed] objs] eqn:Hfold.
  case_decide; [|by left].
  apply find_staging_question_Some in Hq0 as [Hin Hid]. right.
  exists q0, tbl, flushed, objs. by rewrite Hid.
Qed.

Lemma sync_to_actual_cases run_id fault :
  store_wf st →
  (sync_to_actual now run_id fault st).1 = st
  ∨ (fault = None ∧ is_Some (find_run run_id st)
     ∧ (sync_to_actual now run_id fault st).1 = synced_store now run_id st).
Proof.
  intros Hwf. destruct fault as [s|].
  - left. unfold sync_to_actual. destruct (find_run run_id st); [|done].
    by rewrite sync_pass_fault.
  - destruct (find_run run_id st) as [run|] eqn:Hrun.
    + right. by rewrite (sync_to_actual_closed now run_id st Hwf run Hrun).
    + left. unfold sync_to_actual. by rewrite Hrun.
Qed.

End cases.

(** ** Rows before and after a pass *)

Section origin.
Context (now : Z) (run_id : string) (st : Store) (Hwf : store_wf st).

Abbreviation AQ := (approved_questions run_id st).
Abbreviation AA := (approved_answers run_id st).
Abbreviation Aq := (approved_staging_question_ids run_id st).
Abbreviation Wq := (approved_questions_with_answers run_id st).
Abbreviation m0 := (staging_to_actual_question run_id (questions st)).
Abbreviation qs2 := (upserted_questions now run_id st).
Abbreviation qs4 := (synced_questions now run_id st).

Lemma demoted_tags q : q_tags (demoted now run_id Aq Wq q) = q_tags q.
Proof. by destruct (demoted_spec now run_id Aq Wq q) as [[_ ->]|[_ ->]]. Qed.

(** A row after the pass is a row from before, with its key, or a row
    created for an approved staging question. *)
Lemma synced_question_origin x :
  x ∈ qs4 →
  (∃ x0, x0 ∈ questions st ∧ q_key x0 = q_key x
         ∧ (x = x0 ∨ q_run_id x0 = run_id)
         ∧ (q_tags x = q_tags x0 ∨ ∃ sq, sq ∈ AQ ∧ q_tags x = qs_tags sq))
  ∨ (∃ sq, sq ∈ AQ ∧ q_run_id x = run_id ∧ q_staging_id x = Some (qs_id sq)
           ∧ q_tags x = qs_tags sq).
Proof.
  unfold synced_questions. intros (x2 & -> & Hx2)%list_elem_of_fmap.
  pose proof (demoted_key now run_id Aq Wq x2) as [= Hi Hr Hs].
  unfold upserted_questions in Hx2. apply elem_of_app in Hx2 as [Hx2|Hx2].
  - left. apply list_elem_of_fmap in Hx2 as (x0 & -> & Hx0). exists x0.
    pose proof (upserted_key now Wq m0 AQ x0) as [= Hi0 Hr0 Hs0].
    split_and!; [done| |..].
    + unfold q_key. congruence.
    + destruct (decide (q_run_id x0 = run_id)) as [|Hne]; [by right|]. left.
      rewrite upserted_not_hit.
      * destruct (demoted_spec now run_id Aq Wq x0) as [[[? _] _]|[_ ->]]; done.
      * intros sq Hsq Hm. apply stq_Some in Hm as (x' & Hx' & Hid & Hr' & _).
        assert (x' = x0) as -> by (by apply (question_eq_of_id st Hwf)). done.
    + rewrite demoted_tags.
      destruct (upserted_spec now Wq m0 AQ x0) as [->|(sq & Hsq & _ & ->)];
        [by left|]. right. by exists sq.
  - right. apply created_spec in Hx2 as (sq & i & Hsq & _ & -> & _).
    exists sq. rewrite demoted_tags. cbn in *. done.
Qed.

Lemma synced_question_persists x0 :
  x0 ∈ questions st → ∃ x, x ∈ qs4 ∧ q_key x = q_key x0.
Proof.
  intros Hx0. exists (demoted now run_id Aq Wq (upserted now Wq m0 AQ x0)). split.
  - unfold synced_questions, upserted_questions.
    apply list_elem_of_fmap_2, elem_of_app. left. by apply list_elem_of_fmap_2.
  - by rewrite demoted_key, upserted_key.
Qed.

(** An answer after the pass is an answer from before, with its key,
    or the answer inserted for an approved staging answer under a
    question of the run. *)
Lemma synced_answer_origin a :
  a ∈ synced_answers now run_id st →
  (∃ a0, a0 ∈ answers st ∧ a_key a0 = a_key a)
  ∨ (∃ sa q, sa ∈ AA ∧ q ∈ qs4 ∧ q_run_id q = run_id
             ∧ q_staging_id q = Some (as_question_id sa)
             ∧ a_run_id a = run_id ∧ a_question_id a = q_id q
             ∧ a_staging_id a = Some (as_id sa)).
Proof.
  unfold synced_answers. intros [_ [Ha|Ha]%elem_of_app]%list_elem_of_filter.
  - left. unfold rewritten_answers in Ha.
    apply list_elem_of_fmap in Ha as (a0 & -> & Ha0). exists a0.
    by rewrite answered_key.
  - right. apply inserted_spec in Ha as (na & j & Hna & ->).
    apply elem_of_added_for in Hna as (sa & i & Hsa & Ht & _ & ->). cbn.
    pose proof (upserted_questions_pk now run_id st Hwf) as Hpk2.
    apply (target_Some run_id _ _ _ _ (proj1 Hpk2)) in Ht as (_ & _ & q2 & Hm & Hid).
    apply mapped_Some in Hm as (Hq2 & Hr2 & Hs2).
    pose proof (demoted_key now run_id Aq Wq q2) as [= Hdi Hdr Hds].
    exists sa, (demoted now run_id Aq Wq q2). split_and!; try done; try congruence.
    unfold synced_questions. by apply list_elem_of_fmap_2.
Qed.

(** The reconciliation key of every run survives a pass. *)
Lemma unique_synced_any run_id' :
  unique_staging_ids run_id' (questions st) → unique_staging_ids run_id' qs4.
Proof.
  destruct (decide (run_id' = run_id)) as [->|Hne]; [by apply unique_synced|].
  intros Hu q q' Hq Hq' Hr Hr' Hs Hn.
  destruct (synced_question_origin q Hq) as [(x0 & Hx0 & [= Hi0 Hr0 Hs0] & _)
                                            |(_ & _ & ? & _)]; [|congruence].
  destruct (synced_question_origin q' Hq') as [(x0' & Hx0' & [= Hi0' Hr0' Hs0'] & _)
                                              |(_ & _ & ? & _)]; [|congruence].
  rewrite <- Hi0, <- Hi0'. apply Hu; congruence.
Qed.

End origin.

(** ** References under every request *)

Lemma elem_of_prefix {A} (l1 l2 : list A) x : l1 `prefix_of` l2 → x ∈ l1 → x ∈ l2.
Proof. intros [k ->] Hx. apply elem_of_app. by left. Qed.

Section references.
Context (now : Z) (st : Store) (Hk : keys_ok st) (Hr : references_ok st).

Lemma references_ok_create_run new_id summary :
  references_ok (create_run now new_id summary st).1.
Proof.
  destruct (create_run_cases now st new_id summary) as [->|[_ ->]]; [done|].
  destruct Hr as [H1 H2 H3 H4 H5 H6]. split; cbn; try done.
  intros sq Hsq. rewrite fmap_app. apply elem_of_app. left. by apply H1.
Qed.

Lemma references_ok_generate_questions llm run_id n :
  references_ok (generate_questions now llm run_id n st).1.
Proof.
  destruct (generate_questions_cases now st llm run_id n)
    as [->|(run & texts & Hrun & ->)]; [done|].
  destruct Hr as [H1 H2 H3 H4 H5 H6].
  destruct (new_staging_questions_spec now run_id (qs_id <$> question_staging st) texts)
    as (_ & Hp & _). rewrite Forall_forall in Hp.
  split; cbn; try done.
  - intros sq [Hsq|Hsq]%elem_of_app; [by apply H1|].
    destruct (Hp sq Hsq) as (-> & _). apply find_run_Some in Hrun as [Hin <-].
    by apply list_elem_of_fmap_2.
  - intros sa Hsa. destruct (H2 sa Hsa) as (sq & Hsq & ? & ?). exists sq.
    split; [|done]. apply elem_of_app. by left.
  - intros q Hq. destruct (H3 q Hq) as (sq & Hsq & ? & ?). exists sq.
    split; [|done]. apply elem_of_app. by left.
  - intros sq t [Hsq|Hsq]%elem_of_app; [by apply H5|].
    destruct (Hp sq Hsq) as (_ & _ & -> & _). by intros ?%elem_of_empty.
Qed.

(** Rewriting the row with key [i] by a row with the same key and run. *)
Lemma rewritten_staging_question i (q0 q1 : QuestionStaging) sq :
  q0 ∈ question_staging st → qs_id q0 = i → qs_id q1 = i →
  qs_run_id q1 = qs_run_id q0 →
  (sq ∈ question_staging st →
   ∃ sq', sq' ∈ update_staging_question i (λ _, q1) (question_staging st)
          ∧ qs_id sq' = qs_id sq ∧ qs_run_id sq' = qs_run_id sq)
  ∧ (sq ∈ update_staging_question i (λ _, q1) (question_staging st) →
     (sq ∈ question_staging st ∧ qs_id sq ≠ i) ∨ sq = q1).
Proof.
  intros Hq0 Hi0 Hi1 Hr1. split.
  - intros Hsq. exists (if decide (qs_id sq = i) then q1 else sq). split.
    + apply elem_of_update_staging_question. by exists sq.
    + case_decide as Hd; [|done]. split; [congruence|].
      rewrite Hr1. f_equal.
      apply (staging_question_eq_of_id st (keys_store _ Hk)); [done..|congruence].
  - intros (sq0 & Hsq0 & ->)%elem_of_update_staging_question.
    case_decide; [by right|by left].
Qed.

Lemma references_ok_rewritten i q0 q1 rs' as' ts' :
  q0 ∈ question_staging st → qs_id q0 = i → qs_id q1 = i →
  qs_run_id q1 = qs_run_id q0 →
  r_id <$> rs' = r_id <$> runs st →
  (∀ sa, sa ∈ as' → ∃ sa0, sa0 ∈ answer_staging st
                           ∧ as_question_id sa = as_question_id sa0
                           ∧ as_run_id sa = as_run_id sa0) →
  tags st `prefix_of` ts' →
  (∀ t, t ∈ qs_tags q1 → t ∈ tag_id <$> ts') →
  references_ok
    (mkStore rs' (update_staging_question i (λ _, q1) (question_staging st)) as'
       (questions st) (answers st) ts').
Proof.
  intros Hq0 Hi0 Hi1 Hr1 Hrs Has Hts Ht1.
  destruct Hr as [H1 H2 H3 H4 H5 H6].
  assert (∀ t, t ∈ tag_id <$> tags st → t ∈ tag_id <$> ts') as Hsub.
  { intros t Ht. destruct Hts as [k ->]. rewrite fmap_app. apply elem_of_app. by left. }
  split; cbn.
  - intros sq Hsq. rewrite Hrs.
    apply (rewritten_staging_question i q0 q1 sq) in Hsq as [[Hsq _]| ->]; try done.
    + by apply H1.
    + rewrite Hr1. by apply H1.
  - intros sa Hsa. destruct (Has sa Hsa) as (sa0 & Hsa0 & -> & ->).
    destruct (H2 sa0 Hsa0) as (sq & Hsq & <- & <-).
    by apply (rewritten_staging_question i q0 q1 sq).
  - intros q Hq. destruct (H3 q Hq) as (sq & Hsq & -> & <-).
    destruct (proj1 (rewritten_staging_question i q0 q1 sq Hq0 Hi0 Hi1 Hr1) Hsq)
      as (sq' & ? & <- & <-).
    by exists sq'.
  - done.
  - intros sq t Hsq Ht.
    apply (rewritten_staging_question i q0 q1 sq) in Hsq as [[Hsq _]| ->]; try done.
    + apply Hsub. by apply (H5 sq).
    + by apply Ht1.
  - intros q t Hq Ht. apply Hsub. by apply (H6 q).
Qed.

Lemma references_ok_update_question_approval question_id b :
  references_ok (update_question_approval now question_id b st).1.
Proof.
  destruct (update_question_approval_cases now st question_id b)
    as [->|(q0 & Hq0 & Hid & ->)]; [done|].
  apply (references_ok_rewritten question_id q0); try done.
  - apply touch_staging_ids.
  - intros sa Hsa. exists sa. split; [|done].
    destruct b; [done|]. by apply list_elem_of_filter in Hsa as [_ ?].
  - cbn. intros t Ht. by apply (ref_staging_tags _ Hr q0).
Qed.

Lemma references_ok_update_question_tags question_id names :
  references_ok (update_question_tags now question_id names st).1.
Proof.
  destruct (update_question_tags_cases now st question_id names)
    as [->|(q0 & tbl & fl & objs & Hq0 & Hid & Hfold & ->)]; [done|].
  destruct (resolve_tags_spec _ _ _ _ _ _ _ Hfold (keys_tags _ Hk) (keys_tag_names _ Hk))
    as (_ & _ & Hpre & Hobjs).
  { by intros i ?%elem_of_nil. }
  apply (references_ok_rewritten question_id q0); try done.
  - apply touch_staging_ids.
  - intros sa Hsa. by exists sa.
  - cbn. intros t Ht%elem_of_list_to_set. by apply Hobjs.
Qed.

Lemma references_ok_update_answer_approval answer_id b :
  references_ok (update_answer_approval now answer_id b st).1.
Proof.
  destruct (update_answer_approval_cases now st answer_id b)
    as [->|(a0 & Ha0 & Hid & ->)]; [done|].
  destruct Hr as [H1 H2 H3 H4 H5 H6]. split; cbn; try done.
  - intros sq Hsq. rewrite touch_staging_ids. by apply H1.
  - intros sa (sa0 & Hsa0 & ->)%elem_of_update_staging_answer.
    case_decide; [|by apply H2]. cbn. by apply H2.
Qed.

Lemma references_ok_generate_answers llm run_id :
  references_ok (generate_answers now llm run_id st).1.
Proof.
  destruct (generate_answers_cases now st llm run_id)
    as [->|(llm' & run & deleted & added & -> & Hrun & Hloop & ->)]; [done|].
  destruct Hr as [H1 H2 H3 H4 H5 H6]. split; cbn; try done.
  intros sa [_ [Hsa|Hsa]%elem_of_app]%list_elem_of_filter; [by apply H2|].
  apply inserted_staging_elem in Hsa as (a0 & Ha0 & -> & _ & ->).
  apply generate_answers_loop_spec in Hloop as (_ & news & Hadd & Hq & Hnews).
  cbn in Hadd. subst added. rewrite Forall_forall in Hnews.
  destruct (Hnews a0 Ha0) as [_ ->].
  assert (as_question_id a0 ∈ as_question_id <$> news) as Hin
    by (by apply list_elem_of_fmap_2).
  rewrite Hq in Hin. apply list_elem_of_fmap in Hin as (sq & -> & Hsq).
  apply list_elem_of_filter in Hsq as [_ Hsq].
  apply elem_of_approved_questions in Hsq as (Hsq & Hrq & _).
  exists sq. split_and!; [done..|]. apply find_run_Some in Hrun as [_ ->]. done.
Qed.

Lemma references_ok_sync_to_actual run_id fault :
  references_ok (sync_to_actual now run_id fault st).1.
Proof.
  pose proof (keys_store _ Hk) as Hwf.
  destruct (sync_to_actual_cases now st run_id fault Hwf) as [->|(_ & _ & ->)]; [done|].
  destruct Hr as [H1 H2 H3 H4 H5 H6]. split; cbn; try done.
  - intros sq Hsq. rewrite update_run_ids by done. by apply H1.
  - intros q Hq.
    destruct (synced_question_origin now run_id st Hwf q Hq)
      as [(x0 & Hx0 & [= Hi Hrr Hs] & _)|(sq & Hsq & Hrq & Hsq' & _)].
    + destruct (H3 x0 Hx0) as (sq & ? & ? & ?). exists sq. split_and!; congruence.
    + apply elem_of_approved_questions in Hsq as (Hsq & ? & _).
      exists sq. split_and!; congruence.
  - intros a Ha.
    destruct (synced_answer_origin now run_id st Hwf a Ha)
      as [(a0 & Ha0 & [= Hi Hra Hqa Hsa])|(sa & q & _ & Hq & Hrq & _ & Hra & Hqa & Hsa)].
    + destruct (H4 a0 Ha0) as (q0 & Hq0 & Hid & Hrun & Hsome).
      destruct (synced_question_persists now run_id st q0 Hq0) as (q & Hq & [= Hqi Hqr _]).
      exists q. split_and!; [done|congruence..].
    + exists q. split_and!; [done|congruence..|by rewrite Hsa].
  - intros q t Hq Ht.
    destruct (synced_question_origin now run_id st Hwf q Hq)
      as [(x0 & Hx0 & _ & _ & [Htags|(sq & Hsq & Htags)])|(sq & Hsq & _ & _ & Htags)];
      rewrite Htags in Ht.
    + by apply (H6 x0).
    + apply elem_of_approved_questions in Hsq as (Hsq & _). by apply (H5 sq).
    + apply elem_of_approved_questions in Hsq as (Hsq & _). by apply (H5 sq).
Qed.

Lemma references_ok_handle r : references_ok (handle now r st).1.
Proof.
  destruct r; cbn [handle]; unfold prod_map; cbn [fst].
  - apply references_ok_create_run.
  - apply references_ok_generate_questions.
  - apply references_ok_update_question_approval.
  - apply references_ok_generate_answers.
  - apply references_ok_update_answer_approval.
  - apply references_ok_update_question_tags.
  - apply references_ok_sync_to_actual.
Qed.

End references.

(** ** Sequences of requests *)

Lemma serve_cons st now r requests :
  serve st ((now, r) :: requests) = serve (handle now r st).1 requests.
Proof. done. Qed.

Lemma serve_snoc st now r requests :
  serve st (requests ++ [(now, r)]) = (handle now r (serve st requests)).1.
Proof. unfold serve. by rewrite foldl_app. Qed.

(** A request other than the pass leaves the published tables alone. *)
Lemma handle_published now r st :
  is_sync r = false →
  questions (handle now r st).1 = questions st
  ∧ answers (handle now r st).1 = answers st.
Proof.
  destruct r as [new_id summary|llm run_id n|question_id b|llm run_id|answer_id b
                |question_id names|run_id fault]; [..|done]; intros _;
    cbn [handle]; unfold prod_map; cbn [fst].
  - by destruct (create_run_cases now st new_id summary) as [->|[_ ->]].
  - by destruct (generate_questions_cases now st llm run_id n) as [->|(? & ? & _ & ->)].
  - by destruct (update_question_approval_cases now st question_id b)
      as [->|(? & _ & _ & ->)].
  - by destruct (generate_answers_cases now st llm run_id)
      as [->|(? & ? & ? & ? & _ & _ & _ & ->)].
  - by destruct (update_answer_approval_cases now st answer_id b)
      as [->|(? & _ & _ & ->)].
  - by destruct (update_question_tags_cases now st question_id names)
      as [->|(? & ? & ? & ? & _ & _ & _ & ->)].
Qed.

Lemma staging_ids_unique_handle now r st :
  store_wf st → staging_ids_unique st → staging_ids_unique (handle now r st).1.
Proof.
  intros Hwf Hu run_id'. destruct (is_sync r) eqn:Hs.
  - destruct r as [| | | | | |run_id fault]; try done.
    cbn [handle]; unfold prod_map; cbn [fst].
    destruct (sync_to_actual_cases now st run_id fault Hwf) as [->|(_ & _ & ->)];
      [apply Hu|].
    apply unique_synced_any; [done|apply Hu].
  - destruct (handle_published now r st Hs) as [-> _]. apply Hu.
Qed.

Lemma integrity_serve st requests :
  keys_ok st → references_ok st → staging_ids_unique st →
  keys_ok (serve st requests) ∧ references_ok (serve st requests)
  ∧ staging_ids_unique (serve st requests).
Proof.
  revert st. induction requests as [|[now r] requests IH]; intros st Hk Hr Hu; [done|].
  rewrite serve_cons. apply IH.
  - by apply keys_ok_handle.
  - by apply references_ok_handle.
  - apply staging_ids_unique_handle; [apply Hk|done].
Qed.

Lemma integrity_empty :
  keys_ok empty_store ∧ references_ok empty_store ∧ staging_ids_unique empty_store.
Proof.
  split_and!.
  - split; [split|..]; cbn; (split || idtac); try apply NoDup_nil_2; done.
  - split; cbn; intros;
      match goal with H : _ ∈ [] |- _ => by apply elem_of_nil in H end.
  - intros run_id q q' ?%elem_of_nil. done.
Qed.

(** X5. Keys.  Whatever requests are served, in whatever order and
    whether they succeed or fail, the primary keys of the staging and
    published tables and of the tag table stay distinct and positive,
    run ids stay distinct and no two tags share a name.  This holds in
    particular for every store reached from the empty database. *)
Theorem serve_keeps_keys st requests :
  keys_ok empty_store
  ∧ (keys_ok st → keys_ok (serve st requests)).
Proof.
  split; [apply integrity_empty|]. apply keys_ok_serve.
Qed.

Lemma serve_keeps_keys_witness : keys_ok (serve empty_store example_requests).
Proof.
  destruct (serve_keeps_keys empty_store example_requests) as [H0 H]. by apply H.
Defined.

(** X6. References.  In every store reached from the empty database
    through requests: a staging question belongs to an existing run; a
    staging answer answers an existing staging question of its run; a
    published question has the [staging_id] of an existing staging
    question of its run; a published answer hangs under an existing
    published question of its run and has a [staging_id]; and every
    tag of a staging or published question is in the tag table. *)
Theorem serve_keeps_references requests :
  references_ok (serve empty_store requests).
Proof.
  destruct integrity_empty as (H1 & H2 & H3).
  by destruct (integrity_serve empty_store requests H1 H2 H3) as (_ & ? & _).
Qed.

(** X7. The reconciliation key.  In every store reached from the empty
    database through requests, no two published questions of a run
    have the same [staging_id]: a pass creates a published question
    only for a staging question that has none, and no request deletes
    one. *)
Theorem serve_keeps_staging_ids_unique requests :
  one_question_per_staging_id (serve empty_store requests).
Proof.
  intros q q' Hq Hq' Hr Hs.
  destruct integrity_empty as (H1 & H2 & H3).
  destruct (integrity_serve empty_store requests H1 H2 H3) as (Hk & Href & Hu).
  apply (question_eq_of_id _ (keys_store _ Hk)); [done..|].
  apply (Hu (q_run_id q)); [done..|].
  destruct (ref_questions _ Href q Hq) as (sq & _ & -> & _). done.
Qed.

(** X8. Review does not publish.  A request other than the pass leaves
    the published questions and answers exactly as they were; so a
    sequence of requests without a pass changes nothing in the
    published tables. *)
Theorem review_keeps_published st requests :
  Forall (λ request, is_sync request.2 = false) requests →
  questions (serve st requests) = questions st
  ∧ answers (serve st requests) = answers st.
Proof.
  revert st. induction requests as [|[now r] requests IH]; intros st; [done|].
  intros [Hr Hrs]%Forall_cons. rewrite serve_cons.
  destruct (IH (handle now r st).1 Hrs) as [-> ->]. by apply handle_published.
Qed.

Lemma review_keeps_published_witness :
  questions (serve empty_store (take 6 example_requests)) = []
  ∧ answers (serve empty_store (take 6 example_requests)) = [].
Proof.
  apply (review_keeps_published empty_store (take 6 example_requests)).
  repeat (apply List.Forall_cons; [done|]). apply List.Forall_nil.
Defined.

(** X9. A request answered with an error status leaves every table as
    it was: the unknown-id and missing-service checks come before any
    write, and what a request wrote before the generation service or
    the store raised is rolled back. *)
Theorem failed_request_changes_nothing now r st :
  (handle now r st).2 ≠ 200 → (handle now r st).1 = st.
Proof.
  destruct r as [new_id summary|llm run_id n|question_id b|llm run_id|answer_id b
                |question_id names|run_id fault];
    cbn [handle]; unfold prod_map; cbn [fst snd].
  - unfold create_run. by case_decide.
  - unfold generate_questions. destruct llm as [llm|]; [|done].
    destruct (find_run run_id st) as [run|]; [|done].
    by destruct (llm_generate_questions llm _ _).
  - unfold update_question_approval.
    by destruct (find_staging_question question_id st).
  - unfold generate_answers. destruct llm as [llm|]; [|done].
    destruct (find_run run_id st) as [run|]; [|done].
    destruct (approved_questions run_id st); [done|].
    by destruct (generate_answers_loop _ _ _ _ _ _) as [[]|].
  - unfold update_answer_approval. by destruct (find_staging_answer answer_id st).
  - unfold update_question_tags.
    destruct (find_staging_question question_id st); [|done].
    destruct (foldl _ _ names) as [[? ?] ?]. by case_decide.
  - unfold sync_to_actual. destruct (find_run run_id st); [|done].
    by destruct (sync_pass now run_id fault st) as [[]|].
Qed.

Lemma failed_request_changes_nothing_witness :
  (handle 11 (SyncToActual "r" (Some DemoteStale))
     (serve empty_store (take 10 example_requests))).1
  = serve empty_store (take 10 example_requests).
Proof.
  apply failed_request_changes_nothing. by vm_compute.
Defined.

(** ** What a pass publishes, and where *)

Section publishes.
Context (now : Z) (run_id : string) (st : Store) (Hwf : store_wf st).

Abbreviation AQ := (approved_questions run_id st).
Abbreviation AA := (approved_answers run_id st).
Abbreviation Aq := (approved_staging_question_ids run_id st).
Abbreviation Wq := (approved_questions_with_answers run_id st).
Abbreviation m0 := (staging_to_actual_question run_id (questions st)).
Abbreviation qs4 := (synced_questions now run_id st).

(** The published row of an approved staging question after the pass,
    and the answers under it. *)
Lemma synced_publishes sq :
  sq ∈ AQ →
  ∃ q, q ∈ qs4 ∧ q_run_id q = run_id ∧ q_staging_id q = Some (qs_id sq)
       ∧ q_question_text q = qs_question_text sq ∧ q_tags q = qs_tags sq
       ∧ q_is_approved q = bool_decide (qs_id sq ∈ Wq)
       ∧ ∀ sa, sa ∈ AA → as_question_id sa = qs_id sq →
           ∃ a, a ∈ synced_answers now run_id st
                ∧ a_run_id a = run_id ∧ a_question_id a = q_id q
                ∧ a_staging_id a = Some (as_id sa)
                ∧ a_answer_text a = as_answer_text sa.
Proof.
  intros Hsq.
  destruct (synced_questions_in_sync now run_id st Hwf) as [Hup _].
  destruct (Hup sq Hsq) as (q & Hm & Ht & Hf & Htags).
  change (mapped run_id qs4 (qs_id sq) = Some q) in Hm.
  pose proof Hm as (Hq & Hr & Hs)%mapped_Some.
  exists q. split_and!; [done..|].
  intros sa Hsa Hqa.
  destruct (synced_answers_in_sync now run_id st Hwf) as [Hans _].
  pose proof (synced_questions_pk now run_id st Hwf) as Hpk.
  assert (target Aq (staging_to_actual_question run_id qs4) qs4 sa = Some (q_id q))
    as Htgt.
  { unfold target. rewrite decide_True by (rewrite Hqa; apply elem_of_Aq; eauto).
    rewrite (stq_find run_id _ _ (proj1 Hpk)), Hqa, Hm. cbn.
    assert (0 < q_id q) by (by apply (pk_ok_pos q_id _ q Hpk)).
    destruct (q_id q =? 0) eqn:E; [lia|done]. }
  destruct (Hans sa (q_id q) Hsa Htgt) as (a & Hfa & Hta).
  apply find_answer_Some in Hfa as (Ha & Hra & Hia & Hsa').
  exists a. done.
Qed.

(** Rows of other runs go through the pass untouched. *)
Lemma other_run_question_kept x :
  x ∈ questions st → q_run_id x ≠ run_id →
  demoted now run_id Aq Wq (upserted now Wq m0 AQ x) = x.
Proof.
  intros Hx Hne. rewrite upserted_not_hit.
  - destruct (demoted_spec now run_id Aq Wq x) as [[[? _] _]|[_ ->]]; done.
  - intros sq Hsq Hm. apply stq_Some in Hm as (x' & Hx' & Hid & Hr' & _).
    assert (x' = x) as -> by (by apply (question_eq_of_id st Hwf)). done.
Qed.

Lemma other_run_answer_kept a :
  a ∈ answers st → a_run_id a ≠ run_id →
  answered now run_id (pass_target now run_id st) (answers st) AA a = a.
Proof.
  intros Ha Hne. apply answered_not_hit. intros sa Hsa Hh.
  apply hit_Some in Hh as (i & a' & _ & Hf & Hid).
  apply find_answer_Some in Hf as [Hin (Hr & _)].
  by rewrite (find_answer_elem_id (answers st) a' a (NoDup_answers st Hwf) Hin Ha Hid)
    in Hr.
Qed.

Lemma synced_questions_other_runs :
  filter (λ q, q_run_id q ≠ run_id) qs4
  = filter (λ q, q_run_id q ≠ run_id) (questions st).
Proof.
  unfold synced_questions, upserted_questions.
  rewrite fmap_app, filter_app.
  rewrite (filter_nil_Forall _ (_ <$> created _ _ _ _ _ _)).
  - rewrite app_nil_r, <- list_fmap_compose.
    rewrite filter_fmap_keys.
    + rewrite <- (list_fmap_id (filter _ (questions st))) at 2.
      apply list_fmap_ext. intros _ x [Hne Hx]%list_elem_of_lookup_2%list_elem_of_filter.
      cbn. by apply other_run_question_kept.
    + intros x. cbn.
      pose proof (demoted_key now run_id Aq Wq (upserted now Wq m0 AQ x)) as [= _ Hr _].
      pose proof (upserted_key now Wq m0 AQ x) as [= _ Hr' _]. by rewrite Hr, Hr'.
  - intros x (x2 & -> & Hx2)%list_elem_of_fmap.
    apply created_spec in Hx2 as (sq & i & _ & _ & -> & _).
    pose proof (demoted_key now run_id Aq Wq (new_question now run_id Wq i sq))
      as [= _ Hr _].
    rewrite Hr. cbn. by intros ?.
Qed.

Lemma synced_answers_other_runs :
  filter (λ a, a_run_id a ≠ run_id) (synced_answers now run_id st)
  = filter (λ a, a_run_id a ≠ run_id) (answers st).
Proof.
  unfold synced_answers. rewrite filter_filter_implied.
  - rewrite filter_app.
    rewrite (filter_nil_Forall _ (inserted _ _ _ _)).
    + rewrite app_nil_r. unfold rewritten_answers. rewrite filter_fmap_keys.
      * rewrite <- (list_fmap_id (filter _ (answers st))) at 2.
        apply list_fmap_ext.
        intros _ a [Hne Ha]%list_elem_of_lookup_2%list_elem_of_filter.
        by apply other_run_answer_kept.
      * intros a.
        pose proof (answered_key now run_id (pass_target now run_id st) (answers st)
                      AA a) as [= _ Hr _ _].
        by rewrite Hr.
    + intros a (na & j & _ & ->)%inserted_spec. cbn. by intros ?.
  - intros a _ Hne [Hr _]. done.
Qed.

End publishes.

(** X10. What a successful pass publishes.  Every approved staging
    question of the run has, after the pass, a published question of
    the run with its [staging_id], its text and its tags, flagged
    exactly when some approved staging answer of the run answers it;
    and every such answer is published under that question, with the
    [staging_id] and the text of the staging answer. *)
Theorem sync_publishes now run_id st st' res sq :
  store_wf st →
  sync_to_actual now run_id None st = (st', Ok res) →
  sq ∈ approved_questions run_id st →
  ∃ q, q ∈ questions st' ∧ q_run_id q = run_id ∧ q_staging_id q = Some (qs_id sq)
       ∧ q_question_text q = qs_question_text sq ∧ q_tags q = qs_tags sq
       ∧ (q_is_approved q = true
          ↔ ∃ sa, sa ∈ approved_answers run_id st ∧ as_question_id sa = qs_id sq)
       ∧ ∀ sa, sa ∈ approved_answers run_id st → as_question_id sa = qs_id sq →
           ∃ a, a ∈ answers st' ∧ a_run_id a = run_id ∧ a_question_id a = q_id q
                ∧ a_staging_id a = Some (as_id sa)
                ∧ a_answer_text a = as_answer_text sa.
Proof.
  intros Hwf (_ & -> & _)%sync_to_actual_ok Hsq; [|done].
  destruct (synced_publishes now run_id st Hwf sq Hsq)
    as (q & Hq & Hr & Hs & Ht & Htags & Hf & Hans).
  exists q. split_and!; [done..| |done].
  rewrite Hf, bool_decide_eq_true, elem_of_Wq. split; [by intros [_ ?]|].
  intros Hsa. split; [|done]. apply elem_of_Aq. eauto.
Qed.

Lemma sync_publishes_witness :
  ∃ q, q ∈ questions (sync_to_actual 5 "r" None example_reviewed).1
       ∧ q_question_text q = "q1"%string ∧ q_tags q = {[1; 2]}
       ∧ q_is_approved q = true
       ∧ ∃ a, a ∈ answers (sync_to_actual 5 "r" None example_reviewed).1
              ∧ a_question_id a = q_id q ∧ a_answer_text a = "answer to q1"%string.
Proof.
  destruct (sync_publishes 5 "r" example_reviewed
              (sync_to_actual 5 "r" None example_reviewed).1 (mkSyncResult 5 1)
              (mkQuestionStaging 1 "r" "q1" (Some true) 3 {[1; 2]}))
    as (q & Hq & _ & _ & Ht & Htags & Hf & Hans).
  - solve_store_wf.
  - by vm_compute.
  - compute_done.
  - destruct (Hans (mkAnswerStaging 1 "r" 1 "answer to q1" (Some true) 4))
      as (a & Ha & _ & Hqa & _ & Hta); [compute_done|done|].
    exists q. split_and!; [done..| |].
    + apply Hf. exists (mkAnswerStaging 1 "r" 1 "answer to q1" (Some true) 4).
      split; [compute_done|done].
    + exists a. done.
Defined.

(** X11. A successful pass over one run leaves the other runs alone:
    their published questions and answers and their rows in [runs] are
    unchanged; the row of the run itself gets [last_sync_at] and
    [updated_at] set to the time of the pass and keeps its summary and
    [last_staging_change_at]; the staging tables and the tag table are
    not written. *)
Theorem sync_touches_only_its_run now run_id st st' res :
  store_wf st →
  sync_to_actual now run_id None st = (st', Ok res) →
  filter (λ q, q_run_id q ≠ run_id) (questions st')
  = filter (λ q, q_run_id q ≠ run_id) (questions st)
  ∧ filter (λ a, a_run_id a ≠ run_id) (answers st')
    = filter (λ a, a_run_id a ≠ run_id) (answers st)
  ∧ runs st'
    = (λ r, if decide (r_id r = run_id)
            then mkRun (r_id r) (r_summary r) now (Some now) (r_last_staging_change_at r)
            else r) <$> runs st
  ∧ (question_staging st', answer_staging st', tags st')
    = (question_staging st, answer_staging st, tags st)
  ∧ sr_last_sync_at res = now.
Proof.
  intros Hwf (_ & -> & ->)%sync_to_actual_ok; [|done]. split_and!.
  - by apply synced_questions_other_runs.
  - by apply synced_answers_other_runs.
  - done.
  - done.
  - done.
Qed.

Lemma sync_touches_only_its_run_witness :
  r_last_sync_at <$> runs (sync_to_actual 5 "r" None example_reviewed).1
  = [Some 5; None]
  ∧ filter (λ q, q_run_id q ≠ "r"%string)
      (questions (sync_to_actual 5 "r" None example_reviewed).1)
    = filter (λ q, q_run_id q ≠ "r"%string) (questions example_reviewed).
Proof.
  destruct (sync_touches_only_its_run 5 "r" example_reviewed
              (sync_to_actual 5 "r" None example_reviewed).1 (mkSyncResult 5 1))
    as (Hq & _ & Hruns & _).
  - solve_store_wf.
  - by vm_compute.
  - split; [by rewrite Hruns|exact Hq].
Defined.

(** ** Updating the tags of a question ([update_question_tags],
       [get_question_tags]) *)

Lemma find_tag_app name ts1 ts2 :
  find_tag name (ts1 ++ ts2)
  = match find_tag name ts1 with
    | Some t => Some t
    | None => find_tag name ts2
    end.
Proof.
  induction ts1 as [|t ts1 IH]; [done|]. cbn [app]. rewrite !find_tag_cons.
  by case_decide.
Qed.

Lemma find_tag_prefix name ts ts' t :
  ts `prefix_of` ts' → find_tag name ts = Some t → find_tag name ts' = Some t.
Proof. intros [k ->] Hf. by rewrite find_tag_app, Hf. Qed.

(** The loop over the names in closed form: the collected ids are, in
    order, the ids the resulting table holds for the non-blank names. *)
Lemma resolve_tags_closed names ts flushed objs ts' flushed' objs' :
  foldl resolve_tag (ts, flushed, objs) names = (ts', flushed', objs') →
  objs' = objs ++ omap (resolved_tag ts') names
  ∧ ts `prefix_of` ts'
  ∧ (∀ tag, tag ∈ ts' →
       tag ∈ ts ∨ ∃ name, name ∈ names ∧ strip name ≠ EmptyString
                          ∧ tag_name tag = strip name
                          ∧ find_tag (strip name) ts = None)
  ∧ (∀ name, name ∈ names → strip name ≠ EmptyString →
       is_Some (find_tag (strip name) ts')).
Proof.
  revert ts flushed objs. induction names as [|name names IH]; intros ts flushed objs.
  { cbn. intros [= <- <- <-]. rewrite app_nil_r. split_and!; [done..|by left|].
    by intros name ?%elem_of_nil. }
  cbn [foldl omap list_omap]. unfold resolve_tag at 2, resolved_tag at 1.
  destruct (decide (strip name = EmptyString)) as [He|Hne].
  - intros (Ho & Hp & Hnew & Hall)%IH. split_and!; [done|done| |].
    + intros tag [?|(name' & ? & ? & ? & ?)]%Hnew; [by left|].
      right. exists name'. split_and!; [|done..]. apply elem_of_cons. by right.
    + intros name' [->|Hin]%elem_of_cons ?; [done|]. by apply Hall.
  - destruct (find_tag (strip name) ts) as [t|] eqn:Hf.
    + intros (Ho & Hp & Hnew & Hall)%IH.
      rewrite (find_tag_prefix _ _ _ _ Hp Hf). cbn.
      split_and!; [by rewrite Ho, <- app_assoc|done| |].
      * intros tag [?|(name' & ? & ? & ? & ?)]%Hnew; [by left|].
        right. exists name'. split_and!; [|done..]. apply elem_of_cons. by right.
      * intros name' [->|Hin]%elem_of_cons ?; [|by apply Hall].
        rewrite (find_tag_prefix _ _ _ _ Hp Hf). eauto.
    + intros (Ho & Hp & Hnew & Hall)%IH.
      set (t := mkTag (next_rowid (tag_id <$> ts)) (strip name)) in *.
      assert (find_tag (strip name) (ts ++ [t]) = Some t) as Hf'
        by (by rewrite find_tag_snoc, Hf, decide_True).
      rewrite (find_tag_prefix _ _ _ _ Hp Hf'). cbn.
      split_and!; [by rewrite Ho, <- app_assoc| | |].
      * etrans; [|exact Hp]. by apply prefix_app_r.
      * intros tag [[?| ->%list_elem_of_singleton]%elem_of_app
                   |(name' & ? & ? & ? & Hnone)]%Hnew.
        -- by left.
        -- right. exists name. split_and!; [apply elem_of_cons; by left|done..].
        -- right. exists name'. split_and!; [apply elem_of_cons; by right|done..|].
           rewrite find_tag_app in Hnone. by destruct (find_tag (strip name') ts).
      * intros name' [->|Hin]%elem_of_cons ?; [|by apply Hall].
        rewrite (find_tag_prefix _ _ _ _ Hp Hf'). eauto.
Qed.

Lemma list_find_staging_cons j (q : QuestionStaging) l :
  snd <$> list_find (λ q, qs_id q = j) (q :: l)
  = if decide (qs_id q = j) then Some q
    else snd <$> list_find (λ q, qs_id q = j) l.
Proof.
  cbn. case_decide; [done|]. by destruct (list_find _ l) as [[]|].
Qed.

Lemma find_staging_question_update i j (q1 : QuestionStaging) st l' :
  qs_id q1 = i →
  l' = update_staging_question i (λ _, q1) (question_staging st) →
  snd <$> list_find (λ q, qs_id q = j) l'
  = (if decide (j = i) then (λ _, q1) else id) <$> find_staging_question j st.
Proof.
  intros Hi ->. unfold find_staging_question, update_staging_question.
  induction (question_staging st) as [|q l IH]; [by case_decide|].
  rewrite fmap_cons, !list_find_staging_cons.
  destruct (decide (qs_id q = i)) as [Hqi|Hqi].
  - destruct (decide (qs_id q1 = j)) as [Hj|Hj].
    + rewrite (decide_True (P := qs_id q = j)) by congruence. cbn.
      by rewrite (decide_True (P := j = i)) by congruence.
    + rewrite (decide_False (P := qs_id q = j)) by congruence. exact IH.
  - destruct (decide (qs_id q = j)) as [Hj|Hj]; [|exact IH].
    cbn. by rewrite (decide_False (P := j = i)) by congruence.
Qed.

(** When the table holds every non-blank name the loop adds nothing
    and does not flush. *)
Lemma resolve_tags_found names ts flushed objs :
  (∀ name, name ∈ names → strip name ≠ EmptyString →
     is_Some (find_tag (strip name) ts)) →
  foldl resolve_tag (ts, flushed, objs) names
  = (ts, flushed, objs ++ omap (resolved_tag ts) names).
Proof.
  revert objs. induction names as [|name names IH]; intros objs Hall.
  { cbn. by rewrite app_nil_r. }
  assert (∀ name', name' ∈ names → strip name' ≠ EmptyString →
            is_Some (find_tag (strip name') ts)) as Hall'.
  { intros name' ?. apply Hall, elem_of_cons. by right. }
  cbn [foldl omap list_omap]. unfold resolve_tag at 2.
  destruct (decide (strip name = EmptyString)) as [He|Hne].
  - assert (resolved_tag ts name = None) as ->
      by (unfold resolved_tag; by rewrite decide_True).
    by apply IH.
  - destruct (Hall name) as [t Ht]; [apply elem_of_cons; by left|done|].
    assert (resolved_tag ts name = Some (tag_id t)) as ->
      by (unfold resolved_tag; by rewrite decide_False, Ht).
    rewrite Ht. rewrite IH by done. by rewrite <- app_assoc.
Qed.

(** X12. What a successful tag update stores.  The tag table only
    grows: every tag that was there keeps its place, id and name, and
    a tag is added exactly for a requested name that, stripped, is not
    blank and was not in the table.  The tags of the question, which
    are also the response, are the ids the table then holds for the
    stripped non-blank names of the request; blank names are ignored
    and the former tags of the question are dropped. *)
Theorem update_question_tags_resolves now question_id tag_names st st' ts :
  update_question_tags now question_id tag_names st = (st', Ok ts) →
  tags st `prefix_of` tags st'
  ∧ (∀ tag, tag ∈ tags st' →
       tag ∈ tags st
       ∨ ∃ name, name ∈ tag_names ∧ strip name ≠ EmptyString
                 ∧ tag_name tag = strip name ∧ find_tag (strip name) (tags st) = None)
  ∧ (∀ name, name ∈ tag_names → strip name ≠ EmptyString →
       is_Some (find_tag (strip name) (tags st')))
  ∧ ts = list_to_set (omap (resolved_tag (tags st')) tag_names).
Proof.
  intros Hcall.
  destruct (update_question_tags_inv _ _ _ _ _ _ Hcall)
    as (q0 & tbl & fl & objs & _ & _ & Hfold & -> & ->).
  apply resolve_tags_closed in Hfold as (-> & Hp & Hnew & Hall). cbn. done.
Qed.

Lemma update_question_tags_resolves_witness :
  update_question_tags 4 1 [" a "; "b"; ""]%string
    (serve empty_store (take 3 example_requests))
  = (serve empty_store (take 4 example_requests), Ok {[1; 2]})
  ∧ tags (serve empty_store (take 4 example_requests))
    = [mkTag 1 "a"; mkTag 2 "b"].
Proof.
  assert (update_question_tags 4 1 [" a "; "b"; ""]%string
            (serve empty_store (take 3 example_requests))
          = (serve empty_store (take 4 example_requests), Ok {[1; 2]})) as Hcall.
  { vm_compute. reflexivity. }
  split; [exact Hcall|].
  destruct (update_question_tags_resolves _ _ _ _ _ _ Hcall) as (_ & _ & _ & _).
  by vm_compute.
Defined.

(** X13. Reading back a tag update.  After a successful update
    [get_question_tags] of that question returns the response of the
    update, the tags of every other staging question read as before,
    and sending the same update again succeeds with the same response
    and adds no tag. *)
Theorem update_question_tags_round_trip now question_id tag_names st st' ts :
  update_question_tags now question_id tag_names st = (st', Ok ts) →
  get_question_tags question_id st' = Ok ts
  ∧ (∀ j, j ≠ question_id → get_question_tags j st' = get_question_tags j st)
  ∧ (∀ now', ∃ st'',
       update_question_tags now' question_id tag_names st' = (st'', Ok ts)
       ∧ tags st'' = tags st').
Proof.
  unfold update_question_tags at 1.
  destruct (find_staging_question question_id st) as [q0|] eqn:Hq0; [|done].
  destruct (foldl _ _ tag_names) as [[tbl flushed] objs] eqn:Hfold.
  case_decide; [|done]. intros [= <- <-].
  apply resolve_tags_closed in Hfold as (Hobjs & _ & _ & Hall).
  rewrite app_nil_l in Hobjs.
  pose proof (find_staging_question_Some _ _ _ Hq0) as [_ Hid].
  set (q1 := mkQuestionStaging (qs_id q0) (qs_run_id q0) (qs_question_text q0)
               (qs_is_approved q0) now (list_to_set objs)).
  set (st' := mkStore _ _ _ _ _ _).
  assert (∀ j, find_staging_question j st'
               = (if decide (j = qs_id q0) then (λ _, q1) else id)
                   <$> find_staging_question j st) as Hfind.
  { intros j. by apply find_staging_question_update. }
  split_and!.
  - unfold get_question_tags. rewrite Hfind, Hq0, decide_True by done. done.
  - intros j Hj. unfold get_question_tags. rewrite Hfind, decide_False by congruence.
    by destruct (find_staging_question j st).
  - intros now'. unfold update_question_tags.
    rewrite Hfind, Hq0, decide_True by done. cbn [fmap option_fmap option_map].
    change (tags st') with tbl.
    rewrite (resolve_tags_found _ _ _ _ Hall), app_nil_l, <- Hobjs.
    assert (filter (λ t, t ∉ qs_tags q1) objs = []) as ->.
    { clear. subst q1. cbn [qs_tags].
      generalize (list_to_set objs : gset Z) (λ t, proj2 (elem_of_list_to_set (C := gset Z) t objs)).
      intros X HX. induction objs as [|t l IH]; [done|].
      rewrite filter_cons_False.
      - apply IH. intros t' ?. apply HX, elem_of_cons. by right.
      - intros Hn. apply Hn, HX, elem_of_cons. by left. }
    rewrite decide_True by constructor. eauto.
Qed.

Lemma update_question_tags_round_trip_witness :
  update_question_tags 4 1 [" a "; "b"; ""]%string
    (serve empty_store (take 3 example_requests))
  = (serve empty_store (take 4 example_requests), Ok {[1; 2]})
  ∧ get_question_tags 1 (serve empty_store (take 4 example_requests)) = Ok {[1; 2]}
  ∧ get_question_tags 2 (serve empty_store (take 4 example_requests)) = Ok ∅.
Proof.
  assert (update_question_tags 4 1 [" a "; "b"; ""]%string
            (serve empty_store (take 3 example_requests))
          = (serve empty_store (take 4 example_requests), Ok {[1; 2]})) as Hcall.
  { vm_compute. reflexivity. }
  split; [exact Hcall|].
  destruct (update_question_tags_round_trip _ _ _ _ _ _ Hcall) as (Hget & Hother & _).
  split; [exact Hget|]. rewrite (Hother 2) by done. by vm_compute.
Defined.

(** ** Creating and reading runs ([create_run], [get_run]) *)

Lemma list_find_run_cons j (r : Run) rs :
  snd <$> list_find (λ r, r_id r = j) (r :: rs)
  = if decide (r_id r = j) then Some r
    else snd <$> list_find (λ r, r_id r = j) rs.
Proof.
  cbn. case_decide; [done|]. by destruct (list_find _ rs) as [[]|].
Qed.

Lemma find_run_snoc j st st' r :
  runs st' = runs st ++ [r] →
  find_run j st'
  = match find_run j st with
    | Some x => Some x
    | None => if decide (r_id r = j) then Some r else None
    end.
Proof.
  unfold find_run. intros ->. induction (runs st) as [|r' rs IH]; cbn [app].
  - by rewrite list_find_run_cons.
  - rewrite !list_find_run_cons. destruct (decide (r_id r' = j)); [done|exact IH].
Qed.

Lemma find_run_None j st : find_run j st = None ↔ j ∉ r_id <$> runs st.
Proof.
  unfold find_run. induction (runs st) as [|r rs IH].
  - split; [|done]. by intros _ ?%elem_of_nil.
  - rewrite fmap_cons, not_elem_of_cons, list_find_run_cons. case_decide.
    + split; [done|]. intros [? _]. congruence.
    + rewrite IH. split; [intros ?; split; congruence|by intros [_ ?]].
Qed.

(** X14. A new run.  Creating a run in a database that was reached
    through requests returns the run with the given summary;
    [get_run] then finds it and finds every other run as before, and
    the run starts empty: it has no staging questions, no staging
    answers and nothing published. *)
Theorem create_run_starts_empty now new_id summary requests st' run :
  create_run now new_id summary (serve empty_store requests) = (st', Ok run) →
  r_id run = new_id ∧ r_summary run = summary
  ∧ get_run new_id st' = Ok run
  ∧ (∀ j, j ≠ new_id → get_run j st' = get_run j (serve empty_store requests))
  ∧ get_questions new_id st' = Ok []
  ∧ get_answers new_id st' = Ok []
  ∧ (new_id ≠ EmptyString → get_actual_questions (Some new_id) st' = []).
Proof.
  destruct integrity_empty as (Hk0 & Hr0 & Hu0).
  destruct (integrity_serve empty_store requests Hk0 Hr0 Hu0) as (_ & Hr & _).
  generalize dependent (serve empty_store requests). clear. intros st Hr.
  unfold create_run. case_decide as Hnew; [done|]. intros [= <- <-].
  set (run := mkRun new_id summary now None (Some now)).
  set (st' := mkStore _ _ _ _ _ _).
  assert (∀ j, find_run j st'
               = match find_run j st with
                 | Some x => Some x
                 | None => if decide (r_id run = j) then Some run else None
                 end) as Hfind by (intros j; by apply find_run_snoc).
  assert (find_run new_id st' = Some run) as Hrun.
  { rewrite Hfind. apply find_run_None in Hnew. by rewrite Hnew, decide_True. }
  split_and!; [done|done| | | | |].
  - unfold get_run. by rewrite Hrun.
  - intros j Hj. unfold get_run. rewrite Hfind.
    destruct (find_run j st); [done|]. by rewrite decide_False.
  - unfold get_questions. rewrite Hrun. f_equal.
    apply filter_nil_Forall. intros sq Hsq Hid.
    apply Hnew. rewrite <- Hid. by apply (ref_question_staging _ Hr).
  - unfold get_answers. rewrite Hrun. f_equal.
    apply filter_nil_Forall. intros sa Hsa Hid.
    destruct (ref_answer_staging _ Hr sa Hsa) as (sq & Hsq & _ & Hrid).
    apply Hnew. rewrite <- Hid, <- Hrid. by apply (ref_question_staging _ Hr).
  - intros Hne. unfold get_actual_questions.
    rewrite filter_nil_Forall; [done|]. intros q Hq [_ Hin].
    cbn in Hin. rewrite decide_False in Hin by done.
    destruct (ref_questions _ Hr q Hq) as (sq & Hsq & _ & Hrid).
    apply Hnew. rewrite <- Hin, <- Hrid. by apply (ref_question_staging _ Hr).
Qed.

Lemma create_run_starts_empty_witness :
  create_run 8 "s" "Respiration" (serve empty_store (take 7 example_requests))
  = (serve empty_store (take 8 example_requests),
     Ok (mkRun "s" "Respiration" 8 None (Some 8)))
  ∧ get_run "s" (serve empty_store (take 8 example_requests))
    = Ok (mkRun "s" "Respiration" 8 None (Some 8))
  ∧ get_questions "s" (serve empty_store (take 8 example_requests)) = Ok [].
Proof.
  assert (create_run 8 "s" "Respiration" (serve empty_store (take 7 example_requests))
          = (serve empty_store (take 8 example_requests),
             Ok (mkRun "s" "Respiration" 8 None (Some 8)))) as Hcall.
  { vm_compute. reflexivity. }
  split; [exact Hcall|].
  destruct (create_run_starts_empty _ _ _ _ _ _ Hcall) as (_ & _ & Hget & _ & Hqs & _).
  by split.
Defined.

(** ** The response of answer generation ([generate_answers]) *)

Lemma generate_answers_loop_texts now llm run st approved deleted added deleted' added' :
  generate_answers_loop now llm run st approved (deleted, added)
  = Some (deleted', added') →
  ∃ news, added' = added ++ news
          ∧ Forall2 (answer_for now llm run) (filter (regenerated st) approved) news.
Proof.
  revert deleted added. induction approved as [|q approved IH]; intros deleted added.
  { cbn. intros [= <- <-]. exists []. rewrite app_nil_r. split; [done|constructor]. }
  cbn [generate_answers_loop]. unfold generate_answer_for.
  fold (existing_answers st q).
  destruct (existsb _ _) eqn:He.
  - cbn [mbind option_bind]. intros (news & -> & Hnews)%IH. exists news.
    rewrite filter_cons, decide_False; [done|].
    rewrite <- has_non_rejected_false. by rewrite He.
  - apply has_non_rejected_false in He.
    destruct (llm_generate_answer llm _ _) as [text|] eqn:Htext; [|done].
    cbn [mbind option_bind]. intros (news & -> & Hnews)%IH.
    exists (mkAnswerStaging 0 (r_id run) (qs_id q) text None now :: news).
    rewrite filter_cons, decide_True, <- app_assoc by done.
    split; [done|]. by constructor.
Qed.

Lemma inserted_staging_answer_for now llm run questions ids added :
  Forall2 (answer_for now llm run) questions added →
  Forall2 (answer_for now llm run) questions (inserted_staging ids added).
Proof.
  intros H. revert ids. induction H as [|q a qs l Ha _ IH]; intros ids; [constructor|].
  cbn. constructor; [exact Ha|apply IH].
Qed.

(** X15. The response of answer generation.  A successful call
    answers with one new pending staging answer of the run for each
    approved question of the run that has no pending or approved
    answer, in the order of the questions, each with the text the
    service returned for the text of the question and the summary of
    the run.  The staging answers afterwards are these and the former
    ones that do not belong to such a question. *)
Theorem generate_answers_response now llm run_id st st' created :
  store_wf st →
  generate_answers now (Some llm) run_id st = (st', Ok created) →
  ∃ run,
    find_run run_id st = Some run ∧ r_id run = run_id
    ∧ Forall2 (answer_for now llm run)
        (filter (regenerated st) (approved_questions run_id st)) created
    ∧ ∀ a, a ∈ answer_staging st' ↔
           a ∈ created
           ∨ (a ∈ answer_staging st
              ∧ ¬ ∃ question, question ∈ approved_questions run_id st
                              ∧ regenerated st question
                              ∧ as_question_id a = qs_id question).
Proof.
  intros Hwf Hcall.
  destruct (generate_answers_inv now llm run_id st st' created Hcall)
    as (run & deleted & added & Hrun & _ & Hloop & Hcr & ->).
  exists run. split; [done|]. split; [by apply find_run_Some in Hrun as [_ ?]|].
  pose proof (generate_answers_loop_texts _ _ _ _ _ _ _ _ _ Hloop)
    as (news & Hadd & Htexts).
  apply generate_answers_loop_spec in Hloop as (Hdel & _).
  cbn in Hadd. subst added.
  destruct (inserted_staging_spec (as_id <$> answer_staging st) news)
    as (_ & _ & Hfresh). rewrite <- Hcr in Hfresh.
  split; [rewrite Hcr; by apply inserted_staging_answer_for|].
  intros a. cbn [answer_staging]. rewrite list_elem_of_filter, elem_of_app. split.
  - intros [Hk [Ha|Ha]]; [right|by left]. split; [done|].
    intros (q & Hq & Hr & Hqa). apply Hk, Hdel. right. exists q, a.
    split_and!; [done..| |done]. by apply list_elem_of_filter.
  - intros [Ha|[Ha Hn]]; (split; [|by eauto]).
    + intros Hd.
      apply Hdel in Hd as [?%elem_of_nil|(q' & a0 & _ & _ & Ha0 & Hid)]; [done|].
      apply list_elem_of_filter in Ha0 as [_ Ha0].
      assert (as_id a0 < as_id a) by (apply (Hfresh a Ha); by apply list_elem_of_fmap_2).
      lia.
    + intros Hd.
      apply Hdel in Hd as [?%elem_of_nil|(q' & a' & Hq' & Hr' & Ha' & Hid)]; [done|].
      apply list_elem_of_filter in Ha' as [Hqa' Ha'].
      apply (staging_answer_eq_of_id st Hwf a' a Ha' Ha) in Hid as ->.
      apply Hn. by exists q'.
Qed.

Lemma generate_answers_response_witness :
  store_wf example_approved
  ∧ generate_answers 9 (Some example_llm) "r" example_approved
    = ((generate_answers 9 (Some example_llm) "r" example_approved).1,
       Ok [mkAnswerStaging 3 "r" 1 "answer to q1" None 9])
  ∧ ∃ run,
      find_run "r" example_approved = Some run
      ∧ Forall2 (answer_for 9 example_llm run)
          (filter (regenerated example_approved)
             (approved_questions "r" example_approved))
          [mkAnswerStaging 3 "r" 1 "answer to q1" None 9].
Proof.
  assert (store_wf example_approved) as Hwf by solve_store_wf.
  assert (generate_answers 9 (Some example_llm) "r" example_approved
          = ((generate_answers 9 (Some example_llm) "r" example_approved).1,
             Ok [mkAnswerStaging 3 "r" 1 "answer to q1" None 9])) as Hcall
    by (by vm_compute).
  split; [exact Hwf|]. split; [exact Hcall|].
  destruct (generate_answers_response _ _ _ _ _ _ Hwf Hcall)
    as (run & Hrun & _ & Htexts & _).
  exists run. by split.
Defined.

(** ** The published view after a pass ([get_actual_questions]) *)

Lemma elem_of_get_actual_questions run_id st q oa :
  (q, oa) ∈ get_actual_questions run_id st ↔
  q ∈ questions st ∧ q_is_approved q = true ∧ in_requested_run run_id q
  ∧ oa = snd <$> list_find (λ a, a_question_id a = q_id q) (answers st).
Proof.
  unfold get_actual_questions. rewrite list_elem_of_fmap. split.
  - intros (q' & [= -> ->] & [[? ?] ?]%list_elem_of_filter). done.
  - intros (? & ? & ? & ->). exists q. split; [done|].
    by apply list_elem_of_filter.
Qed.

Lemma first_answer_Some (answers0 : list Answer) i a0 :
  a0 ∈ answers0 → a_question_id a0 = i →
  ∃ a, snd <$> list_find (λ a, a_question_id a = i) answers0 = Some a
       ∧ a ∈ answers0 ∧ a_question_id a = i.
Proof.
  intros Ha0 Hi.
  destruct (list_find_elem_of (λ a, a_question_id a = i) answers0 a0 Ha0 Hi)
    as [[k a] Hf].
  rewrite Hf. exists a. apply list_find_Some in Hf as (Hk & ? & _).
  split_and!; [done| |done]. by eapply list_elem_of_lookup_2.
Qed.

(** X16. What the published view shows after a pass.  In a database
    reached through requests, after a successful pass over a run the
    view of that run lists a published question only if it was derived
    from an approved staging question of the run that has an approved
    staging answer; the entry has the text and the tags of that
    staging question and comes with an answer.  Conversely every such
    staging question is listed. *)
Theorem published_view_after_sync now run_id requests st' res :
  run_id ≠ EmptyString →
  sync_to_actual now run_id None (serve empty_store requests) = (st', Ok res) →
  (∀ q oa, (q, oa) ∈ get_actual_questions (Some run_id) st' →
     ∃ sq sa a,
       sq ∈ approved_questions run_id (serve empty_store requests)
       ∧ q_staging_id q = Some (qs_id sq)
       ∧ q_question_text q = qs_question_text sq ∧ q_tags q = qs_tags sq
       ∧ sa ∈ approved_answers run_id (serve empty_store requests)
       ∧ as_question_id sa = qs_id sq
       ∧ oa = Some a ∧ a_question_id a = q_id q)
  ∧ (∀ sq sa,
       sq ∈ approved_questions run_id (serve empty_store requests) →
       sa ∈ approved_answers run_id (serve empty_store requests) →
       as_question_id sa = qs_id sq →
       ∃ q oa, (q, oa) ∈ get_actual_questions (Some run_id) st'
               ∧ q_staging_id q = Some (qs_id sq)).
Proof.
  intros Hne Hcall.
  destruct integrity_empty as (Hk0 & Hr0 & Hu0).
  destruct (integrity_serve empty_store requests Hk0 Hr0 Hu0) as (Hk & _ & Hu).
  destruct (integrity_serve empty_store (requests ++ [(now, SyncToActual run_id None)])
              Hk0 Hr0 Hu0) as (Hk' & Hr' & _).
  rewrite serve_snoc in Hk', Hr'. cbn [handle] in Hk', Hr'. rewrite Hcall in Hk', Hr'.
  cbn in Hk', Hr'.
  generalize dependent (serve empty_store requests). clear Hk0 Hr0 Hu0. intros st.
  intros Hcall Hk Hu. pose proof (keys_store _ Hk) as Hwf.
  apply (sync_to_actual_ok now run_id st st' res Hwf) in Hcall as (_ & -> & _).
  specialize (Hu run_id). split.
  - intros q oa (Hq & Hf & Hin & ->)%elem_of_get_actual_questions.
    cbn in Hin. rewrite decide_False in Hin by done.
    destruct (ref_questions _ Hr' q Hq) as (sq0 & Hsq0 & Hs & _).
    assert (qs_id sq0 ≠ 0) as Hs0.
    { pose proof (pk_ok_pos qs_id _ sq0 (wf_question_staging _ (keys_store _ Hk')) Hsq0).
      lia. }
    pose proof (synced_flag now run_id st Hwf Hu q (qs_id sq0) Hq Hin Hs Hs0) as Hflag.
    pose proof (proj1 Hflag Hf) as (HAq & sa & Hsa & Hqa)%elem_of_Wq.
    apply elem_of_Aq in HAq as (sq & Hsq & Hid).
    destruct (synced_questions_in_sync now run_id st Hwf) as [Hup _].
    destruct (Hup sq Hsq) as (q' & Hm & Ht & _ & Htags).
    rewrite Hid in Hm.
    change (mapped run_id (synced_questions now run_id st) (qs_id sq0) = Some q') in Hm.
    rewrite (synced_mapped now run_id st Hwf Hu q (qs_id sq0) Hq Hin Hs) in Hm.
    injection Hm as <-.
    destruct (synced_flag_answer now run_id st Hwf Hu q (qs_id sq0) Hq Hin Hs Hs0 Hf)
      as (a0 & _ & Ha0 & Hqa0 & _).
    destruct (first_answer_Some (synced_answers now run_id st) (q_id q) a0 Ha0 Hqa0)
      as (a & Hfind & _ & Hqa').
    exists sq, sa, a. rewrite Hid. by split_and!.
  - intros sq sa Hsq Hsa Hqa.
    destruct (synced_publishes now run_id st Hwf sq Hsq)
      as (q & Hq & Hr & Hs & _ & _ & Hf & _).
    exists q, (snd <$> list_find (λ a, a_question_id a = q_id q)
                 (synced_answers now run_id st)).
    split; [|done]. apply elem_of_get_actual_questions. split_and!; [done| | |done].
    + rewrite Hf. apply bool_decide_eq_true, elem_of_Wq. split; [|by eauto].
      apply elem_of_Aq. eauto.
    + cbn. by rewrite decide_False.
Qed.

Lemma published_view_after_sync_witness :
  sync_to_actual 7 "r" None (serve empty_store (take 6 example_requests))
  = (serve empty_store (take 7 example_requests), Ok (mkSyncResult 7 1))
  ∧ ∃ q oa,
      (q, oa) ∈ get_actual_questions (Some "r"%string)
                  (serve empty_store (take 7 example_requests))
      ∧ q_staging_id q = Some 1.
Proof.
  assert (sync_to_actual 7 "r" None (serve empty_store (take 6 example_requests))
          = (serve empty_store (take 7 example_requests), Ok (mkSyncResult 7 1)))
    as Hcall by (vm_compute; reflexivity).
  split; [exact Hcall|].
  destruct (published_view_after_sync 7 "r" (take 6 example_requests) _ _
              ltac:(done) Hcall) as [_ Hlisted].
  apply (Hlisted (mkQuestionStaging 1 "r" "What is light?" (Some true) 4 {[1; 2]})
           (mkAnswerStaging 1 "r" 1 "It depends." (Some true) 6)).
  - vm_compute. apply list_elem_of_singleton. reflexivity.
  - vm_compute. apply list_elem_of_singleton. reflexivity.
  - reflexivity.
Defined.
